(** * Matrix Life: a multi-state Highlife automaton on a toroidal LED matrix

    Shallow embedding of [Matrix_Life.ino] and the properties of its rule
    table, transition loop, seeder and cycle driver.

    Conventions of the embedding:
    - a C [int] is a [Z]; every value the program computes stays far below
      the 32-bit range (neighbour counts are at most 8, the activity
      accumulator at most WIDTH*HEIGHT, coordinates at most WIDTH), so no
      wrap-around is written out;
    - a C array is a [list]; an access outside its bounds is undefined
      behaviour in C and is [None] here, so every operation that indexes an
      array lives in the [option] monad;
    - the display ([matrix.drawPixel], [matrix.show], the banner) is an
      output trace of events, most recent event first;
    - the random source ([random]) is the list of the values its successive
      calls return. *)

From Stdlib Require Import Ascii ZArith Bool Lia.
From stdpp Require Import base list strings.

Local Open Scope Z_scope.

(** ** The option monad of array accesses *)

Definition bind {A B : Type} (o : option A) (f : A -> option B) : option B :=
  match o with
  | Some a => f a
  | None => None
  end.

Notation "x <- e ;; k" := (bind e (fun x => k))
  (at level 20, e at level 99, k at level 200, only parsing).
Notation "' p <- e ;; k" := (bind e (fun p => k))
  (at level 20, p pattern, e at level 99, k at level 200, only parsing).

(** [a[i]] for reading and [a[i] = v] for writing, both checked. *)
Definition idx {A : Type} (a : list A) (i : Z) : option A :=
  if 0 <=? i then a !! Z.to_nat i else None.

Definition upd {A : Type} (a : list A) (i : Z) (v : A) : option (list A) :=
  if (0 <=? i) && (i <? Z.of_nat (length a))
  then Some (<[Z.to_nat i := v]> a)
  else None.

(** [for (int i = lo; i < hi; i++) body], as [cnt] iterations from [lo]. *)
Fixpoint for_ {S : Type} (i : Z) (cnt : nat) (body : Z -> S -> option S) (s : S)
  : option S :=
  match cnt with
  | O => Some s
  | Datatypes.S k => s' <- body i s ;; for_ (i + 1) k body s'
  end.

Definition for_upto {S : Type} (hi : Z) (body : Z -> S -> option S) (s : S)
  : option S :=
  for_ 0 (Z.to_nat hi) body s.

(** ** Configuration constants *)

Definition HEIGHT : Z := 64.
Definition WIDTH : Z := 128.

(** [matrix.color565] belongs to the Adafruit_Protomatter library and is not
    part of this program: the packed 16-bit value is kept symbolic, as the
    three arguments of the call. *)
Inductive colour565 : Type := color565 (r g b : Z).

Definition BLACK := color565 0 0 0.
Definition DARK_ORANGE := color565 64 36 0.
Definition GREEN := color565 0 128 38.
Definition DARK_BLUE := color565 0 20 64.
Definition PETROL_BLUE := color565 0 8 8.

(** ** Grid state: two buffers that swap roles *)

Abbreviation grid := (list (list Z)).

Record sim : Type := Sim {
  state : list grid;   (* int state[2][WIDTH][HEIGHT] *)
  now : Z;
  next : Z
}.

Definition get (st : list grid) (b x y : Z) : option Z :=
  g <- idx st b ;; c <- idx g x ;; idx c y.

Definition set (st : list grid) (b x y v : Z) : option (list grid) :=
  g <- idx st b ;;
  c <- idx g x ;;
  c' <- upd c y v ;;
  g' <- upd g x c' ;;
  upd st b g'.

Definition dead_grid : grid :=
  replicate (Z.to_nat WIDTH) (replicate (Z.to_nat HEIGHT) 0).

(** Globals are zero-initialised, apart from [next = 1]. *)
Definition init : sim := Sim [dead_grid; dead_grid] 0 1.

(** ** Rule table *)

Record rule : Type := Rule {
  colour : colour565;   (* representative colour for this state *)
  alive : Z;            (* 1 if alive for accumulating neighbour count *)
  rule_ : list Z        (* next state, indexed by number of live neighbours *)
}.

Definition rules : list rule := [
  Rule BLACK 0          (* 0 Dead *)
    [0; 0; 0; 1; 0; 0; 1; 0; 0];
  Rule DARK_BLUE 1      (* 1 Born *)
    [3; 3; 2; 2; 3; 3; 3; 3; 3];
  Rule GREEN 1          (* 2 Survived *)
    [3; 3; 2; 2; 3; 3; 3; 3; 3];
  Rule DARK_ORANGE 0    (* 3 Dying *)
    [4; 4; 4; 1; 4; 4; 1; 4; 4];
  Rule PETROL_BLUE 0    (* 4 Trail *)
    [4; 4; 0; 1; 0; 0; 1; 0; 0]
].

(** ** Shape library *)

Record shape : Type := Shape {
  width : Z;
  height : Z;
  shape_ : string
}.

Definition GLIDER := Shape 3 3
  (" 1 " +:+
   "  1" +:+
   "111").

Definition GLIDER2 := Shape 3 3
  (" 1 " +:+
   "1  " +:+
   "111").

Definition GLIDER3 := Shape 3 3
  ("111" +:+
   "1  " +:+
   " 1 ").

Definition GLIDER4 := Shape 3 3
  ("111" +:+
   "  1" +:+
   " 1 ").

Definition LWSS := Shape 5 4
  ("1  1 " +:+
   "    1" +:+
   "1   1" +:+
   " 1111").

Definition MWSS := Shape 6 5
  ("11111 " +:+
   "1    1" +:+
   "1     " +:+
   " 1   1" +:+
   "   1  ").

Definition HWSS := Shape 7 5
  (" 111111" +:+
   "1     1" +:+
   "      1" +:+
   "1    1 " +:+
   "  11   ").

Definition RPENT := Shape 3 3
  (" 11" +:+
   "11 " +:+
   " 1 ").

Definition DIEHARD := Shape 8 3
  ("       1" +:+
   "11      " +:+
   " 1   111").

Definition ACORN := Shape 7 3
  (" 1     " +:+
   "   1   " +:+
   "11  111").

Definition seeds : list shape := [
  GLIDER; GLIDER2; GLIDER3; GLIDER4;
  LWSS; MWSS; HWSS;
  RPENT; RPENT;
  DIEHARD; DIEHARD;
  ACORN; ACORN
].

Definition seedsC : Z := Z.of_nat (length seeds).

(** [s[i]] on a C string literal: the characters, then the terminating NUL. *)
Definition char_at (s : string) (i : Z) : option Ascii.ascii :=
  if 0 <=? i then
    match String.get (Z.to_nat i) s with
    | Some c => Some c
    | None => if i =? Z.of_nat (String.length s) then Some Ascii.zero else None
    end
  else None.

(** ** Display trace *)

Inductive event : Type :=
  | DrawPixel (x y : Z) (c : colour565)
  | SetCursor (x y : Z)
  | PrintText (s : string)
  | ShowFrame.

(** ** Startup *)

Inductive boot : Type :=
  | Blink (delay : Z)   (* [err]: blink the on-board LED forever *)
  | Ready.

(** The library's status for success; no theorem depends on its value. *)
Definition PROTOMATTER_OK : Z := 0.

(** Lines 194-214: [setup], given what [matrix.begin()] and
    [accel.begin(0x19)] answer.  [err] never returns. *)
Definition setup (status : Z) (accel_found : bool) : boot :=
  if negb (status =? PROTOMATTER_OK) then Blink 500
  else if negb accel_found then Blink 250
  else Ready.

(** ** Transition loop *)

(** [rules[state[b][x][y]].alive]. *)
Definition alive_at (st : list grid) (b x y : Z) : option Z :=
  s <- get st b x y ;; r <- idx rules s ;; Some (alive r).

(** Lines 233-241: wrapped neighbour coordinates and the live count. *)
Definition neighbours (st : list grid) (b x y : Z) : option Z :=
  let l := if x =? 0 then WIDTH - 1 else x - 1 in
  let r := if x =? WIDTH - 1 then 0 else x + 1 in
  let u := if y =? 0 then HEIGHT - 1 else y - 1 in
  let d := if y =? HEIGHT - 1 then 0 else y + 1 in
  a1 <- alive_at st b l u ;; a2 <- alive_at st b x u ;; a3 <- alive_at st b r u ;;
  a4 <- alive_at st b l y ;;                            a5 <- alive_at st b r y ;;
  a6 <- alive_at st b l d ;; a7 <- alive_at st b x d ;; a8 <- alive_at st b r d ;;
  Some (a1 + a2 + a3 + a4 + a5 + a6 + a7 + a8).

(** The loop state: the buffers, the activity accumulator [lc] and the
    pixels drawn so far. *)
Definition acc : Type := sim * Z * list event.

(** Lines 231-249, the body of the two loops. *)
Definition cell (x y : Z) (a : acc) : option acc :=
  let '(m, lc, out) := a in
  s <- get (state m) (now m) x y ;;
  n <- neighbours (state m) (now m) x y ;;
  rs <- idx rules s ;;
  ns <- idx (rule_ rs) n ;;
  rns <- idx rules ns ;;
  st' <- set (state m) (next m) x y ns ;;
  Some (Sim st' (now m) (next m), lc + alive rns, DrawPixel x y (colour rns) :: out).

(** Lines 226-251. *)
Definition transition (m : sim) : option acc :=
  for_upto HEIGHT (fun y => for_upto WIDTH (fun x => cell x y)) (m, 0, []).

(** Lines 258-259: [now ^= 1; next ^= 1]. *)
Definition swap (m : sim) : sim :=
  Sim (state m) (Z.lxor (now m) 1) (Z.lxor (next m) 1).

(** Lines 269-277, added to a trace. *)
Definition banner (out : list event) : list event :=
  PrintText "R.Lincoln May 2025" :: SetCursor (WIDTH - 18 * 6) (HEIGHT - 8) ::
  PrintText "B36/S23" :: SetCursor 1 9 ::
  PrintText "Game of Life" :: SetCursor 1 1 :: out.

(** ** Seeder *)

(** [random(lo, hi)]: the next value of the source.  Its contract,
    [lo <= v < hi], is a hypothesis of the theorems that need it. *)
Definition random (lo hi : Z) (rnd : list Z) : option (Z * list Z) :=
  match rnd with
  | v :: rest => Some (v, rest)
  | [] => None
  end.

(** The stamping loops carry the buffers, the running index [i] into the
    mask and the coordinates written so far (most recent first). *)
Definition stamp_cell (sd : shape) (px py x y : Z)
    (a : sim * Z * list (Z * Z)) : option (sim * Z * list (Z * Z)) :=
  let '(m, i, ws) := a in
  c <- char_at (shape_ sd) i ;;
  if Ascii.eqb c "1"%char then
    st' <- set (state m) (now m) (px + x) (py + y) 2 ;;
    Some (Sim st' (now m) (next m), i + 1, (px + x, py + y) :: ws)
  else Some (m, i + 1, ws).

(** Lines 290-296. *)
Definition stamp (sd : shape) (px py : Z) (m : sim) (ws : list (Z * Z))
  : option (sim * list (Z * Z)) :=
  '(m', _, ws') <-
    for_upto (height sd) (fun y =>
      for_upto (width sd) (fun x => stamp_cell sd px py x y)) (m, 0, ws) ;;
  Some (m', ws').

(** Lines 284-296, the body of the outer loop, over a selection list;
    [random(seedsC)] draws from [0, seedsC). *)
Definition seed_once (lib : list shape) (a : sim * list Z * list (Z * Z))
  : option (sim * list Z * list (Z * Z)) :=
  let '(m, rnd, ws) := a in
  '(px, rnd) <- random 10 (WIDTH - 10) rnd ;;
  '(py, rnd) <- random 10 (HEIGHT - 10) rnd ;;
  '(s, rnd) <- random 0 (Z.of_nat (length lib)) rnd ;;
  sd <- idx lib s ;;
  '(m', ws') <- stamp sd px py m ws ;;
  Some (m', rnd, ws').

(** [seed(n)] over a selection list; the program's own list is [seeds].
    The third component is the list of coordinates written. *)
Definition seed_with (lib : list shape) (n : Z) (m : sim) (rnd : list Z)
  : option (sim * list Z * list (Z * Z)) :=
  for_upto n (fun _ => seed_once lib) (m, rnd, []).

Definition seed (n : Z) (m : sim) (rnd : list Z) := seed_with seeds n m rnd.

(** ** Cycle driver *)

(** Lines 220-265: one call of [loop()], after the frame-rate wait;
    [millis] is what [millis()] answers. *)
Definition loop_with (lib : list shape) (millis : Z) (m : sim) (rnd : list Z)
  : option (sim * list Z * list event) :=
  '(m1, lc, out) <- transition m ;;
  let out := if millis <? 10000 then banner out else out in
  let out := ShowFrame :: out in
  let m2 := swap m1 in
  if lc <? Z.quot (HEIGHT * WIDTH) 25 then
    '(m3, rnd', _) <- seed_with lib 1 m2 rnd ;;
    Some (m3, rnd', out)
  else Some (m2, rnd, out).

Definition loop := loop_with seeds.

(** * Specification-level definitions *)

(** ** Grids *)

(** Total reading of [g[x][y]], for stating what the loops compute. *)
Definition cellv (g : grid) (x y : Z) : Z :=
  default 0 (c <- idx g x ;; idx c y).

Definition dims (g : grid) : Prop :=
  Z.of_nat (length g) = WIDTH /\
  Forall (fun c : list Z => Z.of_nat (length c) = HEIGHT) g.

(** ** The rule table as total functions *)

Definition valid_state (s : Z) : Prop := 0 <= s < Z.of_nat (length rules).

(** [rules[s].alive], [rules[s].colour] and [rules[s].rule[n]]. *)
Definition alive_of (s : Z) : Z :=
  match idx rules s with Some r => alive r | None => 0 end.

Definition colour_of (s : Z) : colour565 :=
  match idx rules s with Some r => colour r | None => BLACK end.

Definition next_of (s n : Z) : Z :=
  default 0 (r <- idx rules s ;; idx (rule_ r) n).

(** ** Well-formed simulator states *)

Definition cells_valid (g : grid) : Prop :=
  forall x y, 0 <= x < WIDTH -> 0 <= y < HEIGHT -> valid_state (cellv g x y).

Definition grid_ok (g : grid) : Prop := dims g /\ cells_valid g.

Definition sim_ok (m : sim) : Prop :=
  exists g0 g1, state m = [g0; g1] /\ grid_ok g0 /\ grid_ok g1 /\
    ((now m = 0 /\ next m = 1) \/ (now m = 1 /\ next m = 0)).

(** The buffers in their current roles. *)
Definition cur (m : sim) : grid := default [] (idx (state m) (now m)).
Definition nxt (m : sim) : grid := default [] (idx (state m) (next m)).

(** Decidable form, for concrete states. *)
Definition col_okb (c : list Z) : bool :=
  (Z.of_nat (length c) =? HEIGHT) &&
  forallb (fun s => (0 <=? s) && (s <? Z.of_nat (length rules))) c.

Definition grid_okb (g : grid) : bool :=
  (Z.of_nat (length g) =? WIDTH) && forallb col_okb g.

Definition sim_okb (m : sim) : bool :=
  match state m with
  | [g0; g1] =>
      grid_okb g0 && grid_okb g1 &&
      (((now m =? 0) && (next m =? 1)) || ((now m =? 1) && (next m =? 0)))
  | _ => false
  end.

(** ** Neighbour count on the torus *)

(** The eight neighbours of [(x, y)] on the [WIDTH x HEIGHT] torus, by
    modular arithmetic, in the order of the source's sum. *)
Definition torus_ring (x y : Z) : list (Z * Z) :=
  map (fun d : Z * Z => ((x + fst d) mod WIDTH, (y + snd d) mod HEIGHT))
      [(-1, -1); (0, -1); (1, -1);
       (-1, 0);           (1, 0);
       (-1, 1);  (0, 1);  (1, 1)].

Definition sum_list_Z (l : list Z) : Z := foldr Z.add 0 l.

Definition torus_count (g : grid) (x y : Z) : Z :=
  sum_list_Z (map (fun p : Z * Z => alive_of (cellv g (fst p) (snd p)))
                  (torus_ring x y)).

(** ** What one pass of the transition loops computes *)

Definition next_cell (g : grid) (x y : Z) : Z :=
  next_of (cellv g x y) (torus_count g x y).

(** The [WIDTH x HEIGHT] grid whose cell [(x, y)] is [f x y]. *)
Definition tabulate (f : Z -> Z -> Z) : grid :=
  (fun x => (fun y => f x y) <$> seqZ 0 HEIGHT) <$> seqZ 0 WIDTH.

Definition next_grid (g : grid) : grid := tabulate (next_cell g).

Fixpoint sum_upto (f : Z -> Z) (n : nat) : Z :=
  match n with
  | O => 0
  | Datatypes.S k => sum_upto f k + f (Z.of_nat k)
  end.

(** [f (n-1); ...; f 0]: the trace of a loop that emits [f i] at step [i]. *)
Fixpoint tab_rev {A : Type} (f : Z -> A) (n : nat) : list A :=
  match n with
  | O => []
  | Datatypes.S k => f (Z.of_nat k) :: tab_rev f k
  end.

Definition pixel (g : grid) (y x : Z) : event :=
  DrawPixel x y (colour_of (next_cell g x y)).

Fixpoint frame_rev (g : grid) (rows : nat) : list event :=
  match rows with
  | O => []
  | Datatypes.S k => tab_rev (pixel g (Z.of_nat k)) (Z.to_nat WIDTH) ++ frame_rev g k
  end.

Definition row_sum (g : grid) (y : Z) : Z :=
  sum_upto (fun x => alive_of (next_cell g x y)) (Z.to_nat WIDTH).

Definition lc_of (g : grid) : Z := sum_upto (row_sum g) (Z.to_nat HEIGHT).

(** The invariant of both loops: at row [y], column [x], the cells before
    [(x, y)] in scan order hold their next state in the next buffer, the
    current buffer is untouched, and the accumulator and the trace hold
    what those cells contributed. *)
Definition tr_inv (m0 : sim) (y x : Z) (a : acc) : Prop :=
  let '(m, lc, out) := a in
  now m = now m0 /\ next m = next m0 /\
  (exists gn, state m = <[Z.to_nat (next m0) := gn]> (state m0) /\ dims gn /\
     forall x' y', 0 <= x' < WIDTH -> 0 <= y' < HEIGHT ->
       y' < y \/ (y' = y /\ x' < x) -> cellv gn x' y' = next_cell (cur m0) x' y') /\
  lc = sum_upto (row_sum (cur m0)) (Z.to_nat y) +
       sum_upto (fun x' => alive_of (next_cell (cur m0) x' y)) (Z.to_nat x) /\
  out = tab_rev (pixel (cur m0) y) (Z.to_nat x) ++ frame_rev (cur m0) (Z.to_nat y).

(** ** Stamping a shape *)

(** [isAlive(shape, x, y)]: the mask character of column [x], row [y]. *)
Definition mask_at (sd : shape) (x y : Z) : bool :=
  match char_at (shape_ sd) (y * width sd + x) with
  | Some c => Ascii.eqb c "1"%char
  | None => false
  end.

(** Cell [(a, b)] of the grid lies under a true mask cell of [sd] placed
    with its top-left corner at [(px, py)]. *)
Definition covers (sd : shape) (px py a b : Z) : bool :=
  (0 <=? a - px) && (a - px <? width sd) &&
  (0 <=? b - py) && (b - py <? height sd) &&
  mask_at sd (a - px) (b - py).

(** The mask holds [width * height] characters (the terminating NUL may
    stand for the last one). *)
Definition shape_wf (sd : shape) : Prop :=
  0 <= width sd /\ 0 <= height sd /\
  width sd * height sd <= Z.of_nat (String.length (shape_ sd)) + 1.

Definition fits (sd : shape) (px py : Z) : Prop :=
  0 <= px /\ px + width sd <= WIDTH /\ 0 <= py /\ py + height sd <= HEIGHT.

(** The writes of the stamping loops, most recent first. *)
Fixpoint row_marks (sd : shape) (px py y : Z) (n : nat) : list (Z * Z) :=
  match n with
  | O => []
  | Datatypes.S k =>
      (if mask_at sd (Z.of_nat k) y then [(px + Z.of_nat k, py + y)] else [])
      ++ row_marks sd px py y k
  end.

Fixpoint shape_marks (sd : shape) (px py : Z) (rows : nat) : list (Z * Z) :=
  match rows with
  | O => []
  | Datatypes.S k =>
      row_marks sd px py (Z.of_nat k) (Z.to_nat (width sd)) ++ shape_marks sd px py k
  end.

(** Mask cells already visited when the loops stand at row [y], column [x]. *)
Definition marked (sd : shape) (px py y x a b : Z) : Prop :=
  0 <= a - px < width sd /\ 0 <= b - py < height sd /\
  (b - py < y \/ (b - py = y /\ a - px < x)) /\
  mask_at sd (a - px) (b - py) = true.

Definition st_inv (m0 : sim) (sd : shape) (px py : Z) (ws0 : list (Z * Z))
    (y x : Z) (a : sim * Z * list (Z * Z)) : Prop :=
  let '(m, i, ws) := a in
  now m = now m0 /\ next m = next m0 /\
  (exists gc, state m = <[Z.to_nat (now m0) := gc]> (state m0) /\ dims gc /\
     forall a b, (marked sd px py y x a b -> cellv gc a b = 2) /\
                 (~ marked sd px py y x a b -> cellv gc a b = cellv (cur m0) a b)) /\
  i = y * width sd + x /\
  ws = row_marks sd px py y (Z.to_nat x) ++ shape_marks sd px py (Z.to_nat y) ++ ws0.

(** ** Seeding *)

(** The inset of the placement origin covers every shape of the list. *)
Definition lib_fits (lib : list shape) : Prop :=
  Forall (fun sd => shape_wf sd /\ width sd <= 10 /\ height sd <= 10) lib.

(** The contract of [random] on the three draws of each of [n] rounds. *)
Fixpoint draws_ok (lib : list shape) (n : nat) (rnd : list Z) : Prop :=
  match n with
  | O => True
  | Datatypes.S k =>
      match rnd with
      | px :: py :: s :: rest =>
          10 <= px < WIDTH - 10 /\ 10 <= py < HEIGHT - 10 /\
          0 <= s < Z.of_nat (length lib) /\ draws_ok lib k rest
      | _ => False
      end
  end.

(** Cell [(a, b)] lies under a true mask cell of one of the [n] shapes
    placed according to the draws. *)
Fixpoint seeded (lib : list shape) (n : nat) (rnd : list Z) (a b : Z) : bool :=
  match n, rnd with
  | Datatypes.S k, px :: py :: s :: rest =>
      match idx lib s with
      | Some sd => covers sd px py a b
      | None => false
      end || seeded lib k rest a b
  | _, _ => false
  end.

Fixpoint seed_marks (lib : list shape) (n : nat) (rnd : list Z) : list (Z * Z) :=
  match n, rnd with
  | Datatypes.S k, px :: py :: s :: rest =>
      seed_marks lib k rest ++
      match idx lib s with
      | Some sd => shape_marks sd px py (Z.to_nat (height sd))
      | None => []
      end
  | _, _ => []
  end.

(** ** Activity of a grid *)

(** The number of cells of a grid whose state has alive flag 1. *)
Definition activity (g : grid) : Z :=
  Z.of_nat (length (List.filter (fun s => alive_of s =? 1) (concat g))).

(** ** Seeding DIEHARD on the empty grid *)

(** The true mask cells of DIEHARD with its corner at [(px, py)], in the
    order the stamping loops leave them in the write list. *)
Definition diehard_cells (px py : Z) : list (Z * Z) :=
  [(px + 7, py + 2); (px + 6, py + 2); (px + 5, py + 2); (px + 1, py + 2);
   (px + 1, py + 1); (px + 0, py + 1);
   (px + 7, py + 0)].

(** ** The state invariant *)

(** States the program can be in: the initial one, and those that follow by
    a pass of the transition loops, a swap of the roles, or a call of the
    seeder whose draws respect the contract of [random]. *)
Inductive reachable : sim -> Prop :=
  | reach_init : reachable init
  | reach_transition (m m' : sim) (lc : Z) (out : list event) :
      reachable m -> transition m = Some (m', lc, out) -> reachable m'
  | reach_swap (m : sim) : reachable m -> reachable (swap m)
  | reach_seed (m m' : sim) (n : Z) (rnd rnd' : list Z) (ws : list (Z * Z)) :
      reachable m -> draws_ok seeds (Z.to_nat n) rnd ->
      seed n m rnd = Some (m', rnd', ws) -> reachable m'.

(** Every cell of both buffers holds an index of the rule table. *)
Definition cells_in_table (m : sim) : Prop :=
  forall b x y, 0 <= b < 2 -> 0 <= x < WIDTH -> 0 <= y < HEIGHT ->
    exists v r, get (state m) b x y = Some v /\ 0 <= v <= 4 /\
                idx rules v = Some r.

(** ** Repeated transition steps without the seeder *)

(** [k] times: a pass of the transition loops, then the swap.  The history
    lists, first step first, each grid computed with its activity count and
    the pixels drawn. *)
Fixpoint evolve (k : nat) (m : sim) : option (sim * list (grid * Z * list event)) :=
  match k with
  | O => Some (m, [])
  | Datatypes.S k' =>
      '(m1, lc, out) <- transition m ;;
      '(m2, h) <- evolve k' (swap m1) ;;
      Some (m2, (nxt m1, lc, out) :: h)
  end.

Fixpoint history (k : nat) (g : grid) : list (grid * Z * list event) :=
  match k with
  | O => []
  | Datatypes.S k' =>
      (next_grid g, lc_of g, frame_rev g (Z.to_nat HEIGHT)) :: history k' (next_grid g)
  end.

(** ** The 2 x 2 block *)

Definition ind (c : bool) : Z := if c then 1 else 0.

(** Index [i] is one of the two adjacent indices [b], [b + 1] on a ring of
    length [n]. *)
Definition on_axis (n b i : Z) : bool := (i =? b) || (i =? (b + 1) mod n).

Definition in_block (cx cy x y : Z) : bool :=
  on_axis WIDTH cx x && on_axis HEIGHT cy y.

(** Survived on the 2 x 2 block with corner [(cx, cy)], wrapping at the
    edges, Dead elsewhere. *)
Definition block_grid (cx cy : Z) : grid :=
  tabulate (fun x y => if in_block cx cy x y then 2 else 0).

Definition block_cells (cx cy : Z) : list (Z * Z) :=
  [(cx, cy); ((cx + 1) mod WIDTH, cy);
   (cx, (cy + 1) mod HEIGHT); ((cx + 1) mod WIDTH, (cy + 1) mod HEIGHT)].

(** A block that wraps around both edges, in buffer 1. *)
Definition corner_block_state : sim := Sim [dead_grid; block_grid 127 63] 1 0.

(** Every fourth column Survived, in buffer 1: the pass leaves three columns
    in four alive, 6144 cells. *)
Definition stripes_state : sim :=
  Sim [dead_grid; tabulate (fun x _ => if x mod 4 =? 0 then 2 else 0)] 1 0.

(** ** Refinement of two-state Highlife *)

(** The classic rule B36/S23 on grids of 0 (dead) and 1 (alive), written
    from its usual statement and not from the rule table: a dead cell with 3
    or 6 live neighbours is born, a live cell with 2 or 3 survives. *)
Definition highlife (c n : Z) : Z :=
  if c =? 1 then (if (n =? 2) || (n =? 3) then 1 else 0)
  else (if (n =? 3) || (n =? 6) then 1 else 0).

Definition live_neighbours (b : grid) (x y : Z) : Z :=
  sum_list_Z (map (fun p : Z * Z => cellv b (fst p) (snd p)) (torus_ring x y)).

Definition highlife_step (b : grid) : grid :=
  tabulate (fun x y => highlife (cellv b x y) (live_neighbours b x y)).

(** Born and Survived are alive; Dead, Dying and Trail are dead. *)
Definition alive_flag (s : Z) : Z := if (s =? 1) || (s =? 2) then 1 else 0.

Definition project (g : grid) : grid :=
  (fun c : list Z => alive_flag <$> c) <$> g.

(** ** Startup and configuration checks *)

(** What the program does: [setup()] once, then [loop()] again and again
    (here [k] times), over a selection list. *)
Inductive outcome : Type :=
  | Halted (delay : Z)
  | Ran (r : option (sim * list Z)).

Fixpoint cycles_with (lib : list shape) (k : nat) (ms : Z) (m : sim) (rnd : list Z)
  : option (sim * list Z) :=
  match k with
  | O => Some (m, rnd)
  | Datatypes.S k' =>
      '(m', rnd', _) <- loop_with lib ms m rnd ;;
      cycles_with lib k' ms m' rnd'
  end.

Definition main_with (lib : list shape) (status : Z) (accel_found : bool)
    (k : nat) (ms : Z) (rnd : list Z) : outcome :=
  match setup status accel_found with
  | Blink d => Halted d
  | Ready => Ran (cycles_with lib k ms init rnd)
  end.

(** A shape wider than the inset of 10. *)
Definition WIDE : shape := Shape 12 1 "111111111111".

(** The transition loops and the cycle driver with the global [rules]
    replaced by a parameter [rt]; at [rt = rules] they are the program's
    own. *)
Definition alive_at_in (rt : list rule) (st : list grid) (b x y : Z) : option Z :=
  s <- get st b x y ;; r <- idx rt s ;; Some (alive r).

Definition neighbours_in (rt : list rule) (st : list grid) (b x y : Z) : option Z :=
  let l := if x =? 0 then WIDTH - 1 else x - 1 in
  let r := if x =? WIDTH - 1 then 0 else x + 1 in
  let u := if y =? 0 then HEIGHT - 1 else y - 1 in
  let d := if y =? HEIGHT - 1 then 0 else y + 1 in
  a1 <- alive_at_in rt st b l u ;; a2 <- alive_at_in rt st b x u ;;
  a3 <- alive_at_in rt st b r u ;; a4 <- alive_at_in rt st b l y ;;
  a5 <- alive_at_in rt st b r y ;; a6 <- alive_at_in rt st b l d ;;
  a7 <- alive_at_in rt st b x d ;; a8 <- alive_at_in rt st b r d ;;
  Some (a1 + a2 + a3 + a4 + a5 + a6 + a7 + a8).

Definition cell_in (rt : list rule) (x y : Z) (a : acc) : option acc :=
  let '(m, lc, out) := a in
  s <- get (state m) (now m) x y ;;
  n <- neighbours_in rt (state m) (now m) x y ;;
  rs <- idx rt s ;;
  ns <- idx (rule_ rs) n ;;
  rns <- idx rt ns ;;
  st' <- set (state m) (next m) x y ns ;;
  Some (Sim st' (now m) (next m), lc + alive rns, DrawPixel x y (colour rns) :: out).

Definition transition_in (rt : list rule) (m : sim) : option acc :=
  for_upto HEIGHT (fun y => for_upto WIDTH (fun x => cell_in rt x y)) (m, 0, []).

Definition loop_in (rt : list rule) (lib : list shape) (millis : Z) (m : sim)
    (rnd : list Z) : option (sim * list Z * list event) :=
  '(m1, lc, out) <- transition_in rt m ;;
  let out := if millis <? 10000 then banner out else out in
  let out := ShowFrame :: out in
  let m2 := swap m1 in
  if lc <? Z.quot (HEIGHT * WIDTH) 25 then
    '(m3, rnd', _) <- seed_with lib 1 m2 rnd ;;
    Some (m3, rnd', out)
  else Some (m2, rnd, out).

Fixpoint cycles_in (rt : list rule) (lib : list shape) (k : nat) (ms : Z)
    (m : sim) (rnd : list Z) : option (sim * list Z) :=
  match k with
  | O => Some (m, rnd)
  | Datatypes.S k' =>
      '(m', rnd', _) <- loop_in rt lib ms m rnd ;;
      cycles_in rt lib k' ms m' rnd'
  end.

Definition main_in (rt : list rule) (lib : list shape) (status : Z)
    (accel_found : bool) (k : nat) (ms : Z) (rnd : list Z) : outcome :=
  match setup status accel_found with
  | Blink d => Halted d
  | Ready => Ran (cycles_in rt lib k ms init rnd)
  end.

(** The next-state mapping of every rule is total: nine entries, one for
    each neighbour count, each the index of a rule. *)
Definition table_complete (rt : list rule) : Prop :=
  Forall (fun r => length (rule_ r) = 9%nat /\
                   Forall (fun s => 0 <= s < Z.of_nat (length rt)) (rule_ r)) rt.

(** The rule table with the entry of Dead for no live neighbour replaced by
    5, which is the index of no rule.  (The field [rule[9]] of the source
    always has nine slots, so a mapping that is not total over 0..8 shows as
    a slot that holds no state index.) *)
Definition BAD_RULES : list rule :=
  Rule BLACK 0 [5; 0; 0; 1; 0; 0; 1; 0; 0] :: tail rules.

(** * Further parts of the program *)

(** ** Error blink *)

(** A [uint32_t] result. *)
Definition u32 (z : Z) : Z := z mod 2 ^ 32.

(** What [err] does to the on-board LED pin, in order of time. *)
Inductive pin_event : Type :=
  | PinModeOutput
  | DigitalWrite (v : Z)
  | Delay (ms : Z).

(** Lines 188-191: the endless loop of [err], cut after [fuel] rounds; [i]
    is a [uint8_t], so [i++] wraps at 256.  [delay] takes an unsigned 32-bit
    number of milliseconds, so the [int] argument [x] is converted. *)
Fixpoint err_loop (x i : Z) (fuel : nat) : list pin_event :=
  match fuel with
  | O => []
  | Datatypes.S k =>
      DigitalWrite (Z.land i 1) :: Delay (u32 x) :: err_loop x ((i + 1) mod 256) k
  end.

(** Lines 185-192. *)
Definition err (x : Z) (fuel : nat) : list pin_event :=
  PinModeOutput :: err_loop x 1 fuel.

(** ** Frame-rate throttle *)

Definition MAX_FPS : Z := 25.

(** Lines 221-223: [while(((t = micros()) - prevTime) < (1000000L / MAX_FPS));
    prevTime = t;], given the successive answers of [micros()].  The result
    is the new [prevTime] and the answers not yet read; [None] when the
    answers run out before the wait ends. *)
Fixpoint frame_wait (prevTime : Z) (micros : list Z) : option (Z * list Z) :=
  match micros with
  | [] => None
  | t :: rest =>
      if u32 (t - prevTime) <? Z.quot 1000000 MAX_FPS
      then frame_wait prevTime rest
      else Some (t, rest)
  end.

(** * Further specification-level definitions *)

(** The state a pass of the transition loops leaves: the next buffer holds
    the next grid, nothing else has changed. *)
Definition after_pass (m : sim) : sim :=
  Sim (<[Z.to_nat (next m) := next_grid (cur m)]> (state m)) (now m) (next m).

(** The trace of one cycle started in [m], most recent event first. *)
Definition cycle_trace (ms : Z) (m : sim) : list event :=
  ShowFrame :: (if ms <? 10000 then banner (frame_rev (cur m) (Z.to_nat HEIGHT))
                else frame_rev (cur m) (Z.to_nat HEIGHT)).

(** The first of the true times [Ts] that lies a frame period after [T0]. *)
Fixpoint first_due (T0 : Z) (Ts : list Z) : option (Z * list Z) :=
  match Ts with
  | [] => None
  | T :: rest => if T - T0 <? 40000 then first_due T0 rest else Some (T, rest)
  end.

(** The events [f x y] in scan order: rows from the top, each from the left. *)
Definition scan (f : Z -> Z -> event) : list event :=
  mbind (fun y => (fun x => f x y) <$> seqZ 0 WIDTH) (seqZ 0 HEIGHT).

(** The grid moved by [(dx, dy)] on the torus: cell [(x, y)] of the result
    is cell [(x + dx, y + dy)] of [g], wrapped. *)
Definition shift (dx dy : Z) (g : grid) : grid :=
  tabulate (fun x y => cellv g ((x + dx) mod WIDTH) ((y + dy) mod HEIGHT)).

(** The wrapped block moved by (3, 5), in buffer 0. *)
Definition shifted_block_state : sim :=
  Sim [shift 3 5 (block_grid 127 63); dead_grid] 0 1.

(** The grid with shape [s] of the selection list placed at [(px, py)] in
    state Survived and every other cell Dead. *)
Definition stamped (s px py : Z) : grid :=
  tabulate (fun a b => if seeded seeds 1 [px; py; s] a b then 2 else 0).

(** The cells by which each of the four gliders of the selection list moves
    in four generations. *)
Definition heading (s : Z) : Z * Z :=
  if s =? 0 then (1, 1)
  else if s =? 1 then (-1, 1)
  else if s =? 2 then (-1, -1)
  else (1, -1).

(** * Properties *)

(** ** Checked array accesses *)

Lemma idx_Some {A : Type} (a : list A) (i : Z) (v : A) :
  idx a i = Some v <-> 0 <= i /\ a !! Z.to_nat i = Some v.
Proof.
  unfold idx. destruct (Z.leb_spec 0 i); split.
  - intros H1. split; assumption.
  - intros [_ H1]. exact H1.
  - discriminate.
  - intros [H1 _]. lia.
Qed.

Lemma idx_in_range {A : Type} (a : list A) (i : Z) :
  0 <= i < Z.of_nat (length a) -> exists v, idx a i = Some v.
Proof.
  intros Hi. destruct (lookup_lt_is_Some_2 a (Z.to_nat i)) as [v Hv]; [lia|].
  exists v. apply idx_Some. split; [lia | exact Hv].
Qed.

Lemma idx_bound {A : Type} (a : list A) (i : Z) (v : A) :
  idx a i = Some v -> 0 <= i < Z.of_nat (length a).
Proof.
  intros H. apply idx_Some in H as [H0 H1].
  apply lookup_lt_Some in H1. lia.
Qed.

Lemma upd_Some {A : Type} (a : list A) (i : Z) (v : A) :
  0 <= i < Z.of_nat (length a) -> upd a i v = Some (<[Z.to_nat i := v]> a).
Proof.
  intros Hi. unfold upd.
  destruct (Z.leb_spec 0 i); [|lia].
  destruct (Z.ltb_spec i (Z.of_nat (length a))); [reflexivity | lia].
Qed.

Lemma upd_inv {A : Type} (a a' : list A) (i : Z) (v : A) :
  upd a i v = Some a' ->
  0 <= i < Z.of_nat (length a) /\ a' = <[Z.to_nat i := v]> a.
Proof.
  unfold upd.
  destruct (Z.leb_spec 0 i); destruct (Z.ltb_spec i (Z.of_nat (length a)));
    simpl; intros H1; try discriminate.
  injection H1 as <-. split; [lia | reflexivity].
Qed.

Lemma idx_insert_same {A : Type} (a : list A) (i : Z) (v : A) :
  0 <= i < Z.of_nat (length a) -> idx (<[Z.to_nat i := v]> a) i = Some v.
Proof.
  intros Hi. apply idx_Some. split; [lia|].
  apply list_lookup_insert_eq. lia.
Qed.

Lemma idx_insert_other {A : Type} (a : list A) (i j : Z) (v : A) :
  0 <= i -> i <> j -> idx (<[Z.to_nat i := v]> a) j = idx a j.
Proof.
  intros Hi Hne. unfold idx. destruct (Z.leb_spec 0 j); [|reflexivity].
  apply list_lookup_insert_ne. lia.
Qed.

(** ** The loop rule *)

Lemma for_inv {S : Type} (I : Z -> S -> Prop) (body : Z -> S -> option S) :
  forall (cnt : nat) (lo : Z) (s : S),
    I lo s ->
    (forall i s, lo <= i < lo + Z.of_nat cnt -> I i s ->
                 exists s', body i s = Some s' /\ I (i + 1) s') ->
    exists s', for_ lo cnt body s = Some s' /\ I (lo + Z.of_nat cnt) s'.
Proof.
  induction cnt as [|k IH]; intros lo s H0 Hstep.
  - exists s. split; [reflexivity|]. now replace (lo + Z.of_nat 0) with lo by lia.
  - destruct (Hstep lo s) as [s1 [E1 I1]]; [lia | exact H0 |].
    destruct (IH (lo + 1) s1 I1) as [s2 [E2 I2]].
    + intros i t Hi. apply Hstep. lia.
    + exists s2. split.
      * cbn [for_]. rewrite E1. exact E2.
      * now replace (lo + Z.of_nat (Datatypes.S k)) with (lo + 1 + Z.of_nat k) by lia.
Qed.

Lemma for_upto_inv {S : Type} (I : Z -> S -> Prop) (body : Z -> S -> option S)
    (hi : Z) (s : S) :
  0 <= hi ->
  I 0 s ->
  (forall i s, 0 <= i < hi -> I i s -> exists s', body i s = Some s' /\ I (i + 1) s') ->
  exists s', for_upto hi body s = Some s' /\ I hi s'.
Proof.
  intros Hhi H0 Hstep.
  destruct (for_inv I body (Z.to_nat hi) 0 s H0) as [s' [E HI]].
  - intros i t Hi. apply Hstep. lia.
  - exists s'. split; [exact E|]. now replace hi with (0 + Z.of_nat (Z.to_nat hi)) by lia.
Qed.

Lemma for_upto_nonpos {S : Type} (body : Z -> S -> option S) (hi : Z) (s : S) :
  hi <= 0 -> for_upto hi body s = Some s.
Proof.
  intros H. unfold for_upto. now replace (Z.to_nat hi) with O by lia.
Qed.

(** ** Grids *)

Lemma WIDTH_eq : WIDTH = 128.
Proof. reflexivity. Qed.

Lemma HEIGHT_eq : HEIGHT = 64.
Proof. reflexivity. Qed.

Lemma dims_col (g : grid) (x : Z) :
  dims g -> 0 <= x < WIDTH ->
  exists c, idx g x = Some c /\ Z.of_nat (length c) = HEIGHT.
Proof.
  intros [Hw Hc] Hx.
  destruct (idx_in_range g x) as [c Ec]; [lia|].
  exists c. split; [exact Ec|].
  apply idx_Some in Ec as [_ Ec].
  rewrite Forall_lookup in Hc. exact (Hc _ _ Ec).
Qed.

Lemma dims_cell (g : grid) (x y : Z) :
  dims g -> 0 <= x < WIDTH -> 0 <= y < HEIGHT ->
  exists c, idx g x = Some c /\ Z.of_nat (length c) = HEIGHT /\
            idx c y = Some (cellv g x y).
Proof.
  intros Hd Hx Hy.
  destruct (dims_col g x Hd Hx) as [c [Ec Hl]].
  destruct (idx_in_range c y) as [v Ev]; [lia|].
  exists c. repeat split; try assumption.
  unfold cellv. rewrite Ec. cbn [bind]. now rewrite Ev.
Qed.

Lemma get_cellv (st : list grid) (b x y : Z) (g : grid) :
  idx st b = Some g -> dims g -> 0 <= x < WIDTH -> 0 <= y < HEIGHT ->
  get st b x y = Some (cellv g x y).
Proof.
  intros Eb Hd Hx Hy.
  destruct (dims_cell g x y Hd Hx Hy) as [c [Ec [_ Ev]]].
  unfold get. rewrite Eb. cbn [bind]. rewrite Ec. exact Ev.
Qed.

Lemma cellv_insert (g : grid) (c : list Z) (x y v x' y' : Z) :
  idx g x = Some c -> 0 <= y < Z.of_nat (length c) ->
  cellv (<[Z.to_nat x := <[Z.to_nat y := v]> c]> g) x' y' =
  if (x' =? x) && (y' =? y) then v else cellv g x' y'.
Proof.
  intros Ec Hy. pose proof (idx_bound _ _ _ Ec) as Hx.
  unfold cellv. destruct (Z.eqb_spec x' x) as [->|Hne].
  - rewrite idx_insert_same by lia. rewrite Ec. cbn [bind andb].
    destruct (Z.eqb_spec y' y) as [->|Hney].
    + now rewrite idx_insert_same by lia.
    + now rewrite idx_insert_other by lia.
  - cbn [andb]. now rewrite idx_insert_other by lia.
Qed.

Lemma dims_insert (g : grid) (c : list Z) (x y v : Z) :
  dims g -> idx g x = Some c ->
  dims (<[Z.to_nat x := <[Z.to_nat y := v]> c]> g).
Proof.
  intros [Hw Hc] Ec. split.
  - now rewrite length_insert.
  - apply Forall_insert; [exact Hc|]. rewrite length_insert.
    apply idx_Some in Ec as [_ Ec].
    rewrite Forall_lookup in Hc. exact (Hc _ _ Ec).
Qed.

(** [state[b][x][y] = v] inside the grid: the write succeeds and changes
    that one cell of buffer [b]. *)
Lemma set_spec (st : list grid) (b x y v : Z) (g : grid) :
  idx st b = Some g -> dims g -> 0 <= x < WIDTH -> 0 <= y < HEIGHT ->
  exists g', set st b x y v = Some (<[Z.to_nat b := g']> st) /\
             dims g' /\
             forall x' y', cellv g' x' y' =
                           if (x' =? x) && (y' =? y) then v else cellv g x' y'.
Proof.
  intros Eb Hd Hx Hy.
  destruct (dims_cell g x y Hd Hx Hy) as [c [Ec [Hl _]]].
  exists (<[Z.to_nat x := <[Z.to_nat y := v]> c]> g). split; [|split].
  - unfold set. rewrite Eb. cbn [bind]. rewrite Ec. cbn [bind].
    rewrite upd_Some by lia. cbn [bind].
    rewrite upd_Some by (destruct Hd; lia). cbn [bind].
    apply upd_Some. exact (idx_bound _ _ _ Eb).
  - now apply dims_insert.
  - intros x' y'. apply cellv_insert; [exact Ec | lia].
Qed.

(** A write outside the grid is an error. *)
Lemma set_out_of_range (st : list grid) (b x y v : Z) (g : grid) :
  idx st b = Some g -> dims g ->
  ~ (0 <= x < WIDTH /\ 0 <= y < HEIGHT) -> set st b x y v = None.
Proof.
  intros Eb Hd Hout. unfold set. rewrite Eb. cbn [bind].
  destruct (idx g x) as [c|] eqn:Ec; [|reflexivity]. cbn [bind].
  assert (Hx : 0 <= x < WIDTH) by (apply idx_bound in Ec; destruct Hd; lia).
  destruct (dims_col g x Hd Hx) as [c' [Ec' Hl]].
  rewrite Ec in Ec'. injection Ec' as <-.
  destruct (upd c y v) as [c1|] eqn:Eu; [|reflexivity].
  apply upd_inv in Eu. lia.
Qed.

Lemma grid_ext (g g' : grid) :
  dims g -> dims g' ->
  (forall x y, 0 <= x < WIDTH -> 0 <= y < HEIGHT -> cellv g x y = cellv g' x y) ->
  g = g'.
Proof.
  intros Hd Hd' Heq. apply list_eq. intros i.
  destruct (decide (Z.of_nat i < WIDTH)) as [Hi|Hi].
  - destruct (dims_col g (Z.of_nat i) Hd) as [c [Ec Hl]]; [lia|].
    destruct (dims_col g' (Z.of_nat i) Hd') as [c' [Ec' Hl']]; [lia|].
    pose proof Ec as Ec0. pose proof Ec' as Ec0'.
    apply idx_Some in Ec as [_ Ec]. apply idx_Some in Ec' as [_ Ec'].
    rewrite Nat2Z.id in Ec, Ec'. rewrite Ec, Ec'. f_equal.
    apply list_eq. intros j.
    destruct (decide (Z.of_nat j < HEIGHT)) as [Hj|Hj].
    + destruct (dims_cell g (Z.of_nat i) (Z.of_nat j) Hd) as [d [Ed [_ Ev]]]; [lia|lia|].
      destruct (dims_cell g' (Z.of_nat i) (Z.of_nat j) Hd') as [d' [Ed' [_ Ev']]]; [lia|lia|].
      rewrite Ec0 in Ed. injection Ed as <-.
      rewrite Ec0' in Ed'. injection Ed' as <-.
      apply idx_Some in Ev as [_ Ev]. apply idx_Some in Ev' as [_ Ev'].
      rewrite Nat2Z.id in Ev, Ev'. rewrite Ev, Ev'. f_equal.
      apply Heq; lia.
    + rewrite !lookup_ge_None_2; [reflexivity | lia | lia].
  - destruct Hd as [Hw _], Hd' as [Hw' _].
    rewrite !lookup_ge_None_2; [reflexivity | lia | lia].
Qed.

(** ** The rule table as total functions *)

Lemma valid_state_cases (s : Z) :
  valid_state s -> s = 0 \/ s = 1 \/ s = 2 \/ s = 3 \/ s = 4.
Proof.
  unfold valid_state. change (Z.of_nat (length rules)) with 5. lia.
Qed.

Lemma rules_lookup (s : Z) :
  valid_state s ->
  exists r, idx rules s = Some r /\ alive r = alive_of s /\ colour r = colour_of s.
Proof.
  intros H. apply valid_state_cases in H.
  destruct H as [->|[->|[->|[->| ->]]]]; eexists; repeat split; reflexivity.
Qed.

Lemma alive_of_bit (s : Z) : alive_of s = 0 \/ alive_of s = 1.
Proof.
  unfold alive_of. destruct (idx rules s) as [r|] eqn:E; [|now left].
  assert (Hs : valid_state s) by exact (idx_bound _ _ _ E).
  apply valid_state_cases in Hs.
  destruct Hs as [->|[->|[->|[->| ->]]]]; vm_compute in E;
    injection E as <-; cbn; auto.
Qed.

Lemma rules_total (s n : Z) :
  valid_state s -> 0 <= n <= 8 ->
  exists r, idx rules s = Some r /\ idx (rule_ r) n = Some (next_of s n) /\
            valid_state (next_of s n).
Proof.
  intros Hs Hn. apply valid_state_cases in Hs.
  assert (Hn' : n = 0 \/ n = 1 \/ n = 2 \/ n = 3 \/ n = 4 \/ n = 5 \/
                n = 6 \/ n = 7 \/ n = 8) by lia.
  destruct Hs as [->|[->|[->|[->| ->]]]];
    destruct Hn' as [->|[->|[->|[->|[->|[->|[->|[->| ->]]]]]]]];
    eexists; (split; [reflexivity|]); (split; [reflexivity|]);
    unfold valid_state; change (Z.of_nat (length rules)) with 5;
    vm_compute; split; congruence.
Qed.

(** ** Well-formed simulator states *)

Lemma sim_ok_bufs (m : sim) :
  sim_ok m ->
  idx (state m) (now m) = Some (cur m) /\ idx (state m) (next m) = Some (nxt m) /\
  grid_ok (cur m) /\ grid_ok (nxt m) /\
  now m <> next m /\ 0 <= now m < 2 /\ 0 <= next m < 2 /\
  length (state m) = 2%nat.
Proof.
  intros [g0 [g1 [Es [H0 [H1 Hr]]]]]. unfold cur, nxt. rewrite Es.
  destruct Hr as [[-> ->]|[-> ->]]; cbn;
    repeat match goal with |- _ /\ _ => split end;
    try assumption; try reflexivity; lia.
Qed.

Lemma grid_okb_sound (g : grid) : grid_okb g = true -> grid_ok g.
Proof.
  unfold grid_okb. rewrite andb_true_iff, Z.eqb_eq, forallb_forall.
  intros [Hw Hc].
  assert (Hcol : forall c, In c g ->
            Z.of_nat (length c) = HEIGHT /\ forall s, In s c -> valid_state s).
  { intros c Hin. specialize (Hc c Hin). unfold col_okb in Hc.
    rewrite andb_true_iff, Z.eqb_eq, forallb_forall in Hc.
    destruct Hc as [Hl Hs]. split; [exact Hl|].
    intros s Hin'. specialize (Hs s Hin').
    rewrite andb_true_iff, Z.leb_le, Z.ltb_lt in Hs. exact Hs. }
  assert (Hd : dims g).
  { split; [exact Hw|]. apply Forall_forall. intros c Hin.
    apply list_elem_of_In in Hin. exact (proj1 (Hcol c Hin)). }
  split; [exact Hd|].
  intros x y Hx Hy.
  destruct (dims_cell g x y Hd Hx Hy) as [c [Ec [_ Ev]]].
  apply idx_Some in Ec as [_ Ec]. apply idx_Some in Ev as [_ Ev].
  apply list_elem_of_lookup_2, list_elem_of_In in Ec.
  apply list_elem_of_lookup_2, list_elem_of_In in Ev.
  exact (proj2 (Hcol c Ec) _ Ev).
Qed.

Lemma sim_okb_sound (m : sim) : sim_okb m = true -> sim_ok m.
Proof.
  unfold sim_okb. destruct (state m) as [|g0 [|g1 [|g2 st]]] eqn:Es;
    try discriminate.
  rewrite !andb_true_iff, orb_true_iff, !andb_true_iff, !Z.eqb_eq.
  intros [[H0 H1] Hr]. exists g0, g1.
  split; [exact Es|].
  split; [now apply grid_okb_sound|].
  split; [now apply grid_okb_sound | exact Hr].
Qed.

Lemma sim_ok_init : sim_ok init.
Proof. apply sim_okb_sound. vm_compute. reflexivity. Qed.

(** ** Neighbour count on the torus *)

Lemma wrap_dec (n x : Z) :
  0 <= x < n -> (if x =? 0 then n - 1 else x - 1) = (x + -1) mod n.
Proof.
  intros Hx. destruct (Z.eqb_spec x 0) as [->|Hne].
  - apply (Z.mod_unique (0 + -1) n (-1) (n - 1)); lia.
  - symmetry. apply Z.mod_small. lia.
Qed.

Lemma wrap_inc (n x : Z) :
  0 <= x < n -> (if x =? n - 1 then 0 else x + 1) = (x + 1) mod n.
Proof.
  intros Hx. destruct (Z.eqb_spec x (n - 1)) as [->|Hne].
  - apply (Z.mod_unique (n - 1 + 1) n 1 0); lia.
  - symmetry. apply Z.mod_small. lia.
Qed.

Lemma wrap_same (n x : Z) : 0 <= x < n -> (x + 0) mod n = x.
Proof. intros Hx. rewrite Z.add_0_r. apply Z.mod_small. lia. Qed.

Lemma alive_at_spec (st : list grid) (b x y : Z) (g : grid) :
  idx st b = Some g -> grid_ok g -> 0 <= x < WIDTH -> 0 <= y < HEIGHT ->
  alive_at st b x y = Some (alive_of (cellv g x y)).
Proof.
  intros Eb [Hd Hv] Hx Hy. unfold alive_at.
  rewrite (get_cellv st b x y g Eb Hd Hx Hy). cbn [bind].
  destruct (rules_lookup _ (Hv x y Hx Hy)) as [r [Er [Ea _]]].
  rewrite Er. cbn [bind]. now rewrite Ea.
Qed.

Lemma neighbours_spec (st : list grid) (b x y : Z) (g : grid) :
  idx st b = Some g -> grid_ok g -> 0 <= x < WIDTH -> 0 <= y < HEIGHT ->
  neighbours st b x y = Some (torus_count g x y).
Proof.
  intros Eb Hg Hx Hy. unfold neighbours.
  rewrite (wrap_dec WIDTH x Hx), (wrap_inc WIDTH x Hx).
  rewrite (wrap_dec HEIGHT y Hy), (wrap_inc HEIGHT y Hy).
  cbv zeta.
  assert (HW : 0 < WIDTH) by (rewrite WIDTH_eq; lia).
  assert (HH : 0 < HEIGHT) by (rewrite HEIGHT_eq; lia).
  rewrite !(alive_at_spec st b _ _ g Eb Hg)
    by (try assumption; apply Z.mod_pos_bound; assumption).
  cbn [bind]. f_equal.
  unfold torus_count, torus_ring, sum_list_Z. cbn [map foldr fst snd].
  rewrite (wrap_same WIDTH x Hx), (wrap_same HEIGHT y Hy). lia.
Qed.

Lemma torus_count_bounds (g : grid) (x y : Z) : 0 <= torus_count g x y <= 8.
Proof.
  unfold torus_count, torus_ring, sum_list_Z. cbn [map foldr fst snd].
  repeat match goal with
  | |- context [alive_of ?s] =>
      let H := fresh "Hb" in
      let a := fresh "a" in
      pose proof (alive_of_bit s) as H; set (a := alive_of s) in *; clearbody a
  end.
  lia.
Qed.

(** ** What one pass of the transition loops computes *)

Lemma to_nat_succ (i : Z) : 0 <= i -> Z.to_nat (i + 1) = Datatypes.S (Z.to_nat i).
Proof. lia. Qed.

Lemma tabulate_dims (f : Z -> Z -> Z) : dims (tabulate f).
Proof.
  unfold tabulate. split.
  - rewrite length_fmap, length_seqZ. rewrite WIDTH_eq. reflexivity.
  - apply Forall_fmap, Forall_forall. intros x _. cbn.
    rewrite length_fmap, length_seqZ. rewrite HEIGHT_eq. reflexivity.
Qed.

Lemma tabulate_cell (f : Z -> Z -> Z) (x y : Z) :
  0 <= x < WIDTH -> 0 <= y < HEIGHT -> cellv (tabulate f) x y = f x y.
Proof.
  intros Hx Hy. unfold cellv, tabulate, idx.
  destruct (Z.leb_spec 0 x); [|lia]. destruct (Z.leb_spec 0 y); [|lia].
  rewrite list_lookup_fmap, lookup_seqZ_lt by lia. cbn [fmap option_fmap option_map bind].
  rewrite list_lookup_fmap, lookup_seqZ_lt by lia. cbn.
  now rewrite !Z2Nat.id by lia.
Qed.

Lemma next_grid_dims (g : grid) : dims (next_grid g).
Proof. apply tabulate_dims. Qed.

Lemma next_grid_cell (g : grid) (x y : Z) :
  0 <= x < WIDTH -> 0 <= y < HEIGHT ->
  cellv (next_grid g) x y = next_cell g x y.
Proof. apply tabulate_cell. Qed.

Lemma next_cell_valid (g : grid) (x y : Z) :
  grid_ok g -> 0 <= x < WIDTH -> 0 <= y < HEIGHT -> valid_state (next_cell g x y).
Proof.
  intros [_ Hv] Hx Hy.
  destruct (rules_total (cellv g x y) (torus_count g x y)) as [r [_ [_ H]]];
    [apply Hv; assumption | apply torus_count_bounds | exact H].
Qed.

Lemma next_grid_ok (g : grid) : grid_ok g -> grid_ok (next_grid g).
Proof.
  intros Hg. split; [apply next_grid_dims|].
  intros x y Hx Hy. rewrite next_grid_cell by assumption.
  now apply next_cell_valid.
Qed.

Section Transition.

(** The state [m0] the pass starts from. *)
Variable m0 : sim.
Hypothesis Hok : sim_ok m0.

Lemma cell_step (x y : Z) (a : acc) :
  0 <= x < WIDTH -> 0 <= y < HEIGHT ->
  tr_inv m0 y x a ->
  exists a', cell x y a = Some a' /\ tr_inv m0 y (x + 1) a'.
Proof.
  intros Hx Hy. destruct a as [[m lc] out].
  intros [Hnow [Hnext [[gn [Est [Hdn Hdone]]] [Hlc Hout]]]].
  destruct (sim_ok_bufs m0 Hok) as [Ec [En [Hgc [Hgn [Hne [Hnr [Hxr Hlen]]]]]]].
  assert (Ecur : idx (state m) (now m) = Some (cur m0)).
  { rewrite Est, Hnow. rewrite idx_insert_other by lia. exact Ec. }
  assert (Enxt : idx (state m) (next m) = Some gn).
  { rewrite Est, Hnext. apply idx_insert_same. lia. }
  destruct (rules_total (cellv (cur m0) x y) (torus_count (cur m0) x y))
    as [rs [Ers [Ens Hvns]]];
    [apply Hgc; assumption | apply torus_count_bounds |].
  fold (next_cell (cur m0) x y) in Ens, Hvns.
  destruct (rules_lookup _ Hvns) as [rns [Erns [Ea Ecol]]].
  destruct (set_spec (state m) (next m) x y (next_cell (cur m0) x y) gn
              Enxt Hdn Hx Hy) as [gn' [Eset [Hdn' Hcells]]].
  eexists. split.
  - unfold cell.
    rewrite (get_cellv _ _ x y _ Ecur (proj1 Hgc) Hx Hy). cbn [bind].
    rewrite (neighbours_spec _ _ x y _ Ecur Hgc Hx Hy). cbn [bind].
    rewrite Ers. cbn [bind]. rewrite Ens. cbn [bind]. rewrite Erns. cbn [bind].
    rewrite Eset. cbn [bind]. reflexivity.
  - cbn [tr_inv now next state]. split; [exact Hnow|]. split; [exact Hnext|].
    split; [|split].
    + exists gn'. split; [|split].
      * rewrite Hnext, Est. apply list_insert_insert_eq.
      * exact Hdn'.
      * intros x' y' Hx' Hy' Hd. rewrite Hcells.
        destruct (Z.eqb_spec x' x) as [->|Hnx];
          destruct (Z.eqb_spec y' y) as [->|Hny]; cbn [andb];
          try reflexivity; apply Hdone; try assumption; lia.
    + rewrite to_nat_succ by lia. cbn [sum_upto].
      rewrite Z2Nat.id by lia. rewrite Ea. lia.
    + rewrite to_nat_succ by lia. cbn [tab_rev app].
      rewrite Z2Nat.id by lia. unfold pixel at 1. now rewrite Ecol, Hout.
Qed.

Lemma row_step (y : Z) (a : acc) :
  0 <= y < HEIGHT ->
  tr_inv m0 y 0 a ->
  exists a', for_upto WIDTH (fun x => cell x y) a = Some a' /\
             tr_inv m0 (y + 1) 0 a'.
Proof.
  intros Hy H0.
  destruct (for_upto_inv (tr_inv m0 y) (fun x => cell x y) WIDTH a)
    as [a' [E Hinv]].
  - rewrite WIDTH_eq. lia.
  - exact H0.
  - intros x s Hx. now apply cell_step.
  - exists a'. split; [exact E|].
    destruct a' as [[m lc] out].
    destruct Hinv as [Hnow [Hnext [[gn [Est [Hdn Hdone]]] [Hlc Hout]]]].
    split; [exact Hnow|]. split; [exact Hnext|]. split; [|split].
    + exists gn. split; [exact Est|]. split; [exact Hdn|].
      intros x' y' Hx' Hy' Hd. apply Hdone; try assumption. lia.
    + rewrite to_nat_succ by lia. cbn [sum_upto].
      rewrite Z2Nat.id by lia. rewrite Hlc. unfold row_sum at 3.
      change (Z.to_nat 0) with O. cbn [sum_upto]. lia.
    + rewrite to_nat_succ by lia. cbn [frame_rev].
      rewrite Z2Nat.id by lia. change (Z.to_nat 0) with O. cbn [tab_rev app].
      exact Hout.
Qed.

(** One pass over a well-formed state always succeeds; it fills the next
    buffer with [next_grid] of the current one and leaves the rest alone. *)
Lemma transition_spec :
  transition m0 =
    Some (Sim (<[Z.to_nat (next m0) := next_grid (cur m0)]> (state m0))
              (now m0) (next m0),
          lc_of (cur m0), frame_rev (cur m0) (Z.to_nat HEIGHT)).
Proof.
  destruct (sim_ok_bufs m0 Hok) as [Ec [En [Hgc [Hgn [Hne [Hnr [Hxr Hlen]]]]]]].
  destruct (for_upto_inv (fun y => tr_inv m0 y 0)
              (fun y => for_upto WIDTH (fun x => cell x y)) HEIGHT (m0, 0, []))
    as [a' [E Hinv]].
  - rewrite HEIGHT_eq. lia.
  - split; [reflexivity|]. split; [reflexivity|]. split; [|split].
    + exists (nxt m0). split; [|split].
      * symmetry. apply list_insert_id. now apply idx_Some in En.
      * apply Hgn.
      * intros x' y' Hx' Hy' Hd. lia.
    + reflexivity.
    + reflexivity.
  - intros y s Hy. now apply row_step.
  - unfold transition. rewrite E. f_equal.
    destruct a' as [[m' lc] out].
    destruct Hinv as [Hnow [Hnext [[gn [Est [Hdn Hdone]]] [Hlc Hout]]]].
    assert (Egn : gn = next_grid (cur m0)).
    { apply grid_ext; [exact Hdn | apply next_grid_dims |].
      intros x y Hx Hy. rewrite next_grid_cell by assumption.
      apply Hdone; try assumption. lia. }
    subst gn. destruct m' as [st' now' next']. cbn in Hnow, Hnext, Est.
    subst now' next' st'.
    change (Z.to_nat 0) with O in Hlc, Hout. cbn [sum_upto tab_rev app] in Hlc, Hout.
    unfold lc_of. rewrite Hlc, Hout, Z.add_0_r. reflexivity.
Qed.

End Transition.

Lemma nxt_insert (m : sim) (g : grid) :
  sim_ok m ->
  nxt (Sim (<[Z.to_nat (next m) := g]> (state m)) (now m) (next m)) = g /\
  cur (Sim (<[Z.to_nat (next m) := g]> (state m)) (now m) (next m)) = cur m.
Proof.
  intros Hok.
  destruct (sim_ok_bufs m Hok) as [Ec [En [Hgc [Hgn [Hne [Hnr [Hxr Hlen]]]]]]].
  unfold nxt, cur. cbn [state now next]. split.
  - now rewrite idx_insert_same by lia.
  - now rewrite idx_insert_other by lia.
Qed.

Ltac pair_neq :=
  let H := fresh in
  intros H; injection H; rewrite ?WIDTH_eq, ?HEIGHT_eq; lia.

Ltac not_in_list :=
  rewrite ?elem_of_cons, elem_of_nil;
  let H := fresh in
  intros H; repeat destruct H as [H|H]; try contradiction; revert H; pair_neq.

Lemma torus_ring_distinct (x y : Z) :
  0 <= x < WIDTH -> 0 <= y < HEIGHT ->
  NoDup (torus_ring x y) /\ (x, y) ∉ torus_ring x y.
Proof.
  intros Hx Hy. unfold torus_ring. cbn [map fst snd].
  rewrite <- (wrap_dec WIDTH x Hx), <- (wrap_inc WIDTH x Hx).
  rewrite <- (wrap_dec HEIGHT y Hy), <- (wrap_inc HEIGHT y Hy).
  rewrite (wrap_same WIDTH x Hx), (wrap_same HEIGHT y Hy).
  destruct (Z.eqb_spec x 0); destruct (Z.eqb_spec x (WIDTH - 1));
    destruct (Z.eqb_spec y 0); destruct (Z.eqb_spec y (HEIGHT - 1));
    rewrite ?WIDTH_eq, ?HEIGHT_eq in *; try lia;
    (split; [repeat (apply NoDup_cons; split; [not_in_list|]); apply NoDup_nil_2
            | not_in_list]).
Qed.

(** C1. For every cell [(x, y)] of a well-formed current grid, the count the
    transition loop computes is the sum of the alive flags over the eight
    toroidally wrapped neighbours, which are pairwise distinct and do not
    include [(x, y)] itself; the count lies in [0, 8]; it is the count the
    rule table is indexed with for the cell's next state; and at the corner
    [(0, 0)] the neighbours include [(WIDTH-1, HEIGHT-1)], [(WIDTH-1, 0)] and
    [(0, HEIGHT-1)]. *)
Theorem neighbour_count_is_torus_sum (m : sim) (x y : Z) :
  sim_ok m -> 0 <= x < WIDTH -> 0 <= y < HEIGHT ->
  neighbours (state m) (now m) x y = Some (torus_count (cur m) x y) /\
  torus_count (cur m) x y =
    sum_list_Z (map (fun p : Z * Z => alive_of (cellv (cur m) (fst p) (snd p)))
                    (torus_ring x y)) /\
  length (torus_ring x y) = 8%nat /\
  NoDup (torus_ring x y) /\ ((x, y) ∉ torus_ring x y) /\
  0 <= torus_count (cur m) x y <= 8 /\
  (exists m' lc out,
      transition m = Some (m', lc, out) /\
      cellv (nxt m') x y = next_of (cellv (cur m) x y) (torus_count (cur m) x y)) /\
  torus_ring 0 0 =
    [(WIDTH - 1, HEIGHT - 1); (0, HEIGHT - 1); (1, HEIGHT - 1);
     (WIDTH - 1, 0);                           (1, 0);
     (WIDTH - 1, 1);          (0, 1);          (1, 1)].
Proof.
  intros Hok Hx Hy.
  destruct (sim_ok_bufs m Hok) as [Ec [_ [Hgc _]]].
  destruct (torus_ring_distinct x y Hx Hy) as [Hnd Hself].
  split; [exact (neighbours_spec _ _ x y _ Ec Hgc Hx Hy)|].
  split; [reflexivity|]. split; [reflexivity|].
  split; [exact Hnd|]. split; [exact Hself|].
  split; [apply torus_count_bounds|]. split; [|reflexivity].
  eexists _, _, _. split; [exact (transition_spec m Hok)|].
  rewrite (proj1 (nxt_insert m _ Hok)). now apply next_grid_cell.
Qed.

Lemma neighbour_count_is_torus_sum_witness :
  sim_ok init /\ 0 <= 0 < WIDTH /\ 0 <= 0 < HEIGHT /\
  neighbours (state init) (now init) 0 0 = Some (torus_count (cur init) 0 0).
Proof.
  assert (H1 : sim_ok init) by (apply sim_okb_sound; vm_compute; reflexivity).
  assert (H2 : 0 <= 0 < WIDTH) by (unfold WIDTH; lia).
  assert (H3 : 0 <= 0 < HEIGHT) by (unfold HEIGHT; lia).
  split; [exact H1|]. split; [exact H2|]. split; [exact H3|].
  exact (proj1 (neighbour_count_is_torus_sum init 0 0 H1 H2 H3)).
Defined.

(** ** Stamping a shape *)

Lemma string_get_lt (s : string) (n : nat) :
  (n < String.length s)%nat -> exists c, String.get n s = Some c.
Proof.
  revert n. induction s as [|c s IH]; intros n Hn; cbn in Hn; [lia|].
  destruct n as [|n]; cbn; [now exists c|]. apply IH. lia.
Qed.

Lemma char_at_in_range (s : string) (i : Z) :
  0 <= i <= Z.of_nat (String.length s) -> exists c, char_at s i = Some c.
Proof.
  intros Hi. unfold char_at. destruct (Z.leb_spec 0 i); [|lia].
  destruct (String.get (Z.to_nat i) s) as [c|] eqn:E; [now exists c|].
  destruct (Z.eqb_spec i (Z.of_nat (String.length s))) as [_|Hne];
    [now eexists|].
  destruct (string_get_lt s (Z.to_nat i)) as [c Ec]; [lia | congruence].
Qed.

Lemma covers_marked (sd : shape) (px py a b : Z) :
  covers sd px py a b = true <-> marked sd px py (height sd) 0 a b.
Proof.
  unfold covers, marked.
  rewrite !andb_true_iff, !Z.leb_le, !Z.ltb_lt. intuition lia.
Qed.

Section Stamp.

(** The state the call starts from, the shape and its origin, and the
    writes logged before. *)
Variables (m0 : sim) (sd : shape) (px py : Z) (ws0 : list (Z * Z)).
Hypothesis Hok : sim_ok m0.
Hypothesis Hwf : shape_wf sd.
Hypothesis Hfit : fits sd px py.

Lemma stamp_cell_step (x y : Z) (a : sim * Z * list (Z * Z)) :
  0 <= y < height sd -> 0 <= x < width sd ->
  st_inv m0 sd px py ws0 y x a ->
  exists a', stamp_cell sd px py x y a = Some a' /\
             st_inv m0 sd px py ws0 y (x + 1) a'.
Proof.
  intros Hy Hx.
  pose proof Hwf as [Hw [Hh Hlen]]. pose proof Hfit as [Hpx [Hpw [Hpy Hph]]].
  destruct a as [[m i] ws].
  intros [Hnow [Hnext [[gc [Est [Hdc Hcells]]] [Hi Hws]]]].
  destruct (sim_ok_bufs m0 Hok) as [Ec [En [Hgc [Hgn [Hne [Hnr [Hxr Hl2]]]]]]].
  assert (Ecur : idx (state m) (now m) = Some gc).
  { rewrite Est, Hnow. apply idx_insert_same. lia. }
  destruct (char_at_in_range (shape_ sd) i) as [c Ech]; [subst i; nia|].
  assert (Hmask : mask_at sd x y = Ascii.eqb c "1"%char).
  { unfold mask_at. rewrite <- Hi, Ech. reflexivity. }
  unfold stamp_cell. rewrite Ech. cbn [bind].
  destruct (Ascii.eqb c "1"%char) eqn:Eone.
  - destruct (set_spec (state m) (now m) (px + x) (py + y) 2 gc Ecur Hdc)
      as [gc' [Eset [Hdc' Hcells']]]; [lia | lia |].
    rewrite Eset. cbn [bind]. eexists. split; [reflexivity|].
    cbn [st_inv now next state]. split; [exact Hnow|]. split; [exact Hnext|].
    split; [|split].
    + exists gc'. split; [|split].
      * rewrite Hnow, Est. apply list_insert_insert_eq.
      * exact Hdc'.
      * intros a b. rewrite Hcells'. unfold marked in *.
        destruct (Z.eqb_spec a (px + x)) as [->|Hna];
          destruct (Z.eqb_spec b (py + y)) as [->|Hnb]; cbn [andb].
        -- split; [reflexivity|]. intros Hnm. exfalso. apply Hnm.
           replace (px + x - px) with x by lia.
           replace (py + y - py) with y by lia.
           repeat split; try lia. exact Hmask.
        -- destruct (Hcells (px + x) b) as [H1 H2].
           split; intros H; [apply H1 | apply H2; intros H'; apply H];
             intuition lia.
        -- destruct (Hcells a (py + y)) as [H1 H2].
           split; intros H; [apply H1 | apply H2; intros H'; apply H];
             intuition lia.
        -- destruct (Hcells a b) as [H1 H2].
           split; intros H; [apply H1 | apply H2; intros H'; apply H];
             intuition lia.
    + lia.
    + rewrite to_nat_succ by lia. cbn [row_marks].
      rewrite Z2Nat.id by lia. rewrite Hmask. cbn [app]. now rewrite Hws.
  - eexists. split; [reflexivity|].
    cbn [st_inv]. split; [exact Hnow|]. split; [exact Hnext|].
    split; [|split].
    + exists gc. split; [exact Est|]. split; [exact Hdc|].
      intros a b. unfold marked in *. destruct (Hcells a b) as [H1 H2].
      split; intros H.
      * apply H1. destruct H as [Ha [Hb [[Hlt|[Heq Hlt]] Hm]]];
          repeat split; try lia; try assumption.
        destruct (Z.eq_dec (a - px) x) as [Hax|Hax]; [|right; lia].
        exfalso. rewrite Hax, Heq in Hm. congruence.
      * apply H2. intros H'. apply H.
        destruct H' as [Ha [Hb [[Hlt|[Heq Hlt]] Hm]]];
          repeat split; try lia; try assumption.
    + lia.
    + rewrite to_nat_succ by lia. cbn [row_marks].
      rewrite Z2Nat.id by lia. rewrite Hmask. cbn [app]. exact Hws.
Qed.

Lemma stamp_row_step (y : Z) (a : sim * Z * list (Z * Z)) :
  0 <= y < height sd ->
  st_inv m0 sd px py ws0 y 0 a ->
  exists a', for_upto (width sd) (fun x => stamp_cell sd px py x y) a = Some a' /\
             st_inv m0 sd px py ws0 (y + 1) 0 a'.
Proof.
  intros Hy H0.
  destruct (for_upto_inv (st_inv m0 sd px py ws0 y)
              (fun x => stamp_cell sd px py x y) (width sd) a) as [a' [E Hinv]].
  - apply Hwf.
  - exact H0.
  - intros x s Hx. now apply stamp_cell_step.
  - exists a'. split; [exact E|].
    destruct a' as [[m i] ws].
    destruct Hinv as [Hnow [Hnext [[gc [Est [Hdc Hcells]]] [Hi Hws]]]].
    split; [exact Hnow|]. split; [exact Hnext|]. split; [|split].
    + exists gc. split; [exact Est|]. split; [exact Hdc|].
      intros u v. destruct (Hcells u v) as [H1 H2]. unfold marked in *.
      split; intros H; [apply H1 | apply H2; intros H'; apply H]; intuition lia.
    + lia.
    + rewrite to_nat_succ by lia. cbn [shape_marks].
      rewrite Z2Nat.id by lia. change (Z.to_nat 0) with O. cbn [row_marks app].
      rewrite Hws. now rewrite app_assoc.
Qed.

(** Stamping a shape that fits always succeeds; it sets the covered cells
    of the current buffer to 2 and logs them. *)
Lemma stamp_spec :
  exists gc,
    stamp sd px py m0 ws0 =
      Some (Sim (<[Z.to_nat (now m0) := gc]> (state m0)) (now m0) (next m0),
            shape_marks sd px py (Z.to_nat (height sd)) ++ ws0) /\
    dims gc /\
    forall a b, cellv gc a b = if covers sd px py a b then 2 else cellv (cur m0) a b.
Proof.
  destruct (sim_ok_bufs m0 Hok) as [Ec [En [Hgc [Hgn [Hne [Hnr [Hxr Hl2]]]]]]].
  destruct (for_upto_inv (fun y => st_inv m0 sd px py ws0 y 0)
              (fun y => for_upto (width sd) (fun x => stamp_cell sd px py x y))
              (height sd) (m0, 0, ws0)) as [a' [E Hinv]].
  - apply Hwf.
  - split; [reflexivity|]. split; [reflexivity|]. split; [|split].
    + exists (cur m0). split; [|split].
      * symmetry. apply list_insert_id. now apply idx_Some in Ec.
      * apply Hgc.
      * intros a b. unfold marked. split; [intros H; lia | reflexivity].
    + lia.
    + reflexivity.
  - intros y s Hy. now apply stamp_row_step.
  - destruct a' as [[m' i] ws'].
    destruct Hinv as [Hnow [Hnext [[gc [Est [Hdc Hcells]]] [Hi Hws]]]].
    exists gc. split; [|split].
    + unfold stamp. rewrite E. cbn [bind]. f_equal.
      destruct m' as [st' now' next']. cbn in Hnow, Hnext, Est. subst.
      reflexivity.
    + exact Hdc.
    + intros a b. destruct (Hcells a b) as [H1 H2].
      destruct (covers sd px py a b) eqn:Ecov.
      * apply H1. now apply covers_marked.
      * apply H2. intros H. apply covers_marked in H. congruence.
Qed.

End Stamp.

Lemma sim_ok_insert (m : sim) (g : grid) (b : Z) :
  sim_ok m -> grid_ok g -> 0 <= b < 2 ->
  sim_ok (Sim (<[Z.to_nat b := g]> (state m)) (now m) (next m)).
Proof.
  intros [g0 [g1 [Es [H0 [H1 Hr]]]]] Hg Hb. rewrite Es.
  assert (Hb' : b = 0 \/ b = 1) by lia. destruct Hb' as [-> | ->].
  - exists g, g1. cbn. auto.
  - exists g0, g. cbn. auto.
Qed.

Lemma marks_covers (sd : shape) (px py a b : Z) :
  0 <= width sd -> 0 <= height sd ->
  (a, b) ∈ shape_marks sd px py (Z.to_nat (height sd)) <->
  covers sd px py a b = true.
Proof.
  intros Hw Hh. rewrite covers_marked.
  assert (Hrow : forall y n, Z.of_nat n <= width sd ->
            ((a, b) ∈ row_marks sd px py y n <->
             0 <= a - px < Z.of_nat n /\ b - py = y /\
             mask_at sd (a - px) (b - py) = true)).
  { intros y n. induction n as [|k IH]; intros Hk.
    - cbn. rewrite elem_of_nil. lia.
    - cbn [row_marks]. rewrite elem_of_app, IH by lia.
      destruct (mask_at sd (Z.of_nat k) y) eqn:Em.
      + rewrite list_elem_of_singleton. split.
        * intros [H|H]; [injection H as -> ->|].
          -- replace (px + Z.of_nat k - px) with (Z.of_nat k) by lia.
             replace (py + y - py) with y by lia. repeat split; try lia. exact Em.
          -- intuition lia.
        * intros [Ha [Hb Hm]].
          destruct (Z.eq_dec (a - px) (Z.of_nat k)) as [He|He].
          -- left. f_equal; lia.
          -- right. repeat split; try lia. exact Hm.
      + rewrite elem_of_nil. split.
        * intros [[]|H]. intuition lia.
        * intros [Ha [Hb Hm]]. right.
          destruct (Z.eq_dec (a - px) (Z.of_nat k)) as [He|He].
          -- rewrite He, Hb in Hm. congruence.
          -- repeat split; try lia. exact Hm. }
  assert (Hall : forall rows, Z.of_nat rows <= height sd ->
            ((a, b) ∈ shape_marks sd px py rows <->
             marked sd px py (Z.of_nat rows) 0 a b)).
  { induction rows as [|k IH]; intros Hk.
    - cbn. rewrite elem_of_nil. unfold marked. lia.
    - cbn [shape_marks]. rewrite elem_of_app, IH by lia.
      rewrite Hrow by lia. unfold marked. rewrite Z2Nat.id by lia.
      rewrite Nat2Z.inj_succ. split.
      * intros [[Ha [Hb Hm]]|[Ha [Hb [Hc Hm]]]];
          (split; [lia|]); (split; [lia|]); (split; [lia | assumption]).
      * intros [Ha [Hb [Hc Hm]]]. destruct (Z.eq_dec (b - py) (Z.of_nat k)).
        -- left. split; [lia|]. split; [lia | assumption].
        -- right. split; [lia|]. split; [lia|]. split; [lia | assumption]. }
  rewrite Hall by lia. now rewrite Z2Nat.id by lia.
Qed.

(** ** Seeding *)

Lemma cur_insert (m : sim) (g : grid) :
  sim_ok m ->
  cur (Sim (<[Z.to_nat (now m) := g]> (state m)) (now m) (next m)) = g /\
  nxt (Sim (<[Z.to_nat (now m) := g]> (state m)) (now m) (next m)) = nxt m.
Proof.
  intros Hok.
  destruct (sim_ok_bufs m Hok) as [Ec [En [Hgc [Hgn [Hne [Hnr [Hxr Hlen]]]]]]].
  unfold nxt, cur. cbn [state now next]. split.
  - now rewrite idx_insert_same by lia.
  - now rewrite idx_insert_other by lia.
Qed.

Lemma valid_state_2 : valid_state 2.
Proof. unfold valid_state. cbn. lia. Qed.

Lemma lib_fits_lookup (lib : list shape) (s px py : Z) :
  lib_fits lib -> 0 <= s < Z.of_nat (length lib) ->
  10 <= px < WIDTH - 10 -> 10 <= py < HEIGHT - 10 ->
  exists sd, idx lib s = Some sd /\ shape_wf sd /\ fits sd px py.
Proof.
  intros Hlib Hs Hpx Hpy.
  destruct (idx_in_range lib s Hs) as [sd Esd]. exists sd.
  split; [exact Esd|].
  apply idx_Some in Esd as [_ Esd].
  unfold lib_fits in Hlib. rewrite Forall_lookup in Hlib.
  destruct (Hlib _ _ Esd) as [Hwf [Hw Hh]].
  split; [exact Hwf|]. unfold fits. lia.
Qed.

Lemma seed_rounds (lib : list shape) :
  lib_fits lib ->
  forall (cnt : nat) (lo : Z) (m : sim) (rnd : list Z) (ws : list (Z * Z)),
    sim_ok m -> draws_ok lib cnt rnd ->
    exists m',
      for_ lo cnt (fun _ => seed_once lib) (m, rnd, ws) =
        Some (m', drop (3 * cnt) rnd, seed_marks lib cnt rnd ++ ws) /\
      sim_ok m' /\ now m' = now m /\ next m' = next m /\ nxt m' = nxt m /\
      forall a b, cellv (cur m') a b =
                  if seeded lib cnt rnd a b then 2 else cellv (cur m) a b.
Proof.
  intros Hlib. induction cnt as [|k IH]; intros lo m rnd ws Hok Hdr.
  - exists m. cbn. repeat split; try reflexivity; assumption.
  - destruct rnd as [|px [|py [|s rest]]]; try contradiction.
    destruct Hdr as [Hpx [Hpy [Hs Hrest]]].
    destruct (lib_fits_lookup lib s px py Hlib Hs Hpx Hpy) as [sd [Esd [Hwf Hfit]]].
    destruct (stamp_spec m sd px py ws Hok Hwf Hfit) as [gc [Est [Hdc Hcells]]].
    set (m1 := Sim (<[Z.to_nat (now m) := gc]> (state m)) (now m) (next m)) in *.
    destruct (sim_ok_bufs m Hok) as [Ec [En [Hgc [Hgn [Hne [Hnr [Hxr Hlen]]]]]]].
    assert (Hok1 : sim_ok m1).
    { apply sim_ok_insert; [exact Hok | | lia]. split; [exact Hdc|].
      intros x y Hx Hy. rewrite Hcells.
      destruct (covers sd px py x y); [apply valid_state_2 | now apply Hgc]. }
    destruct (cur_insert m gc Hok) as [Ecur1 Enxt1]. fold m1 in Ecur1, Enxt1.
    destruct (IH (lo + 1) m1 rest (shape_marks sd px py (Z.to_nat (height sd)) ++ ws)
                Hok1 Hrest) as [m' [E [Hok' [Hnow' [Hnext' [Hnxt' Hcells']]]]]].
    exists m'. split; [|repeat split].
    + cbn [for_ seed_once random bind]. rewrite Esd. cbn [bind].
      rewrite Est. cbn [bind]. rewrite E. f_equal. f_equal; [f_equal|].
      * replace (3 * Datatypes.S k)%nat with (3 + 3 * k)%nat by lia. reflexivity.
      * cbn [seed_marks]. rewrite Esd. now rewrite app_assoc.
    + exact Hok'.
    + exact Hnow'.
    + exact Hnext'.
    + now rewrite Hnxt'.
    + intros a b. rewrite Hcells'. cbn [seeded]. rewrite Esd, Ecur1, Hcells.
      destruct (covers sd px py a b), (seeded lib k rest a b); reflexivity.
Qed.

Lemma seed_marks_seeded (lib : list shape) (a b : Z) :
  Forall (fun sd => 0 <= width sd /\ 0 <= height sd) lib ->
  forall (n : nat) (rnd : list Z),
    (a, b) ∈ seed_marks lib n rnd <-> seeded lib n rnd a b = true.
Proof.
  intros Hlib. induction n as [|k IH]; intros rnd.
  - cbn. rewrite elem_of_nil. split; [tauto | discriminate].
  - destruct rnd as [|px [|py [|s rest]]]; cbn [seed_marks seeded];
      try (rewrite elem_of_nil; split; [tauto | discriminate]).
    rewrite elem_of_app, IH, orb_true_iff.
    destruct (idx lib s) as [sd|] eqn:Esd.
    + apply idx_Some in Esd as [_ Esd]. rewrite Forall_lookup in Hlib.
      destruct (Hlib _ _ Esd) as [Hw Hh]. rewrite marks_covers by assumption.
      tauto.
    + rewrite elem_of_nil. intuition discriminate.
Qed.

(** ** Sums over index ranges and the activity of a grid *)

Lemma sum_upto_ext (f g : Z -> Z) (n : nat) :
  (forall i, 0 <= i < Z.of_nat n -> f i = g i) -> sum_upto f n = sum_upto g n.
Proof.
  induction n as [|k IH]; intros H; [reflexivity|].
  cbn [sum_upto]. rewrite IH by (intros i Hi; apply H; lia).
  rewrite H by lia. reflexivity.
Qed.

Lemma sum_upto_add (f g : Z -> Z) (n : nat) :
  sum_upto (fun i => f i + g i) n = sum_upto f n + sum_upto g n.
Proof. induction n as [|k IH]; cbn [sum_upto]; lia. Qed.

Lemma sum_upto_zero (n : nat) : sum_upto (fun _ => 0) n = 0.
Proof. induction n as [|k IH]; cbn [sum_upto]; lia. Qed.

Lemma sum_upto_swap (F : Z -> Z -> Z) (n k : nat) :
  sum_upto (fun y => sum_upto (fun x => F x y) n) k =
  sum_upto (fun x => sum_upto (fun y => F x y) k) n.
Proof.
  induction k as [|j IH]; cbn [sum_upto].
  - now rewrite sum_upto_zero.
  - now rewrite sum_upto_add, IH.
Qed.

(** The indicator of a single index sums to one. *)
Lemma sum_upto_point (a : Z) (n : nat) :
  0 <= a ->
  sum_upto (fun i => if i =? a then 1 else 0) n = if a <? Z.of_nat n then 1 else 0.
Proof.
  intros Ha. induction n as [|k IH]; cbn [sum_upto].
  - destruct (Z.ltb_spec a (Z.of_nat 0)); [lia | reflexivity].
  - rewrite IH.
    destruct (Z.ltb_spec a (Z.of_nat k)); destruct (Z.eqb_spec (Z.of_nat k) a);
      destruct (Z.ltb_spec a (Z.of_nat (Datatypes.S k))); lia.
Qed.

Lemma idx_app_l {A : Type} (l1 l2 : list A) (i : Z) :
  i < Z.of_nat (length l1) -> idx (l1 ++ l2) i = idx l1 i.
Proof.
  intros Hi. unfold idx. destruct (Z.leb_spec 0 i); [|reflexivity].
  apply lookup_app_l. lia.
Qed.

Lemma idx_app_last {A : Type} (l : list A) (x : A) :
  idx (l ++ [x]) (Z.of_nat (length l)) = Some x.
Proof.
  apply idx_Some. split; [lia|]. rewrite Nat2Z.id.
  rewrite lookup_app_r by lia. now rewrite Nat.sub_diag.
Qed.

Lemma count_column (p : Z -> bool) (c : list Z) :
  Z.of_nat (length (List.filter p c)) =
  sum_upto (fun y => if p (default 0 (idx c y)) then 1 else 0) (length c).
Proof.
  induction c as [|v c IH] using rev_ind; [reflexivity|].
  rewrite List.filter_app, !length_app, Nat.add_1_r. cbn [sum_upto].
  rewrite idx_app_last. change (default 0 (Some v)) with v. cbn [List.filter].
  rewrite Nat2Z.inj_add.
  rewrite (sum_upto_ext _ (fun y => if p (default 0 (idx c y)) then 1 else 0)).
  - rewrite IH. destruct (p v); reflexivity.
  - intros i Hi. now rewrite idx_app_l by lia.
Qed.

Lemma count_grid (p : Z -> bool) (h : nat) (g : grid) :
  Forall (fun c : list Z => length c = h) g ->
  Z.of_nat (length (List.filter p (concat g))) =
  sum_upto (fun x => sum_upto (fun y => if p (cellv g x y) then 1 else 0) h)
           (length g).
Proof.
  induction g as [|c g IH] using rev_ind; intros Hh; [reflexivity|].
  apply Forall_app in Hh as [Hg Hc]. rewrite Forall_singleton in Hc.
  rewrite concat_app, List.filter_app, !length_app, Nat.add_1_r.
  cbn [sum_upto concat]. rewrite app_nil_r, Nat2Z.inj_add, IH by exact Hg.
  f_equal.
  - apply sum_upto_ext. intros x Hx. apply sum_upto_ext. intros y Hy.
    unfold cellv. now rewrite idx_app_l by lia.
  - rewrite count_column, Hc. apply sum_upto_ext. intros y Hy.
    unfold cellv. rewrite idx_app_last. reflexivity.
Qed.

Lemma activity_sum (g : grid) :
  dims g ->
  activity g =
  sum_upto (fun x => sum_upto (fun y => alive_of (cellv g x y)) (Z.to_nat HEIGHT))
           (Z.to_nat WIDTH).
Proof.
  intros [Hw Hh]. unfold activity.
  rewrite (count_grid _ (Z.to_nat HEIGHT)).
  - replace (length g) with (Z.to_nat WIDTH) by lia.
    apply sum_upto_ext. intros x Hx. apply sum_upto_ext. intros y Hy.
    destruct (alive_of_bit (cellv g x y)) as [E|E]; rewrite E; reflexivity.
  - eapply Forall_impl; [exact Hh|]. cbn. intros c Hc. lia.
Qed.

(** The accumulator of the transition loops is the activity of the grid they
    produce. *)
Lemma lc_of_activity (g : grid) : lc_of g = activity (next_grid g).
Proof.
  rewrite (activity_sum _ (next_grid_dims g)). unfold lc_of, row_sum.
  rewrite sum_upto_swap.
  apply sum_upto_ext. intros x Hx. apply sum_upto_ext. intros y Hy.
  now rewrite next_grid_cell by lia.
Qed.

(** A grid whose live cells are exactly the points of a duplicate-free list
    has as many live cells as the list has points. *)
Lemma activity_points (g : grid) (ws : list (Z * Z)) :
  dims g -> NoDup ws ->
  Forall (fun p => 0 <= fst p < WIDTH /\ 0 <= snd p < HEIGHT) ws ->
  (forall x y, 0 <= x < WIDTH -> 0 <= y < HEIGHT ->
     alive_of (cellv g x y) = if bool_decide ((x, y) ∈ ws) then 1 else 0) ->
  activity g = Z.of_nat (length ws).
Proof.
  intros Hd Hnd Hin Hcells. rewrite (activity_sum g Hd).
  rewrite (sum_upto_ext _
    (fun x => sum_upto (fun y => if bool_decide ((x, y) ∈ ws) then 1 else 0)
                       (Z.to_nat HEIGHT))).
  2:{ intros x Hx. apply sum_upto_ext. intros y Hy. apply Hcells; lia. }
  clear Hcells Hd g. induction ws as [|[a b] ws IH].
  - cbn [length]. rewrite (sum_upto_ext _ (fun _ => 0)).
    + apply sum_upto_zero.
    + intros x _. rewrite (sum_upto_ext _ (fun _ => 0)); [apply sum_upto_zero|].
      intros y _. rewrite bool_decide_eq_false_2; [reflexivity | apply not_elem_of_nil].
  - apply NoDup_cons in Hnd as [Hnotin Hnd].
    apply Forall_cons in Hin as [[Ha Hb] Hin]. cbn [fst snd] in Ha, Hb.
    rewrite (sum_upto_ext _
      (fun x => sum_upto (fun y => (if y =? b then if x =? a then 1 else 0 else 0)) (Z.to_nat HEIGHT)
              + sum_upto (fun y => if bool_decide ((x, y) ∈ ws) then 1 else 0)
                         (Z.to_nat HEIGHT))).
    + rewrite sum_upto_add, (IH Hnd Hin).
      rewrite (sum_upto_ext _ (fun x => if x =? a then 1 else 0)).
      * rewrite sum_upto_point by lia.
        destruct (Z.ltb_spec a (Z.of_nat (Z.to_nat WIDTH))); cbn [length]; lia.
      * intros x Hx. destruct (Z.eqb_spec x a) as [->|Hne].
        -- rewrite sum_upto_point by lia.
           destruct (Z.ltb_spec b (Z.of_nat (Z.to_nat HEIGHT))); lia.
        -- rewrite (sum_upto_ext _ (fun _ => 0)); [apply sum_upto_zero|].
           intros y _. now destruct (y =? b).
    + intros x Hx. rewrite <- sum_upto_add. apply sum_upto_ext. intros y Hy.
      destruct (Z.eqb_spec y b) as [->|Hny]; [destruct (Z.eqb_spec x a) as [->|Hnx]|].
      * rewrite bool_decide_eq_true_2 by apply list_elem_of_here.
        rewrite bool_decide_eq_false_2 by exact Hnotin. reflexivity.
      * destruct (bool_decide ((x, b) ∈ ws)) eqn:E.
        -- rewrite bool_decide_eq_true_2; [reflexivity|].
           apply list_elem_of_further. now apply bool_decide_eq_true in E.
        -- rewrite bool_decide_eq_false_2; [reflexivity|].
           apply bool_decide_eq_false in E. rewrite elem_of_cons.
           intros [H|H]; [congruence | contradiction].
      * destruct (bool_decide ((x, y) ∈ ws)) eqn:E.
        -- rewrite bool_decide_eq_true_2; [reflexivity|].
           apply list_elem_of_further. now apply bool_decide_eq_true in E.
        -- rewrite bool_decide_eq_false_2; [reflexivity|].
           apply bool_decide_eq_false in E. rewrite elem_of_cons.
           intros [H|H]; [congruence | contradiction].
Qed.

(** ** The shipped shape library *)

Lemma seeds_extent :
  Forall (fun sd => width sd <= 8 /\ height sd <= 5 /\
                    width sd * height sd = Z.of_nat (String.length (shape_ sd)))
         seeds.
Proof.
  unfold seeds.
  repeat (apply Forall_cons_2; [vm_compute; intuition congruence|]).
  apply Forall_nil_2.
Qed.

Lemma seeds_fit : lib_fits seeds.
Proof.
  unfold lib_fits, seeds.
  repeat (apply Forall_cons_2; [vm_compute; intuition congruence|]).
  apply Forall_nil_2.
Qed.

Lemma lib_fits_nonneg (lib : list shape) :
  lib_fits lib -> Forall (fun sd => 0 <= width sd /\ 0 <= height sd) lib.
Proof.
  intros H. eapply Forall_impl; [exact H|].
  intros sd [[Hw [Hh _]] _]. split; assumption.
Qed.

Lemma seeded_in_grid (lib : list shape) (a b : Z) :
  lib_fits lib ->
  forall (n : nat) (rnd : list Z),
    draws_ok lib n rnd -> seeded lib n rnd a b = true ->
    0 <= a < WIDTH /\ 0 <= b < HEIGHT.
Proof.
  intros Hlib. induction n as [|k IH]; intros rnd Hdr Hs; [discriminate|].
  destruct rnd as [|px [|py [|s rest]]]; try contradiction.
  destruct Hdr as [Hpx [Hpy [Hsr Hrest]]].
  cbn [seeded] in Hs. apply orb_true_iff in Hs as [Hs|Hs]; [|exact (IH _ Hrest Hs)].
  destruct (lib_fits_lookup lib s px py Hlib Hsr Hpx Hpy)
    as [sd [Esd [_ [Hf1 [Hf2 [Hf3 Hf4]]]]]].
  rewrite Esd in Hs. unfold covers in Hs.
  rewrite !andb_true_iff, !Z.leb_le, !Z.ltb_lt in Hs. lia.
Qed.

Lemma seed_spec (n : Z) (m : sim) (rnd : list Z) :
  sim_ok m -> draws_ok seeds (Z.to_nat n) rnd ->
  exists m',
    seed n m rnd =
      Some (m', drop (3 * Z.to_nat n) rnd, seed_marks seeds (Z.to_nat n) rnd) /\
    sim_ok m' /\ now m' = now m /\ next m' = next m /\ nxt m' = nxt m /\
    forall a b, cellv (cur m') a b =
                if seeded seeds (Z.to_nat n) rnd a b then 2 else cellv (cur m) a b.
Proof.
  intros Hok Hdr.
  destruct (seed_rounds seeds seeds_fit (Z.to_nat n) 0 m rnd [] Hok Hdr)
    as [m' [E H]].
  exists m'. split; [|exact H].
  unfold seed, seed_with, for_upto. rewrite E. now rewrite app_nil_r.
Qed.

(** C5. With the origin drawn from [10, WIDTH-10) x [10, HEIGHT-10) and the
    shape drawn from the selection list, whose shapes extend at most 8 x 5,
    [seed(n)] performs no write outside the grid: the call returns, and every
    index it wrote satisfies 0 <= px+x < WIDTH and 0 <= py+y < HEIGHT, for
    WIDTH = 128 and HEIGHT = 64.  This holds for every [n], in particular
    for [n >= 1]. *)
Theorem seed_writes_in_bounds (n : Z) (m : sim) (rnd : list Z) :
  sim_ok m -> draws_ok seeds (Z.to_nat n) rnd ->
  WIDTH = 128 /\ HEIGHT = 64 /\
  Forall (fun sd => width sd <= 8 /\ height sd <= 5) seeds /\
  exists m' rnd' ws,
    seed n m rnd = Some (m', rnd', ws) /\
    ws = seed_marks seeds (Z.to_nat n) rnd /\
    Forall (fun p => 0 <= fst p < WIDTH /\ 0 <= snd p < HEIGHT) ws.
Proof.
  intros Hok Hdr. split; [reflexivity|]. split; [reflexivity|]. split.
  - eapply Forall_impl; [exact seeds_extent|]. cbn. intros sd H. tauto.
  - destruct (seed_spec n m rnd Hok Hdr) as [m' [E _]].
    eexists _, _, _. split; [exact E|]. split; [reflexivity|].
    apply Forall_forall. intros [a b] Hin. cbn [fst snd].
    apply (seed_marks_seeded seeds a b (lib_fits_nonneg _ seeds_fit)) in Hin.
    exact (seeded_in_grid seeds a b seeds_fit _ _ Hdr Hin).
Qed.

Lemma seed_writes_in_bounds_witness :
  sim_ok init /\ draws_ok seeds (Z.to_nat 2) [117; 53; 6; 10; 10; 9] /\
  exists m' rnd' ws,
    seed 2 init [117; 53; 6; 10; 10; 9] = Some (m', rnd', ws) /\
    ws = seed_marks seeds (Z.to_nat 2) [117; 53; 6; 10; 10; 9] /\
    Forall (fun p => 0 <= fst p < WIDTH /\ 0 <= snd p < HEIGHT) ws.
Proof.
  assert (H1 : sim_ok init) by (apply sim_okb_sound; vm_compute; reflexivity).
  assert (H2 : draws_ok seeds (Z.to_nat 2) [117; 53; 6; 10; 10; 9])
    by (vm_compute; intuition congruence).
  split; [exact H1|]. split; [exact H2|].
  exact (proj2 (proj2 (proj2 (seed_writes_in_bounds 2 init _ H1 H2)))).
Defined.

(** C6. [seed(n)] changes only cells of the current buffer that lie under a
    true mask cell of one of the [n] shapes at its drawn origin, and sets
    each of them to 2, the Survived state (Born is 1); every other cell of
    the current buffer, the whole next buffer and the roles [now] and [next]
    are unchanged.  The cells written are exactly the covered ones. *)
Theorem seed_frame (n : Z) (m : sim) (rnd : list Z) :
  sim_ok m -> draws_ok seeds (Z.to_nat n) rnd ->
  exists m' rnd' ws,
    seed n m rnd = Some (m', rnd', ws) /\
    (forall a b, (a, b) ∈ ws <-> seeded seeds (Z.to_nat n) rnd a b = true) /\
    (forall a b, cellv (cur m') a b =
                 if seeded seeds (Z.to_nat n) rnd a b then 2 else cellv (cur m) a b) /\
    dims (cur m') /\
    nxt m' = nxt m /\ now m' = now m /\ next m' = next m /\
    colour_of 2 = GREEN /\ colour_of 1 = DARK_BLUE.
Proof.
  intros Hok Hdr.
  destruct (seed_spec n m rnd Hok Hdr) as [m' [E [Hok' [Hnow [Hnext [Hnxt Hcells]]]]]].
  eexists _, _, _. split; [exact E|].
  split; [intros a b; apply seed_marks_seeded, lib_fits_nonneg, seeds_fit|].
  split; [exact Hcells|].
  split; [apply (sim_ok_bufs m' Hok')|].
  repeat split; assumption.
Qed.

Lemma seed_frame_witness :
  sim_ok init /\ draws_ok seeds (Z.to_nat 1) [20; 30; 4] /\
  exists m' rnd' ws,
    seed 1 init [20; 30; 4] = Some (m', rnd', ws) /\
    (forall a b, (a, b) ∈ ws <-> seeded seeds (Z.to_nat 1) [20; 30; 4] a b = true).
Proof.
  assert (H1 : sim_ok init) by (apply sim_okb_sound; vm_compute; reflexivity).
  assert (H2 : draws_ok seeds (Z.to_nat 1) [20; 30; 4])
    by (vm_compute; intuition congruence).
  split; [exact H1|]. split; [exact H2|].
  destruct (seed_frame 1 init [20; 30; 4] H1 H2) as [m' [rnd' [ws [E [Hw _]]]]].
  exists m', rnd', ws. split; assumption.
Defined.

(** ** Seeding DIEHARD on the empty grid *)

Lemma cellv_dead (a b : Z) : cellv dead_grid a b = 0.
Proof.
  unfold cellv, dead_grid, idx.
  destruct (0 <=? a); [|reflexivity].
  destruct (replicate (Z.to_nat WIDTH) (replicate (Z.to_nat HEIGHT) 0)
              !! Z.to_nat a) as [c|] eqn:Ec; [|reflexivity].
  apply lookup_replicate in Ec as [-> _]. cbn [bind].
  destruct (0 <=? b); [|reflexivity].
  destruct (replicate (Z.to_nat HEIGHT) 0 !! Z.to_nat b) as [v|] eqn:Ev;
    [|reflexivity].
  now apply lookup_replicate in Ev as [-> _].
Qed.

Lemma cur_init : cur init = dead_grid.
Proof. reflexivity. Qed.

Lemma activity_init : activity (cur init) = 0.
Proof.
  rewrite (activity_points (cur init) []).
  - reflexivity.
  - apply (sim_ok_bufs init sim_ok_init).
  - apply NoDup_nil_2.
  - apply Forall_nil_2.
  - intros x y _ _. rewrite cur_init, cellv_dead.
    rewrite bool_decide_eq_false_2; [reflexivity | apply not_elem_of_nil].
Qed.

Lemma diehard_seed (px py s : Z) (rest : list Z) :
  10 <= px < WIDTH - 10 -> 10 <= py < HEIGHT - 10 ->
  idx seeds s = Some DIEHARD ->
  exists m',
    seed 1 init (px :: py :: s :: rest) = Some (m', rest, diehard_cells px py) /\
    sim_ok m' /\
    NoDup (diehard_cells px py) /\
    Forall (fun p => 0 <= fst p < WIDTH /\ 0 <= snd p < HEIGHT) (diehard_cells px py) /\
    (forall a b, cellv (cur m') a b =
                 if bool_decide ((a, b) ∈ diehard_cells px py) then 2 else 0) /\
    activity (cur m') = 7.
Proof.
  intros Hpx Hpy Hs.
  assert (Hdr : draws_ok seeds (Z.to_nat 1) (px :: py :: s :: rest)).
  { change (Z.to_nat 1) with 1%nat. cbn [draws_ok].
    pose proof (idx_bound _ _ _ Hs). tauto. }
  destruct (seed_spec 1 init _ sim_ok_init Hdr)
    as [m' [E [Hok' [Hnow [Hnext [Hnxt Hcells]]]]]].
  assert (Hmarks : seed_marks seeds (Z.to_nat 1) (px :: py :: s :: rest) =
                   diehard_cells px py).
  { change (Z.to_nat 1) with 1%nat. cbn [seed_marks]. rewrite Hs. reflexivity. }
  assert (Hnd : NoDup (diehard_cells px py)).
  { unfold diehard_cells.
    repeat (apply NoDup_cons; split; [not_in_list|]). apply NoDup_nil_2. }
  assert (Hin : Forall (fun p => 0 <= fst p < WIDTH /\ 0 <= snd p < HEIGHT)
                       (diehard_cells px py)).
  { unfold diehard_cells. rewrite WIDTH_eq, HEIGHT_eq in *.
    repeat (apply Forall_cons_2; [cbn [fst snd]; lia|]). apply Forall_nil_2. }
  assert (Hc : forall a b, cellv (cur m') a b =
                 if bool_decide ((a, b) ∈ diehard_cells px py) then 2 else 0).
  { intros a b. rewrite Hcells, cur_init, cellv_dead, <- Hmarks.
    pose proof (seed_marks_seeded seeds a b (lib_fits_nonneg _ seeds_fit)
                  (Z.to_nat 1) (px :: py :: s :: rest)) as Hiff.
    destruct (seeded seeds (Z.to_nat 1) (px :: py :: s :: rest) a b).
    - rewrite bool_decide_eq_true_2; [reflexivity | now apply Hiff].
    - rewrite bool_decide_eq_false_2; [reflexivity|].
      intros H. apply Hiff in H. discriminate. }
  exists m'. split; [|split; [exact Hok'|split; [exact Hnd|split; [exact Hin|split; [exact Hc|]]]]].
  - rewrite E, Hmarks. reflexivity.
  - rewrite (activity_points (cur m') (diehard_cells px py)); try assumption.
    + reflexivity.
    + apply (sim_ok_bufs m' Hok').
    + intros x y _ _. rewrite Hc.
      now destruct (bool_decide ((x, y) ∈ diehard_cells px py)).
Qed.

(** C7, as the code has it.  Starting from the all-Dead grid (activity 0),
    [seed(1)] with DIEHARD drawn at an origin inside the inset writes exactly
    the seven true cells of the 8 x 3 mask, all inside the grid; these cells
    hold 2 (Survived), every other cell stays Dead, and the activity of the
    grid is 7. *)
Theorem diehard_on_empty_grid (px py s : Z) (rest : list Z) :
  10 <= px < WIDTH - 10 -> 10 <= py < HEIGHT - 10 ->
  idx seeds s = Some DIEHARD ->
  activity (cur init) = 0 /\
  width DIEHARD = 8 /\ height DIEHARD = 3 /\
  exists m' ws,
    seed 1 init (px :: py :: s :: rest) = Some (m', rest, ws) /\
    ws = diehard_cells px py /\ length ws = 7%nat /\ NoDup ws /\
    Forall (fun p => 0 <= fst p < WIDTH /\ 0 <= snd p < HEIGHT) ws /\
    (forall a b, cellv (cur m') a b = if bool_decide ((a, b) ∈ ws) then 2 else 0) /\
    activity (cur m') = 7.
Proof.
  intros Hpx Hpy Hs.
  destruct (diehard_seed px py s rest Hpx Hpy Hs) as [m' [E [_ [Hnd [Hin [Hc Ha]]]]]].
  split; [exact activity_init|]. split; [reflexivity|]. split; [reflexivity|].
  exists m', (diehard_cells px py). repeat split; assumption.
Qed.

Lemma diehard_on_empty_grid_witness :
  10 <= 20 < WIDTH - 10 /\ 10 <= 30 < HEIGHT - 10 /\
  idx seeds 9 = Some DIEHARD /\
  exists m' ws,
    seed 1 init [20; 30; 9] = Some (m', [], ws) /\ activity (cur m') = 7.
Proof.
  assert (H1 : 10 <= 20 < WIDTH - 10) by (unfold WIDTH; lia).
  assert (H2 : 10 <= 30 < HEIGHT - 10) by (unfold HEIGHT; lia).
  assert (H3 : idx seeds 9 = Some DIEHARD) by reflexivity.
  split; [exact H1|]. split; [exact H2|]. split; [exact H3|].
  destruct (diehard_on_empty_grid 20 30 9 [] H1 H2 H3)
    as [_ [_ [_ [m' [ws [E [_ [_ [_ [_ [_ Ha]]]]]]]]]]].
  exists m', ws. split; assumption.
Defined.

(** C7 as stated fails: with DIEHARD drawn at (20, 20) on the all-Dead grid
    the seeder writes seven cells and the activity is 7, not 8. *)
Lemma diehard_activity_is_not_8 :
  idx seeds 9 = Some DIEHARD /\
  exists m' ws,
    seed 1 init [20; 20; 9] = Some (m', [], ws) /\
    length ws = 7%nat /\ activity (cur m') = 7 /\ activity (cur m') <> 8.
Proof.
  assert (H1 : 10 <= 20 < WIDTH - 10) by (unfold WIDTH; lia).
  assert (H2 : 10 <= 20 < HEIGHT - 10) by (unfold HEIGHT; lia).
  assert (H3 : idx seeds 9 = Some DIEHARD) by reflexivity.
  split; [exact H3|].
  destruct (diehard_seed 20 20 9 [] H1 H2 H3) as [m' [E [_ [_ [_ [_ Ha]]]]]].
  exists m', (diehard_cells 20 20).
  split; [exact E|]. split; [reflexivity|]. split; [exact Ha | lia].
Qed.

(** ** Well-formed states across the steps *)

Lemma sim_ok_cells (m : sim) : sim_ok m -> cells_in_table m.
Proof.
  intros [g0 [g1 [Es [H0 [H1 Hr]]]]] b x y Hb Hx Hy. rewrite Es.
  assert (Hg : exists g, idx [g0; g1] b = Some g /\ grid_ok g).
  { assert (Hb' : b = 0 \/ b = 1) by lia.
    destruct Hb' as [-> | ->]; eexists; (split; [reflexivity|]); assumption. }
  destruct Hg as [g [Eg [Hd Hv]]].
  pose proof (Hv x y Hx Hy) as Hval.
  destruct (rules_lookup _ Hval) as [r [Er _]].
  exists (cellv g x y), r. split; [|split].
  - now apply get_cellv.
  - apply valid_state_cases in Hval. lia.
  - exact Er.
Qed.

Lemma sim_ok_swap (m : sim) : sim_ok m -> sim_ok (swap m).
Proof.
  intros [g0 [g1 [Es [H0 [H1 Hr]]]]]. exists g0, g1. unfold swap. cbn [state now next].
  split; [exact Es|]. split; [exact H0|]. split; [exact H1|].
  destruct Hr as [[-> ->]|[-> ->]]; cbn; auto.
Qed.

Lemma swap_roles (m : sim) :
  sim_ok m -> cur (swap m) = nxt m /\ nxt (swap m) = cur m.
Proof.
  intros [g0 [g1 [Es [H0 [H1 Hr]]]]]. unfold cur, nxt, swap. cbn [state now next].
  destruct Hr as [[-> ->]|[-> ->]]; cbn; auto.
Qed.

Lemma transition_ok (m : sim) :
  sim_ok m ->
  exists m' out,
    transition m = Some (m', lc_of (cur m), out) /\
    out = frame_rev (cur m) (Z.to_nat HEIGHT) /\
    sim_ok m' /\ nxt m' = next_grid (cur m) /\ cur m' = cur m /\
    now m' = now m /\ next m' = next m.
Proof.
  intros Hok.
  destruct (sim_ok_bufs m Hok) as [_ [_ [Hgc [_ [_ [_ [Hxr _]]]]]]].
  destruct (nxt_insert m (next_grid (cur m)) Hok) as [En Ec].
  eexists _, _. split; [exact (transition_spec m Hok)|].
  split; [reflexivity|]. split; [|split; [exact En|split; [exact Ec|split; reflexivity]]].
  apply sim_ok_insert; [exact Hok | now apply next_grid_ok | exact Hxr].
Qed.

(** ** The cycle driver *)

Lemma threshold_value :
  Z.quot (HEIGHT * WIDTH) 25 = 327 /\ WIDTH * HEIGHT / 25 = 327.
Proof. split; reflexivity. Qed.

Lemma loop_spec (lib : list shape) (ms : Z) (m : sim) (rnd : list Z) :
  sim_ok m ->
  exists m1 out,
    transition m = Some (m1, activity (nxt m1), out) /\
    sim_ok m1 /\ nxt m1 = next_grid (cur m) /\
    loop_with lib ms m rnd =
      if activity (nxt m1) <? 327 then
        '(m3, rnd', _) <- seed_with lib 1 (swap m1) rnd ;;
        Some (m3, rnd', ShowFrame :: (if ms <? 10000 then banner out else out))
      else Some (swap m1, rnd, ShowFrame :: (if ms <? 10000 then banner out else out)).
Proof.
  intros Hok.
  destruct (transition_ok m Hok) as [m1 [out [E [_ [Hok1 [Hn _]]]]]].
  exists m1, out.
  assert (Hlc : lc_of (cur m) = activity (nxt m1))
    by (rewrite Hn; apply lc_of_activity).
  rewrite Hlc in E. split; [exact E|]. split; [exact Hok1|]. split; [exact Hn|].
  unfold loop_with. rewrite E. cbn [bind].
  rewrite (proj1 threshold_value). reflexivity.
Qed.

(** C3. In every cycle, after the transition pass and the swap, [loop] calls
    [seed(1)] exactly when the activity count of the pass, the number of
    cells of the grid just computed whose state has alive flag 1, is below
    WIDTH*HEIGHT/25 = 327.  The swap has then made the grid just computed
    the current one and the old current grid the next one ([now] and [next]
    exchanged).  When the count is below 327 the seeder is called on that
    state: it consumes three draws of the random source (with no draw left
    the call fails) and writes 2 under the drawn shape into the grid just
    computed.  Otherwise the cycle ends in the swapped state, whose current
    grid is the one the pass computed, with the random source untouched. *)
Theorem reseed_iff_low_activity (ms : Z) (m : sim) (rnd : list Z) :
  sim_ok m ->
  exists m1 out,
    transition m = Some (m1, activity (nxt m1), out) /\
    nxt m1 = next_grid (cur m) /\
    (now (swap m1) = next m /\ next (swap m1) = now m /\
     now (swap m1) = 1 - now m /\
     cur (swap m1) = next_grid (cur m) /\ nxt (swap m1) = cur m) /\
    (activity (nxt m1) < WIDTH * HEIGHT / 25 ->
       loop ms m rnd =
         ('(m3, rnd', _) <- seed 1 (swap m1) rnd ;;
          Some (m3, rnd', ShowFrame :: (if ms <? 10000 then banner out else out))) /\
       (rnd = [] -> loop ms m rnd = None) /\
       (draws_ok seeds 1 rnd ->
          exists m3 ws,
            seed 1 (swap m1) rnd = Some (m3, drop 3 rnd, ws) /\
            loop ms m rnd =
              Some (m3, drop 3 rnd,
                    ShowFrame :: (if ms <? 10000 then banner out else out)) /\
            now m3 = next m /\ next m3 = now m /\ nxt m3 = cur m /\
            ws = seed_marks seeds 1 rnd /\
            forall a b, cellv (cur m3) a b =
                        if seeded seeds 1 rnd a b then 2
                        else cellv (next_grid (cur m)) a b)) /\
    (~ activity (nxt m1) < WIDTH * HEIGHT / 25 ->
       loop ms m rnd =
         Some (swap m1, rnd, ShowFrame :: (if ms <? 10000 then banner out else out))).
Proof.
  intros Hok.
  destruct (loop_spec seeds ms m rnd Hok) as [m1 [out [E [Hok1 [Hn Hloop]]]]].
  destruct (transition_ok m Hok) as [m1' [out' [E' [_ [_ [_ [Hc [Hnow Hnext]]]]]]]].
  assert (Em : m1' = m1) by congruence. subst m1'. clear E' out'.
  destruct (swap_roles m1 Hok1) as [Hsc Hsn].
  destruct (sim_ok_bufs m Hok) as [_ [_ [_ [_ [Hne [Hnr [Hxr _]]]]]]].
  assert (Hs1 : now (swap m1) = next m /\ next (swap m1) = now m /\
                now (swap m1) = 1 - now m).
  { unfold swap. cbn [now next]. rewrite Hnow, Hnext.
    assert (Hc2 : (now m = 0 /\ next m = 1) \/ (now m = 1 /\ next m = 0)) by lia.
    destruct Hc2 as [[-> ->]|[-> ->]]; repeat split; reflexivity. }
  exists m1, out. split; [exact E|]. split; [exact Hn|].
  split; [destruct Hs1 as [H1 [H2 H3]]; repeat split; congruence|].
  rewrite (proj2 threshold_value). fold loop in Hloop.
  split.
  - intros Hlt. destruct (Z.ltb_spec (activity (nxt m1)) 327); [|lia].
    split; [exact Hloop|]. split.
    + intros ->. rewrite Hloop. reflexivity.
    + intros Hdr.
      destruct (seed_spec 1 (swap m1) rnd (sim_ok_swap _ Hok1) Hdr)
        as [m3 [Es [_ [Hn3 [Hx3 [Hnx3 Hcells]]]]]].
      change (3 * Z.to_nat 1)%nat with 3%nat in Es.
      change (Z.to_nat 1) with 1%nat in Es, Hcells.
      exists m3, (seed_marks seeds 1 rnd). split; [exact Es|]. split.
      * rewrite Hloop. unfold seed in Es. rewrite Es. reflexivity.
      * destruct Hs1 as [H1 [H2 _]].
        split; [congruence|]. split; [congruence|]. split; [congruence|].
        split; [reflexivity|]. intros a b. rewrite Hcells, Hsc, Hn. reflexivity.
  - intros Hge. destruct (Z.ltb_spec (activity (nxt m1)) 327); [lia|].
    exact Hloop.
Qed.

Lemma reseed_iff_low_activity_witness :
  (sim_ok init /\
   exists m3 out,
     loop 0 init [20; 20; 9] = Some (m3, [], out) /\
     cellv (cur m3) 27 20 = 2 /\ cellv (cur m3) 20 20 = 0) /\
  (sim_ok stripes_state /\
   exists m2 out,
     loop 0 stripes_state [] = Some (m2, [], out) /\
     cur m2 = next_grid (cur stripes_state) /\ now m2 = 0).
Proof.
  assert (H1 : sim_ok init) by (apply sim_okb_sound; vm_compute; reflexivity).
  assert (H2 : sim_ok stripes_state) by (apply sim_okb_sound; vm_compute; reflexivity).
  split; (split; [assumption|]).
  - destruct (reseed_iff_low_activity 0 init [20; 20; 9] H1)
      as [m1 [out [_ [Hn [_ [Hlow _]]]]]].
    assert (Hlt : activity (nxt m1) < WIDTH * HEIGHT / 25)
      by (rewrite Hn; vm_compute; reflexivity).
    assert (Hdr : draws_ok seeds 1 [20; 20; 9])
      by (vm_compute; intuition congruence).
    destruct (proj2 (proj2 (Hlow Hlt)) Hdr) as [m3 [ws [_ [El [_ [_ [_ [_ Hc]]]]]]]].
    eexists m3, _. split; [exact El|].
    rewrite !Hc. split; vm_compute; reflexivity.
  - destruct (reseed_iff_low_activity 0 stripes_state [] H2)
      as [m1 [out [_ [Hn [[Hs1 [_ [_ [Hs2 _]]]] [_ Hhigh]]]]]].
    assert (Hge : ~ activity (nxt m1) < WIDTH * HEIGHT / 25)
      by (rewrite Hn; vm_compute; discriminate).
    eexists (swap m1), _. split; [exact (Hhigh Hge)|].
    split; [exact Hs2 | exact Hs1].
Defined.

(** ** The state invariant *)

Lemma reachable_ok (m : sim) : reachable m -> sim_ok m.
Proof.
  induction 1 as [|m m' lc out _ IH E|m _ IH|m m' n rnd rnd' ws _ IH Hdr E].
  - exact sim_ok_init.
  - destruct (transition_ok m IH) as [m1 [out1 [E1 [_ [Hok1 _]]]]].
    rewrite E1 in E. now injection E as <- _ _.
  - now apply sim_ok_swap.
  - destruct (seed_spec n m rnd IH Hdr) as [m1 [E1 [Hok1 _]]].
    rewrite E1 in E. now injection E as <- _ _.
Qed.

Lemma loop_reachable (ms : Z) (m : sim) (rnd : list Z) :
  reachable m -> draws_ok seeds 1 rnd ->
  exists m' rnd' out, loop ms m rnd = Some (m', rnd', out) /\ reachable m'.
Proof.
  intros Hr Hdr. pose proof (reachable_ok m Hr) as Hok.
  destruct (loop_spec seeds ms m rnd Hok) as [m1 [out [E [Hok1 [_ Hloop]]]]].
  fold loop in Hloop.
  assert (Hr2 : reachable (swap m1))
    by (apply reach_swap; exact (reach_transition m m1 _ _ Hr E)).
  destruct (activity (nxt m1) <? 327).
  - destruct (seed_spec 1 (swap m1) rnd (sim_ok_swap _ Hok1) Hdr) as [m3 [Es _]].
    eexists m3, _, _. split.
    + rewrite Hloop. unfold seed in Es. rewrite Es. reflexivity.
    + exact (reach_seed _ _ 1 rnd _ _ Hr2 Hdr Es).
  - eexists _, _, _. split; [exact Hloop | exact Hr2].
Qed.

(** C2. In every reachable state each cell of both buffers holds an index
    of the rule table, an integer in 0..4: the all-Dead initial grid does,
    a pass of the transition loops always completes and preserves it, and so
    do every call of the seeder and every whole cycle of [loop]. *)
Theorem state_index_invariant (m : sim) :
  reachable m ->
  cells_in_table m /\
  (exists m' lc out, transition m = Some (m', lc, out) /\ cells_in_table m') /\
  (forall n rnd, draws_ok seeds (Z.to_nat n) rnd ->
     exists m' rnd' ws, seed n m rnd = Some (m', rnd', ws) /\ cells_in_table m') /\
  (forall ms rnd, draws_ok seeds 1 rnd ->
     exists m' rnd' out, loop ms m rnd = Some (m', rnd', out) /\ cells_in_table m').
Proof.
  intros Hr. pose proof (reachable_ok m Hr) as Hok.
  split; [now apply sim_ok_cells|]. split; [|split].
  - destruct (transition_ok m Hok) as [m' [out [E [_ [Hok' _]]]]].
    eexists _, _, _. split; [exact E | now apply sim_ok_cells].
  - intros n rnd Hdr.
    destruct (seed_spec n m rnd Hok Hdr) as [m' [E [Hok' _]]].
    eexists _, _, _. split; [exact E | now apply sim_ok_cells].
  - intros ms rnd Hdr.
    destruct (loop_reachable ms m rnd Hr Hdr) as [m' [rnd' [out [E Hr']]]].
    eexists _, _, _. split; [exact E|]. now apply sim_ok_cells, reachable_ok.
Qed.

Lemma state_index_invariant_witness :
  reachable (swap init) /\ cells_in_table (swap init).
Proof.
  assert (H : reachable (swap init)) by (apply reach_swap, reach_init).
  split; [exact H|]. exact (proj1 (state_index_invariant (swap init) H)).
Defined.

(** ** Repeated transition steps without the seeder *)

Lemma evolve_spec (k : nat) :
  forall m, sim_ok m ->
    exists mk, evolve k m = Some (mk, history k (cur m)) /\
               sim_ok mk /\ cur mk = Nat.iter k next_grid (cur m).
Proof.
  induction k as [|k IH]; intros m Hok.
  - exists m. repeat split; [assumption].
  - destruct (transition_ok m Hok) as [m1 [out [E [Eout [Hok1 [Hn _]]]]]].
    destruct (IH (swap m1) (sim_ok_swap _ Hok1)) as [mk [Ek [Hokk Hcur]]].
    rewrite (proj1 (swap_roles m1 Hok1)), Hn in Ek, Hcur.
    exists mk. split; [|split; [exact Hokk|]].
    + cbn [evolve history]. rewrite E. cbn [bind]. rewrite Ek. cbn [bind].
      rewrite Hn, Eout. reflexivity.
    + rewrite Hcur. symmetry. apply Nat.iter_succ_r.
Qed.

(** C9. The transition pass is a function of the current grid alone: two
    well-formed states with the same current grid, whatever their stale next
    buffers and whichever buffer is current, get the same next grid, the
    same activity count and the same pixels, and any number of repeated
    steps without the seeder yields the same history of grids, counts and
    pixels in both runs. *)
Theorem transition_deterministic (m1 m2 : sim) :
  sim_ok m1 -> sim_ok m2 -> cur m1 = cur m2 ->
  (exists m1' m2' lc out,
     transition m1 = Some (m1', lc, out) /\ transition m2 = Some (m2', lc, out) /\
     nxt m1' = nxt m2') /\
  forall k, exists m1' m2' h,
    evolve k m1 = Some (m1', h) /\ evolve k m2 = Some (m2', h) /\
    length h = k /\ cur m1' = cur m2'.
Proof.
  intros H1 H2 Hc. split.
  - destruct (transition_ok m1 H1) as [m1' [o1 [E1 [Eo1 [_ [Hn1 _]]]]]].
    destruct (transition_ok m2 H2) as [m2' [o2 [E2 [Eo2 [_ [Hn2 _]]]]]].
    exists m1', m2', (lc_of (cur m1)), o1. split; [exact E1|]. split.
    + rewrite E2, Eo1, Eo2, Hc. reflexivity.
    + now rewrite Hn1, Hn2, Hc.
  - intros k.
    destruct (evolve_spec k m1 H1) as [m1' [E1 [_ Hk1]]].
    destruct (evolve_spec k m2 H2) as [m2' [E2 [_ Hk2]]].
    exists m1', m2', (history k (cur m1)). split; [exact E1|]. split; [|split].
    + now rewrite E2, Hc.
    + clear. generalize (cur m1). induction k as [|k IH]; intros g; [reflexivity|].
      cbn [history length]. now rewrite IH.
    + now rewrite Hk1, Hk2, Hc.
Qed.

Lemma transition_deterministic_witness :
  sim_ok init /\ sim_ok (swap init) /\ cur init = cur (swap init) /\
  exists m1' m2' lc out,
    transition init = Some (m1', lc, out) /\
    transition (swap init) = Some (m2', lc, out) /\ nxt m1' = nxt m2'.
Proof.
  assert (H1 : sim_ok init) by (apply sim_okb_sound; vm_compute; reflexivity).
  assert (H2 : sim_ok (swap init)) by (apply sim_okb_sound; vm_compute; reflexivity).
  assert (H3 : cur init = cur (swap init)) by reflexivity.
  split; [exact H1|]. split; [exact H2|]. split; [exact H3|].
  exact (proj1 (transition_deterministic init (swap init) H1 H2 H3)).
Defined.

(** ** The 2 x 2 block *)

Ltac split_eqb :=
  repeat match goal with
  | |- context [Z.eqb ?a ?b] => destruct (Z.eqb_spec a b); try lia
  end.

Lemma axis_block (n b x : Z) :
  4 <= n -> 0 <= b < n -> 0 <= x < n ->
  ind (on_axis n b ((x + -1) mod n)) + ind (on_axis n b ((x + 1) mod n)) <= 1 /\
  (on_axis n b x = true ->
   ind (on_axis n b ((x + -1) mod n)) + ind (on_axis n b ((x + 1) mod n)) = 1).
Proof.
  intros Hn Hb Hx. unfold on_axis, ind.
  rewrite <- (wrap_dec n x Hx), <- (wrap_inc n x Hx), <- (wrap_inc n b Hb).
  destruct (Z.eqb_spec x 0); destruct (Z.eqb_spec x (n - 1));
    destruct (Z.eqb_spec b (n - 1)); try lia;
    split_eqb; cbn [orb]; (split; [lia|]); intros; try discriminate; lia.
Qed.

Lemma block_cell (cx cy x y : Z) :
  0 <= x < WIDTH -> 0 <= y < HEIGHT ->
  cellv (block_grid cx cy) x y = if in_block cx cy x y then 2 else 0.
Proof. intros Hx Hy. unfold block_grid. now rewrite tabulate_cell. Qed.

Lemma block_alive (cx cy x y : Z) :
  0 <= x < WIDTH -> 0 <= y < HEIGHT ->
  alive_of (cellv (block_grid cx cy) x y) =
  ind (on_axis WIDTH cx x) * ind (on_axis HEIGHT cy y).
Proof.
  intros Hx Hy. rewrite block_cell by assumption. unfold in_block.
  destruct (on_axis WIDTH cx x), (on_axis HEIGHT cy y); reflexivity.
Qed.

Lemma block_grid_ok (cx cy : Z) : grid_ok (block_grid cx cy).
Proof.
  split; [apply tabulate_dims|]. intros x y Hx Hy.
  rewrite block_cell by assumption.
  destruct (in_block cx cy x y); unfold valid_state; cbn; lia.
Qed.

Lemma block_next_cell (cx cy x y : Z) :
  0 <= cx < WIDTH -> 0 <= cy < HEIGHT -> 0 <= x < WIDTH -> 0 <= y < HEIGHT ->
  next_cell (block_grid cx cy) x y = if in_block cx cy x y then 2 else 0.
Proof.
  intros Hcx Hcy Hx Hy.
  assert (HW : 0 < WIDTH) by (rewrite WIDTH_eq; lia).
  assert (HH : 0 < HEIGHT) by (rewrite HEIGHT_eq; lia).
  unfold next_cell, torus_count, torus_ring, sum_list_Z.
  cbn [map foldr fst snd].
  rewrite !block_alive by (try assumption; apply Z.mod_pos_bound; assumption).
  rewrite block_cell by assumption.
  rewrite (wrap_same WIDTH x Hx), (wrap_same HEIGHT y Hy).
  destruct (axis_block WIDTH cx x) as [Hx1 Hx2]; [rewrite WIDTH_eq; lia | lia | lia |].
  destruct (axis_block HEIGHT cy y) as [Hy1 Hy2]; [rewrite HEIGHT_eq; lia | lia | lia |].
  unfold in_block.
  destruct (on_axis WIDTH cx x); destruct (on_axis HEIGHT cy y);
    destruct (on_axis WIDTH cx ((x + -1) mod WIDTH));
    destruct (on_axis WIDTH cx ((x + 1) mod WIDTH));
    destruct (on_axis HEIGHT cy ((y + -1) mod HEIGHT));
    destruct (on_axis HEIGHT cy ((y + 1) mod HEIGHT));
    cbn [ind andb] in *;
    try (exfalso; lia);
    try (specialize (Hx2 eq_refl); exfalso; lia);
    try (specialize (Hy2 eq_refl); exfalso; lia);
    reflexivity.
Qed.

Lemma block_still (cx cy : Z) :
  0 <= cx < WIDTH -> 0 <= cy < HEIGHT ->
  next_grid (block_grid cx cy) = block_grid cx cy.
Proof.
  intros Hcx Hcy. apply grid_ext.
  - apply next_grid_dims.
  - apply tabulate_dims.
  - intros x y Hx Hy. rewrite next_grid_cell, block_cell by assumption.
    now apply block_next_cell.
Qed.

Lemma block_activity (cx cy : Z) :
  0 <= cx < WIDTH -> 0 <= cy < HEIGHT -> activity (block_grid cx cy) = 4.
Proof.
  intros Hcx Hcy.
  assert (HW : 0 < WIDTH) by (rewrite WIDTH_eq; lia).
  assert (HH : 0 < HEIGHT) by (rewrite HEIGHT_eq; lia).
  pose proof (Z.mod_pos_bound (cx + 1) WIDTH HW) as Hbx.
  pose proof (Z.mod_pos_bound (cy + 1) HEIGHT HH) as Hby.
  assert (Hnx : (cx + 1) mod WIDTH <> cx).
  { rewrite <- (wrap_inc WIDTH cx Hcx).
    destruct (Z.eqb_spec cx (WIDTH - 1)); rewrite ?WIDTH_eq in *; lia. }
  assert (Hny : (cy + 1) mod HEIGHT <> cy).
  { rewrite <- (wrap_inc HEIGHT cy Hcy).
    destruct (Z.eqb_spec cy (HEIGHT - 1)); rewrite ?HEIGHT_eq in *; lia. }
  rewrite (activity_points _ (block_cells cx cy)).
  - reflexivity.
  - apply tabulate_dims.
  - unfold block_cells.
    repeat (apply NoDup_cons; split;
            [rewrite ?elem_of_cons, elem_of_nil; intros H;
             repeat destruct H as [H|H]; try contradiction;
             injection H; intros; congruence|]).
    apply NoDup_nil_2.
  - unfold block_cells.
    repeat (apply Forall_cons_2; [cbn [fst snd]; lia|]). apply Forall_nil_2.
  - intros x y Hx Hy. rewrite block_cell by assumption.
    assert (Hmem : (x, y) ∈ block_cells cx cy <->
                   (x = cx \/ x = (cx + 1) mod WIDTH) /\
                   (y = cy \/ y = (cy + 1) mod HEIGHT)).
    { unfold block_cells. rewrite !elem_of_cons, elem_of_nil. split.
      - intros [H|[H|[H|[H|[]]]]]; injection H; intros; subst; tauto.
      - intros [[-> | ->] [-> | ->]]; tauto. }
    unfold in_block, on_axis.
    destruct (Z.eqb_spec x cx); destruct (Z.eqb_spec x ((cx + 1) mod WIDTH));
      destruct (Z.eqb_spec y cy); destruct (Z.eqb_spec y ((cy + 1) mod HEIGHT));
      cbn [orb andb];
      first
        [ rewrite bool_decide_eq_true_2; [reflexivity | apply Hmem; tauto]
        | rewrite bool_decide_eq_false_2; [reflexivity | rewrite Hmem; tauto] ].
Qed.

Lemma history_block (cx cy : Z) (k : nat) :
  0 <= cx < WIDTH -> 0 <= cy < HEIGHT ->
  Forall (fun e => fst (fst e) = block_grid cx cy /\ snd (fst e) = 4)
         (history k (block_grid cx cy)) /\
  length (history k (block_grid cx cy)) = k /\
  Nat.iter k next_grid (block_grid cx cy) = block_grid cx cy.
Proof.
  intros Hcx Hcy. induction k as [|k [IH1 [IH2 IH3]]].
  - split; [apply Forall_nil_2 | split; reflexivity].
  - split; [|split].
    + cbn [history]. rewrite block_still by assumption.
      apply Forall_cons_2; [|exact IH1]. cbn [fst snd].
      split; [reflexivity|].
      rewrite lc_of_activity, block_still by assumption.
      now apply block_activity.
    + cbn [history length]. rewrite block_still by assumption. now rewrite IH2.
    + rewrite Nat.iter_succ, IH3. now apply block_still.
Qed.

(** C4. If the current grid is a 2 x 2 block of Survived cells (state 2),
    placed anywhere on the torus, with all other cells Dead, one pass of the
    transition loops computes the identical grid with activity count 4, and
    any number of further steps without the seeder computes that same grid
    with activity count 4 each time. *)
Theorem block_is_still_life (m : sim) (cx cy : Z) :
  sim_ok m -> 0 <= cx < WIDTH -> 0 <= cy < HEIGHT ->
  cur m = block_grid cx cy ->
  (forall x y, 0 <= x < WIDTH -> 0 <= y < HEIGHT ->
     cellv (block_grid cx cy) x y =
     if ((x =? cx) || (x =? (cx + 1) mod WIDTH)) &&
        ((y =? cy) || (y =? (cy + 1) mod HEIGHT)) then 2 else 0) /\
  (exists m' out,
     transition m = Some (m', 4, out) /\ nxt m' = cur m /\ cur m' = cur m) /\
  forall k, exists mk h,
    evolve k m = Some (mk, h) /\ length h = k /\
    Forall (fun e => fst (fst e) = block_grid cx cy /\ snd (fst e) = 4) h /\
    cur mk = block_grid cx cy.
Proof.
  intros Hok Hcx Hcy Hcur. split; [|split].
  - intros x y Hx Hy. now rewrite block_cell.
  - destruct (transition_ok m Hok) as [m' [out [E [_ [_ [Hn [Hc _]]]]]]].
    exists m', out. split; [|split; [|exact Hc]].
    + rewrite E, Hcur, lc_of_activity, block_still by assumption.
      now rewrite block_activity.
    + rewrite Hn, Hcur. now apply block_still.
  - intros k. destruct (evolve_spec k m Hok) as [mk [E [_ Hk]]].
    destruct (history_block cx cy k Hcx Hcy) as [H1 [H2 H3]].
    exists mk, (history k (block_grid cx cy)).
    rewrite Hcur in E, Hk. split; [exact E|]. split; [exact H2|].
    split; [exact H1|]. now rewrite Hk.
Qed.

Lemma block_is_still_life_witness :
  sim_ok corner_block_state /\ 0 <= 127 < WIDTH /\ 0 <= 63 < HEIGHT /\
  cur corner_block_state = block_grid 127 63 /\
  exists m' out,
    transition corner_block_state = Some (m', 4, out) /\
    nxt m' = cur corner_block_state /\ cur m' = cur corner_block_state.
Proof.
  assert (H1 : sim_ok corner_block_state)
    by (apply sim_okb_sound; vm_compute; reflexivity).
  assert (H2 : 0 <= 127 < WIDTH) by (unfold WIDTH; lia).
  assert (H3 : 0 <= 63 < HEIGHT) by (unfold HEIGHT; lia).
  assert (H4 : cur corner_block_state = block_grid 127 63) by reflexivity.
  split; [exact H1|]. split; [exact H2|]. split; [exact H3|]. split; [exact H4|].
  exact (proj1 (proj2 (block_is_still_life corner_block_state 127 63 H1 H2 H3 H4))).
Defined.

(** ** Refinement of two-state Highlife *)

Lemma idx_fmap {A B : Type} (f : A -> B) (l : list A) (i : Z) :
  idx (f <$> l) i = f <$> idx l i.
Proof.
  unfold idx. destruct (0 <=? i); [apply list_lookup_fmap | reflexivity].
Qed.

Lemma project_dims (g : grid) : dims g -> dims (project g).
Proof.
  intros [Hw Hc]. unfold project. split.
  - now rewrite length_fmap.
  - apply Forall_fmap. eapply Forall_impl; [exact Hc|].
    cbn. intros c Hl. now rewrite length_fmap.
Qed.

Lemma project_cell (g : grid) (x y : Z) :
  dims g -> 0 <= x < WIDTH -> 0 <= y < HEIGHT ->
  cellv (project g) x y = alive_flag (cellv g x y).
Proof.
  intros Hd Hx Hy.
  destruct (dims_cell g x y Hd Hx Hy) as [c [Ec [_ Ev]]].
  unfold cellv at 1, project. rewrite idx_fmap, Ec. cbn [fmap option_fmap option_map bind].
  rewrite idx_fmap, Ev. reflexivity.
Qed.

Lemma alive_flag_valid (s : Z) : valid_state s -> alive_flag s = alive_of s.
Proof.
  intros H. apply valid_state_cases in H.
  destruct H as [->|[->|[->|[->| ->]]]]; reflexivity.
Qed.

Lemma rules_refine_highlife (s n : Z) :
  valid_state s -> 0 <= n <= 8 ->
  alive_flag (next_of s n) = highlife (alive_flag s) n.
Proof.
  intros Hs Hn. apply valid_state_cases in Hs.
  assert (Hn' : n = 0 \/ n = 1 \/ n = 2 \/ n = 3 \/ n = 4 \/ n = 5 \/
                n = 6 \/ n = 7 \/ n = 8) by lia.
  destruct Hs as [->|[->|[->|[->| ->]]]];
    destruct Hn' as [->|[->|[->|[->|[->|[->|[->|[->| ->]]]]]]]];
    reflexivity.
Qed.

Lemma live_neighbours_project (g : grid) (x y : Z) :
  grid_ok g -> 0 <= x < WIDTH -> 0 <= y < HEIGHT ->
  live_neighbours (project g) x y = torus_count g x y.
Proof.
  intros [Hd Hv] Hx Hy.
  assert (HW : 0 < WIDTH) by (rewrite WIDTH_eq; lia).
  assert (HH : 0 < HEIGHT) by (rewrite HEIGHT_eq; lia).
  unfold live_neighbours, torus_count, torus_ring. cbn [map fst snd].
  rewrite !project_cell by (try assumption; apply Z.mod_pos_bound; assumption).
  rewrite !alive_flag_valid
    by (apply Hv; apply Z.mod_pos_bound; assumption).
  reflexivity.
Qed.

Lemma project_next (g : grid) :
  grid_ok g -> project (next_grid g) = highlife_step (project g).
Proof.
  intros Hg. pose proof Hg as [Hd Hv]. apply grid_ext.
  - apply project_dims, next_grid_dims.
  - apply tabulate_dims.
  - intros x y Hx Hy. unfold highlife_step.
    rewrite tabulate_cell by assumption.
    rewrite project_cell by (try assumption; apply next_grid_dims).
    rewrite next_grid_cell by assumption.
    rewrite project_cell, live_neighbours_project by assumption.
    unfold next_cell. apply rules_refine_highlife.
    + now apply Hv.
    + apply torus_count_bounds.
Qed.

(** C10. Projecting every cell to its alive flag (Born and Survived to 1;
    Dead, Dying and Trail to 0) commutes with stepping: the projection of the
    grid computed by one pass of the transition loops is one step of
    two-state B36/S23 on the same torus applied to the projection of the
    current grid. *)
Theorem transition_refines_highlife (m : sim) :
  sim_ok m ->
  exists m' lc out,
    transition m = Some (m', lc, out) /\
    project (nxt m') = highlife_step (project (cur m)).
Proof.
  intros Hok.
  destruct (transition_ok m Hok) as [m' [out [E [_ [_ [Hn _]]]]]].
  destruct (sim_ok_bufs m Hok) as [_ [_ [Hgc _]]].
  eexists _, _, _. split; [exact E|].
  rewrite Hn. now apply project_next.
Qed.

Lemma transition_refines_highlife_witness :
  sim_ok corner_block_state /\
  exists m' lc out,
    transition corner_block_state = Some (m', lc, out) /\
    project (nxt m') = highlife_step (project (cur corner_block_state)).
Proof.
  assert (H1 : sim_ok corner_block_state)
    by (apply sim_okb_sound; vm_compute; reflexivity).
  split; [exact H1|]. exact (transition_refines_highlife corner_block_state H1).
Defined.

(** ** Startup and configuration checks *)

Lemma cycles_in_rules (lib : list shape) (k : nat) (ms : Z) :
  forall m rnd, cycles_in rules lib k ms m rnd = cycles_with lib k ms m rnd.
Proof.
  induction k as [|k IH]; intros m rnd; [reflexivity|].
  cbn [cycles_in cycles_with].
  change (loop_in rules lib ms m rnd) with (loop_with lib ms m rnd).
  destruct (loop_with lib ms m rnd) as [[[m' rnd'] out]|]; [|reflexivity].
  cbn [bind]. apply IH.
Qed.

Lemma main_in_rules (lib : list shape) (status : Z) (accel_found : bool)
    (k : nat) (ms : Z) (rnd : list Z) :
  main_in rules lib status accel_found k ms rnd =
  main_with lib status accel_found k ms rnd.
Proof.
  unfold main_in, main_with. destruct (setup status accel_found); [reflexivity|].
  now rewrite cycles_in_rules.
Qed.

Lemma main_in_halted (rt : list rule) (lib : list shape) (status : Z)
    (accel_found : bool) (k : nat) (ms : Z) (rnd : list Z) (d : Z) :
  main_in rt lib status accel_found k ms rnd = Halted d <->
  (status <> PROTOMATTER_OK /\ d = 500) \/
  (status = PROTOMATTER_OK /\ accel_found = false /\ d = 250).
Proof.
  unfold main_in, setup.
  destruct (Z.eqb_spec status PROTOMATTER_OK) as [Es|Es]; cbn [negb].
  - destruct accel_found; cbn [negb]; split.
    + discriminate.
    + intros [[H _]|[_ [H _]]]; [contradiction | discriminate].
    + intros H. injection H as <-. right. auto.
    + intros [[H _]|[_ [_ ->]]]; [contradiction | reflexivity].
  - split.
    + intros H. injection H as <-. left. auto.
    + intros [[_ ->]|[H _]]; [reflexivity | contradiction].
Qed.

Lemma rules_complete :
  Forall (fun r => length (rule_ r) = 9%nat /\ Forall valid_state (rule_ r)) rules.
Proof.
  unfold rules.
  repeat (apply Forall_cons_2;
          [split; [reflexivity|];
           repeat (apply Forall_cons_2; [unfold valid_state; cbn; lia|]);
           apply Forall_nil_2|]).
  apply Forall_nil_2.
Qed.

Lemma rules_table_complete : table_complete rules.
Proof.
  unfold table_complete. eapply Forall_impl; [exact rules_complete|].
  intros r [Hl Hv]. split; [exact Hl|]. exact Hv.
Qed.

(** C8 as stated fails, for both kinds of configuration.  With a shape of
    extent 12 > 10 in the selection list, startup is not fatal; the first
    cycle runs, and its seeder call writes outside the grid.  With a rule
    table that gives no state for Dead with no live neighbour, startup is
    not fatal either; the first cycle runs and reads outside the table. *)
Lemma bad_configuration_not_rejected :
  (10 < width WIDE /\ ~ lib_fits [WIDE] /\
   setup PROTOMATTER_OK true = Ready /\
   main_with [WIDE] PROTOMATTER_OK true 1 0 [117; 10; 0] = Ran None /\
   main_in rules [WIDE] PROTOMATTER_OK true 1 0 [117; 10; 0] = Ran None) /\
  (~ table_complete BAD_RULES /\
   main_in BAD_RULES seeds PROTOMATTER_OK true 1 0 [20; 20; 0] = Ran None) /\
  ~ (forall lib status accel_found k ms rnd,
       ~ lib_fits lib ->
       exists d, main_with lib status accel_found k ms rnd = Halted d) /\
  ~ (forall rt status accel_found k ms rnd,
       ~ table_complete rt ->
       exists d, main_in rt seeds status accel_found k ms rnd = Halted d).
Proof.
  assert (Hw : ~ lib_fits [WIDE]).
  { intros Hfit. apply Forall_cons in Hfit as [[_ [Hw _]] _]. cbn in Hw. lia. }
  assert (E : main_with [WIDE] PROTOMATTER_OK true 1 0 [117; 10; 0] = Ran None)
    by (vm_compute; reflexivity).
  assert (Hb : ~ table_complete BAD_RULES).
  { intros Hc. apply Forall_cons in Hc as [[_ Hr] _].
    apply Forall_cons in Hr as [H5 _]. cbn in H5. lia. }
  assert (Eb : main_in BAD_RULES seeds PROTOMATTER_OK true 1 0 [20; 20; 0] = Ran None)
    by (vm_compute; reflexivity).
  split; [|split; [|split]].
  - split; [reflexivity|]. split; [exact Hw|]. split; [reflexivity|].
    split; [exact E|]. rewrite main_in_rules. exact E.
  - split; assumption.
  - intros H. destruct (H [WIDE] PROTOMATTER_OK true 1%nat 0 [117; 10; 0] Hw) as [d Hd].
    rewrite E in Hd. discriminate.
  - intros H.
    destruct (H BAD_RULES PROTOMATTER_OK true 1%nat 0 [20; 20; 0] Hb) as [d Hd].
    rewrite Eb in Hd. discriminate.
Qed.

(** C8, as the code has it.  The program checks neither the shape library
    nor the rule table: startup is fatal exactly when the display or the
    accelerometer fails to initialise, whatever the selection list and
    whatever the rule table; when both initialise, the cycles run on the
    configuration as it is.  The shipped configuration satisfies both
    invariants by construction: every shape extends at most 8 x 5, within
    the inset of 10, and every rule gives a next state in 0..4 for each of
    the nine neighbour counts. *)
Theorem startup_checks_hardware_only :
  (forall rt lib status accel_found k ms rnd d,
     main_in rt lib status accel_found k ms rnd = Halted d <->
     (status <> PROTOMATTER_OK /\ d = 500) \/
     (status = PROTOMATTER_OK /\ accel_found = false /\ d = 250)) /\
  (forall rt lib k ms rnd,
     main_in rt lib PROTOMATTER_OK true k ms rnd =
     Ran (cycles_in rt lib k ms init rnd)) /\
  (forall lib status accel_found k ms rnd,
     main_in rules lib status accel_found k ms rnd =
     main_with lib status accel_found k ms rnd) /\
  (forall lib status accel_found k ms rnd d,
     main_with lib status accel_found k ms rnd = Halted d <->
     (status <> PROTOMATTER_OK /\ d = 500) \/
     (status = PROTOMATTER_OK /\ accel_found = false /\ d = 250)) /\
  lib_fits seeds /\
  Forall (fun sd => width sd <= 8 /\ height sd <= 5) seeds /\
  Forall (fun r => length (rule_ r) = 9%nat /\ Forall valid_state (rule_ r)) rules /\
  table_complete rules.
Proof.
  split; [exact main_in_halted|]. split; [reflexivity|].
  split; [exact main_in_rules|].
  split; [|split; [exact seeds_fit|split; [|split;
    [exact rules_complete | exact rules_table_complete]]]].
  - intros lib status accel_found k ms rnd d.
    rewrite <- main_in_rules. apply main_in_halted.
  - eapply Forall_impl; [exact seeds_extent|]. cbn. intros sd H. tauto.
Qed.

(** * Further properties *)

(** ** The error blink *)

Lemma land_1_mod_256 (i : Z) : Z.land (i mod 256) 1 = Z.land i 1.
Proof.
  change 1 with (Z.ones 1). rewrite !Z.land_ones by lia.
  change 256 with (2 ^ 1 * 2 ^ 7). change (2 ^ 1) with 2.
  rewrite Z.rem_mul_r by lia.
  rewrite Z.mul_comm, Z.mod_add by lia. apply Z.mod_mod. lia.
Qed.

Lemma lookup_skip2 {A : Type} (a b : A) (l : list A) (n : nat) :
  (a :: b :: l) !! Datatypes.S (Datatypes.S n) = l !! n.
Proof. reflexivity. Qed.

Lemma err_loop_lookup (x : Z) (fuel : nat) :
  forall (i : Z) (k : nat), (k < fuel)%nat ->
    err_loop x i fuel !! (2 * k)%nat = Some (DigitalWrite ((i + Z.of_nat k) mod 2)) /\
    err_loop x i fuel !! (2 * k + 1)%nat = Some (Delay (u32 x)).
Proof.
  induction fuel as [|f IH]; intros i k Hk; [lia|].
  destruct k as [|k].
  - cbn. rewrite Z.add_0_r. change 1 with (Z.ones 1).
    rewrite Z.land_ones by lia. auto.
  - replace (2 * Datatypes.S k)%nat with (Datatypes.S (Datatypes.S (2 * k))) by lia.
    replace (Datatypes.S (Datatypes.S (2 * k)) + 1)%nat
      with (Datatypes.S (Datatypes.S (2 * k + 1))) by lia.
    cbn [err_loop]. rewrite !lookup_skip2.
    destruct (IH ((i + 1) mod 256) k) as [H1 H2]; [lia|].
    rewrite H1, H2. split; [|reflexivity]. f_equal. f_equal.
    change 2 with (2 ^ 1). rewrite <- !Z.land_ones by lia. change (Z.ones 1) with 1.
    rewrite <- (land_1_mod_256 ((i + 1) mod 256 + Z.of_nat k)).
    rewrite Zplus_mod_idemp_l, land_1_mod_256. f_equal. lia.
Qed.

(** X1. [err] never leaves its loop: whatever the number of rounds observed,
    all of them run; it sets the pin mode once, then round [k] writes the
    LED (on for even [k], off for odd [k], also after the 8-bit counter has
    wrapped) and waits.  The wait is the argument [x] read as an unsigned
    32-bit number of milliseconds: [x] itself when [x] is not negative,
    [x + 2^32] when it is.  [setup] calls it with 500 or 250 only, which
    are the waits of its blinks. *)
Theorem err_blinks_forever (x : Z) (fuel k : nat) :
  (k < fuel)%nat -> - 2 ^ 31 <= x < 2 ^ 31 ->
  length (err x fuel) = (1 + 2 * fuel)%nat /\
  err x fuel !! 0%nat = Some PinModeOutput /\
  err x fuel !! (1 + 2 * k)%nat =
    Some (DigitalWrite (if Z.even (Z.of_nat k) then 1 else 0)) /\
  err x fuel !! (2 + 2 * k)%nat =
    Some (Delay (if x <? 0 then x + 2 ^ 32 else x)) /\
  forall status accel_found d,
    setup status accel_found = Blink d ->
    (d = 500 \/ d = 250) /\ err d fuel !! (2 + 2 * k)%nat = Some (Delay d).
Proof.
  intros Hk Hx.
  assert (Hu : u32 x = if x <? 0 then x + 2 ^ 32 else x).
  { unfold u32. destruct (Z.ltb_spec x 0).
    - symmetry. apply (Z.mod_unique x (2 ^ 32) (-1)); lia.
    - apply Z.mod_small. lia. }
  rewrite <- Hu. clear Hu Hx.
  assert (Hd : forall x', err x' fuel !! (2 + 2 * k)%nat = Some (Delay (u32 x'))).
  { intros x'. destruct (err_loop_lookup x' fuel 1 k Hk) as [_ H2]. unfold err.
    replace (2 + 2 * k)%nat with (Datatypes.S (2 * k + 1)) by lia. exact H2. }
  assert (Hs : forall status accel_found d,
             setup status accel_found = Blink d -> d = 500 \/ d = 250).
  { intros status accel_found d. unfold setup.
    destruct (negb (status =? PROTOMATTER_OK)); [intros [= <-]; auto|].
    destruct (negb accel_found); [intros [= <-]; auto | discriminate]. }
  split; [|split; [reflexivity|split; [|split; [apply Hd|]]]].
  - unfold err. cbn [length]. f_equal.
    clear. generalize 1. induction fuel as [|f IH]; intros i; [reflexivity|].
    cbn [err_loop length]. rewrite IH. lia.
  - destruct (err_loop_lookup x fuel 1 k Hk) as [H1 _]. unfold err.
    change (err_loop x 1 fuel !! (2 * k)%nat =
            Some (DigitalWrite (if Z.even (Z.of_nat k) then 1 else 0))).
    rewrite H1. f_equal. f_equal.
    rewrite Zmod_even, Z.add_comm, Z.even_add.
    destruct (Z.even (Z.of_nat k)); reflexivity.
  - intros status accel_found d E. split; [exact (Hs _ _ _ E)|].
    rewrite Hd. destruct (Hs _ _ _ E) as [-> | ->]; reflexivity.
Qed.

Lemma err_blinks_forever_witness :
  (300 < 400)%nat /\ - 2 ^ 31 <= -1 < 2 ^ 31 /\
  err (-1) 400 !! (1 + 2 * 300)%nat = Some (DigitalWrite 1) /\
  err (-1) 400 !! (2 + 2 * 300)%nat = Some (Delay 4294967295).
Proof.
  assert (H : (300 < 400)%nat) by lia.
  assert (Hx : - 2 ^ 31 <= -1 < 2 ^ 31) by lia.
  split; [exact H|]. split; [exact Hx|].
  destruct (err_blinks_forever (-1) 400 300 H Hx) as [_ [_ [H1 [H2 _]]]].
  split; [exact H1 | exact H2].
Defined.

(** ** The frame-rate throttle *)

Lemma frame_period : Z.quot 1000000 MAX_FPS = 40000.
Proof. reflexivity. Qed.

(** The wait ends at the first answer of [micros()] whose 32-bit distance
    from [prevTime] is at least 40000 microseconds: every earlier answer is
    read and dropped, the ending one becomes the new [prevTime], and the wait
    does not end while no such answer comes. *)
Lemma frame_wait_first_due (prevTime : Z) (micros : list Z) :
  (forall t rest,
     frame_wait prevTime micros = Some (t, rest) <->
     exists skipped,
       micros = skipped ++ t :: rest /\
       Forall (fun s => u32 (s - prevTime) < 40000) skipped /\
       40000 <= u32 (t - prevTime)) /\
  (frame_wait prevTime micros = None <->
   Forall (fun s => u32 (s - prevTime) < 40000) micros).
Proof.
  induction micros as [|s ms [IH1 IH2]].
  - split.
    + intros t rest. split; [discriminate|].
      intros [sk [E _]]. destruct sk; discriminate.
    + split; [intros _; apply Forall_nil_2 | reflexivity].
  - cbn [frame_wait]. rewrite frame_period.
    destruct (Z.ltb_spec (u32 (s - prevTime)) 40000) as [Hlt|Hge]; split.
    + intros t rest. rewrite IH1. split.
      * intros [sk [E [Hs Ht]]]. exists (s :: sk). subst ms.
        split; [reflexivity|]. split; [|exact Ht]. now apply Forall_cons_2.
      * intros [sk [E [Hs Ht]]]. destruct sk as [|s' sk].
        -- injection E as -> ->. lia.
        -- injection E as -> ->. apply Forall_cons in Hs as [_ Hs].
           exists sk. auto.
    + rewrite IH2. split; [now apply Forall_cons_2|].
      intros H. now apply Forall_cons in H as [_ H].
    + intros t rest. split.
      * intros H. injection H as -> ->. exists []. 
        split; [reflexivity|]. split; [apply Forall_nil_2 | exact Hge].
      * intros [sk [E [Hs Ht]]]. destruct sk as [|s' sk].
        -- now injection E as -> ->.
        -- injection E as -> ->. apply Forall_cons in Hs as [Hs _]. lia.
    + split; [discriminate|]. intros H. apply Forall_cons in H as [H _]. lia.
Qed.

Lemma u32_sub (T0 T : Z) :
  0 <= T - T0 < 2 ^ 32 -> u32 (u32 T - u32 T0) = T - T0.
Proof.
  intros H. unfold u32. rewrite <- Zminus_mod. now apply Z.mod_small.
Qed.

(** X2. The throttle is immune to the roll-over of the 32-bit microsecond
    counter: if the true times of the readings lie less than 2^32
    microseconds after the true time of [prevTime], the wait on the wrapped
    readings ends at the first true time that is 40000 microseconds or more
    after it, so two frames are never less than 1/25 second apart. *)
Theorem frame_wait_wrap_safe (T0 : Z) (Ts : list Z) :
  Forall (fun T => T0 <= T < T0 + 2 ^ 32) Ts ->
  frame_wait (u32 T0) (u32 <$> Ts) =
    (fun r : Z * list Z => (u32 (fst r), u32 <$> snd r)) <$> first_due T0 Ts /\
  forall T rest, first_due T0 Ts = Some (T, rest) -> 40000 <= T - T0.
Proof.
  induction Ts as [|T Ts IH]; intros H.
  - split; [reflexivity | discriminate].
  - apply Forall_cons in H as [HT H]. destruct (IH H) as [IH1 IH2].
    cbn [fmap list_fmap frame_wait first_due]. rewrite frame_period.
    rewrite u32_sub by lia.
    destruct (Z.ltb_spec (T - T0) 40000) as [Hlt|Hge].
    + split; [exact IH1 | exact IH2].
    + split; [reflexivity|]. intros T' rest E. now injection E as <- _.
Qed.

Lemma frame_wait_wrap_safe_witness :
  Forall (fun T => 4294960000 <= T < 4294960000 + 2 ^ 32)
         [4294961000; 4294999000; 4295000000; 4295000500] /\
  frame_wait (u32 4294960000)
             (u32 <$> [4294961000; 4294999000; 4295000000; 4295000500]) =
    Some (u32 4295000000, u32 <$> [4295000500]).
Proof.
  assert (H : Forall (fun T => 4294960000 <= T < 4294960000 + 2 ^ 32)
                     [4294961000; 4294999000; 4295000000; 4295000500]).
  { repeat (apply Forall_cons_2; [lia|]). apply Forall_nil_2. }
  split; [exact H|].
  exact (proj1 (frame_wait_wrap_safe 4294960000 _ H)).
Defined.

(** ** Any number of cycles *)

Lemma transition_after (m : sim) :
  sim_ok m ->
  transition m =
    Some (after_pass m, activity (next_grid (cur m)),
          frame_rev (cur m) (Z.to_nat HEIGHT)) /\
  sim_ok (after_pass m) /\
  nxt (after_pass m) = next_grid (cur m) /\ cur (after_pass m) = cur m /\
  now (after_pass m) = now m /\ next (after_pass m) = next m.
Proof.
  intros Hok.
  destruct (sim_ok_bufs m Hok) as [_ [_ [Hgc [_ [_ [_ [Hxr _]]]]]]].
  destruct (nxt_insert m (next_grid (cur m)) Hok) as [En Ec].
  split; [|split; [|split; [exact En|split; [exact Ec|split; reflexivity]]]].
  - rewrite (transition_spec m Hok), lc_of_activity. reflexivity.
  - apply sim_ok_insert; [exact Hok | now apply next_grid_ok | exact Hxr].
Qed.

Lemma loop_unfold (lib : list shape) (ms : Z) (m : sim) (rnd : list Z) :
  sim_ok m ->
  loop_with lib ms m rnd =
    if activity (next_grid (cur m)) <? 327 then
      '(m3, rnd', _) <- seed_with lib 1 (swap (after_pass m)) rnd ;;
      Some (m3, rnd', cycle_trace ms m)
    else Some (swap (after_pass m), rnd, cycle_trace ms m).
Proof.
  intros Hok. unfold loop_with.
  rewrite (proj1 (transition_after m Hok)). cbn [bind].
  rewrite (proj1 threshold_value). reflexivity.
Qed.

Lemma swap_after (m : sim) :
  sim_ok m ->
  sim_ok (swap (after_pass m)) /\
  cur (swap (after_pass m)) = next_grid (cur m) /\
  now (swap (after_pass m)) = (now m + 1) mod 2.
Proof.
  intros Hok.
  destruct (transition_after m Hok) as [_ [Hok1 [Hn [_ [Hnow _]]]]].
  split; [now apply sim_ok_swap|]. split.
  - now rewrite (proj1 (swap_roles _ Hok1)).
  - unfold swap. cbn [now]. fold (now (after_pass m)). rewrite Hnow.
    destruct Hok as [g0 [g1 [_ [_ [_ [[-> _]|[-> _]]]]]]]; reflexivity.
Qed.

Lemma draws_ok_le (lib : list shape) (j k : nat) :
  (j <= k)%nat -> forall rnd, draws_ok lib k rnd -> draws_ok lib j rnd.
Proof.
  revert k. induction j as [|j IH]; intros k Hjk rnd H; [exact I|].
  destruct k as [|k]; [lia|].
  destruct rnd as [|px [|py [|s rest]]]; try contradiction.
  destruct H as [Hpx [Hpy [Hs Hrest]]]. cbn [draws_ok].
  repeat split; try assumption; try lia. apply (IH k); [lia | exact Hrest].
Qed.

Lemma draws_ok_tail (lib : list shape) (k : nat) (rnd : list Z) :
  draws_ok lib (Datatypes.S k) rnd -> draws_ok lib k (drop 3 rnd).
Proof.
  destruct rnd as [|px [|py [|s rest]]]; try contradiction.
  intros [_ [_ [_ H]]]. exact H.
Qed.

Lemma sim_ok_roles (m : sim) :
  sim_ok m -> (now m = 0 \/ now m = 1) /\ next m = 1 - now m.
Proof.
  intros [g0 [g1 [_ [_ [_ [[-> ->]|[-> ->]]]]]]]; split; auto.
Qed.

Lemma cycles_spec (ms : Z) (k : nat) :
  forall (m : sim) (rnd : list Z),
    sim_ok m -> draws_ok seeds k rnd ->
    exists m' j,
      cycles_with seeds k ms m rnd = Some (m', drop (3 * j) rnd) /\
      (j <= k)%nat /\ sim_ok m' /\
      now m' = (now m + Z.of_nat k) mod 2.
Proof.
  induction k as [|k IH]; intros m rnd Hok Hdr.
  - exists m, O. split; [reflexivity|]. split; [lia|]. split; [exact Hok|].
    destruct (sim_ok_roles m Hok) as [[E|E] _]; rewrite E; reflexivity.
  - destruct (swap_after m Hok) as [Hok2 [_ Hnow2]].
    cbn [cycles_with]. rewrite (loop_unfold seeds ms m rnd Hok).
    destruct (activity (next_grid (cur m)) <? 327).
    + destruct (seed_spec 1 (swap (after_pass m)) rnd Hok2
                  (draws_ok_le seeds 1 (Datatypes.S k) ltac:(lia) _ Hdr))
        as [m3 [Es [Hok3 [Hnow3 _]]]].
      unfold seed in Es. rewrite Es. cbn [bind].
      change (3 * Z.to_nat 1)%nat with 3%nat.
      destruct (IH m3 (drop 3 rnd) Hok3 (draws_ok_tail _ _ _ Hdr))
        as [m' [j [Ec [Hj [Hok' Hnow']]]]].
      exists m', (Datatypes.S j). rewrite Ec, drop_drop.
      split; [f_equal; f_equal; f_equal; lia|]. split; [lia|]. split; [exact Hok'|].
      rewrite Hnow', Hnow3, Hnow2, Zplus_mod_idemp_l. f_equal. lia.
    + cbn [bind].
      destruct (IH (swap (after_pass m)) rnd Hok2
                  (draws_ok_le seeds k (Datatypes.S k) ltac:(lia) _ Hdr))
        as [m' [j [Ec [Hj [Hok' Hnow']]]]].
      exists m', j. split; [exact Ec|]. split; [lia|]. split; [exact Hok'|].
      rewrite Hnow', Hnow2, Zplus_mod_idemp_l. f_equal. lia.
Qed.

(** X3. The program never reads or writes outside an array: from a
    well-formed state, and with random draws inside their ranges for up to
    one reseed per cycle, any number [k] of [loop] cycles completes.  It
    leaves both buffers full of rule-table indices, has consumed three draws
    for each of at most [k] reseeds, and has flipped the buffer roles [k]
    times. *)
Theorem cycles_never_fail (ms : Z) (k : nat) (m : sim) (rnd : list Z) :
  sim_ok m -> draws_ok seeds k rnd ->
  exists m' j,
    cycles_with seeds k ms m rnd = Some (m', drop (3 * j) rnd) /\
    (j <= k)%nat /\ cells_in_table m' /\
    now m' = (now m + Z.of_nat k) mod 2 /\ next m' = 1 - now m'.
Proof.
  intros Hok Hdr.
  destruct (cycles_spec ms k m rnd Hok Hdr) as [m' [j [E [Hj [Hok' Hnow]]]]].
  exists m', j. split; [exact E|]. split; [exact Hj|].
  split; [now apply sim_ok_cells|]. split; [exact Hnow|].
  apply (sim_ok_roles m' Hok').
Qed.

Lemma cycles_never_fail_witness :
  sim_ok init /\ draws_ok seeds 3 [20; 20; 0; 60; 30; 5; 100; 40; 12] /\
  exists m' j,
    cycles_with seeds 3 0 init [20; 20; 0; 60; 30; 5; 100; 40; 12] =
      Some (m', drop (3 * j) [20; 20; 0; 60; 30; 5; 100; 40; 12]) /\
    (j <= 3)%nat /\ cells_in_table m' /\
    now m' = (now init + Z.of_nat 3) mod 2 /\ next m' = 1 - now m'.
Proof.
  assert (H1 : sim_ok init) by (apply sim_okb_sound; vm_compute; reflexivity).
  assert (H2 : draws_ok seeds 3 [20; 20; 0; 60; 30; 5; 100; 40; 12])
    by (vm_compute; intuition congruence).
  split; [exact H1|]. split; [exact H2|].
  exact (cycles_never_fail 0 3 init _ H1 H2).
Defined.

(** ** The frame drawn in a cycle *)

Lemma rev_tab_rev {A : Type} (f : Z -> A) (n : nat) :
  rev (tab_rev f n) = f <$> seqZ 0 (Z.of_nat n).
Proof.
  induction n as [|k IH]; [reflexivity|].
  cbn [tab_rev rev]. rewrite IH, seqZ_S, fmap_snoc. reflexivity.
Qed.

Lemma rev_frame_rev (g : grid) (n : nat) :
  rev (frame_rev g n) =
  mbind (fun y => (fun x => pixel g y x) <$> seqZ 0 WIDTH) (seqZ 0 (Z.of_nat n)).
Proof.
  induction n as [|k IH]; [reflexivity|].
  cbn [frame_rev]. rewrite rev_app_distr, IH, rev_tab_rev, seqZ_S, bind_app.
  rewrite bind_singleton. now rewrite Z2Nat.id by (rewrite WIDTH_eq; lia).
Qed.

Lemma bind_ext_in {A B : Type} (f g : A -> list B) (l : list A) :
  Forall (fun x => f x = g x) l -> mbind f l = mbind g l.
Proof.
  induction 1 as [|x l Hx _ IH]; [reflexivity|].
  now rewrite !bind_cons, Hx, IH.
Qed.

Lemma frame_is_scan (g : grid) :
  rev (frame_rev g (Z.to_nat HEIGHT)) =
  scan (fun x y => DrawPixel x y (colour_of (cellv (next_grid g) x y))).
Proof.
  rewrite rev_frame_rev, Z2Nat.id by (rewrite HEIGHT_eq; lia).
  unfold scan. apply bind_ext_in, Forall_forall. intros y Hy.
  apply elem_of_seqZ in Hy.
  apply Forall_fmap_ext, Forall_forall. intros x Hx. apply elem_of_seqZ in Hx.
  unfold pixel. now rewrite next_grid_cell by lia.
Qed.

Lemma scan_length (f : Z -> Z -> event) :
  Z.of_nat (length (scan f)) = WIDTH * HEIGHT.
Proof.
  unfold scan.
  assert (H : forall l : list Z,
            Z.of_nat (length (mbind (fun y => (fun x => f x y) <$> seqZ 0 WIDTH) l)) =
            WIDTH * Z.of_nat (length l)).
  { induction l as [|y l IH]; [cbn; lia|].
    rewrite bind_cons, length_app, Nat2Z.inj_add, IH, length_fmap, length_seqZ.
    cbn [length]. rewrite WIDTH_eq. lia. }
  rewrite H, length_seqZ. rewrite HEIGHT_eq. reflexivity.
Qed.

Lemma scan_lookup (f : Z -> Z -> event) (x y : Z) :
  0 <= x < WIDTH -> 0 <= y < HEIGHT ->
  scan f !! Z.to_nat (y * WIDTH + x) = Some (f x y).
Proof.
  intros Hx Hy. unfold scan.
  assert (H : forall (n : nat) (lo : Z), 0 <= y - lo < Z.of_nat n ->
            mbind (fun y => (fun x => f x y) <$> seqZ 0 WIDTH) (seqZ lo (Z.of_nat n))
              !! Z.to_nat ((y - lo) * WIDTH + x) = Some (f x y)).
  { induction n as [|k IH]; intros lo Hlo; [lia|].
    rewrite Nat2Z.inj_succ, (seqZ_cons lo) by lia. rewrite bind_cons.
    replace (Z.pred (Z.succ (Z.of_nat k))) with (Z.of_nat k) by lia.
    destruct (Z.eq_dec y lo) as [->|Hne].
    - rewrite lookup_app_l by (rewrite length_fmap, length_seqZ; lia).
      rewrite list_lookup_fmap, Z.sub_diag, Z.mul_0_l, Z.add_0_l.
      rewrite lookup_seqZ_lt by lia. cbn [fmap option_fmap option_map].
      now rewrite Z.add_0_l, Z2Nat.id by lia.
    - rewrite lookup_app_r by (rewrite length_fmap, length_seqZ; nia).
      rewrite length_fmap, length_seqZ.
      replace (Z.to_nat ((y - lo) * WIDTH + x) - Z.to_nat WIDTH)%nat
        with (Z.to_nat ((y - Z.succ lo) * WIDTH + x)) by nia.
      apply IH. lia. }
  specialize (H (Z.to_nat HEIGHT) 0).
  rewrite Z2Nat.id, Z.sub_0_r in H by (rewrite HEIGHT_eq; lia).
  apply H. lia.
Qed.

Lemma loop_returns (ms : Z) (m : sim) (rnd : list Z) :
  sim_ok m -> draws_ok seeds 1 rnd ->
  exists m' rnd',
    loop ms m rnd = Some (m', rnd', cycle_trace ms m) /\
    sim_ok m' /\
    ((activity (next_grid (cur m)) < 327 /\ rnd' = drop 3 rnd /\
      exists ws, seed 1 (swap (after_pass m)) rnd = Some (m', rnd', ws)) \/
     (327 <= activity (next_grid (cur m)) /\ rnd' = rnd /\
      cur m' = next_grid (cur m))).
Proof.
  intros Hok Hdr. unfold loop. rewrite (loop_unfold seeds ms m rnd Hok).
  destruct (swap_after m Hok) as [Hok2 [Hc2 _]].
  destruct (Z.ltb_spec (activity (next_grid (cur m))) 327) as [Hlt|Hge].
  - destruct (seed_spec 1 (swap (after_pass m)) rnd Hok2 Hdr) as [m3 [Es [Hok3 _]]].
    change (3 * Z.to_nat 1)%nat with 3%nat in Es.
    exists m3, (drop 3 rnd). split; [|split; [exact Hok3|]].
    + unfold seed in Es. rewrite Es. reflexivity.
    + left. split; [exact Hlt|]. split; [reflexivity|]. eexists. exact Es.
  - exists (swap (after_pass m)), rnd. split; [reflexivity|]. split; [exact Hok2|].
    right. split; [exact Hge|]. split; [reflexivity | exact Hc2].
Qed.

(** X4. Every cycle draws each of the WIDTH x HEIGHT pixels exactly once, row
    by row from the top and left to right in each row, in the colour of the
    state just computed for that cell; then come the banner, only while
    [millis()] is below 10000, and a single [show()].  Cells changed by a
    reseed of the same cycle are not drawn before the next cycle. *)
Theorem frame_shows_computed_grid (ms : Z) (m : sim) (rnd : list Z) :
  sim_ok m -> draws_ok seeds 1 rnd ->
  exists m' rnd' out,
    loop ms m rnd = Some (m', rnd', out) /\
    rev out =
      scan (fun x y => DrawPixel x y (colour_of (cellv (next_grid (cur m)) x y)))
      ++ (if ms <? 10000 then rev (banner []) else []) ++ [ShowFrame] /\
    Z.of_nat (length out) = WIDTH * HEIGHT + (if ms <? 10000 then 6 else 0) + 1 /\
    forall x y, 0 <= x < WIDTH -> 0 <= y < HEIGHT ->
      rev out !! Z.to_nat (y * WIDTH + x) =
      Some (DrawPixel x y (colour_of (cellv (next_grid (cur m)) x y))).
Proof.
  intros Hok Hdr.
  destruct (loop_returns ms m rnd Hok Hdr) as [m' [rnd' [E _]]].
  eexists m', rnd', _. split; [exact E|].
  set (f := fun x y => DrawPixel x y (colour_of (cellv (next_grid (cur m)) x y))).
  assert (Hrev : rev (cycle_trace ms m) =
                 scan f ++ (if ms <? 10000 then rev (banner []) else []) ++ [ShowFrame]).
  { unfold cycle_trace. cbn [rev]. rewrite app_assoc. f_equal.
    destruct (ms <? 10000).
    - change (banner (frame_rev (cur m) (Z.to_nat HEIGHT)))
        with (banner [] ++ frame_rev (cur m) (Z.to_nat HEIGHT)).
      now rewrite rev_app_distr, frame_is_scan.
    - now rewrite app_nil_r, frame_is_scan. }
  split; [exact Hrev|]. split.
  - rewrite <- length_rev, Hrev, !length_app, !Nat2Z.inj_add, scan_length.
    destruct (ms <? 10000); reflexivity.
  - intros x y Hx Hy. rewrite Hrev.
    rewrite lookup_app_l; [now apply scan_lookup|].
    pose proof (scan_length f). nia.
Qed.

Lemma frame_shows_computed_grid_witness :
  sim_ok corner_block_state /\ draws_ok seeds 1 [20; 20; 0] /\
  exists m' rnd' out,
    loop 500 corner_block_state [20; 20; 0] = Some (m', rnd', out) /\
    Z.of_nat (length out) = WIDTH * HEIGHT + (if 500 <? 10000 then 6 else 0) + 1.
Proof.
  assert (H1 : sim_ok corner_block_state)
    by (apply sim_okb_sound; vm_compute; reflexivity).
  assert (H2 : draws_ok seeds 1 [20; 20; 0]) by (vm_compute; intuition congruence).
  split; [exact H1|]. split; [exact H2|].
  destruct (frame_shows_computed_grid 500 corner_block_state [20; 20; 0] H1 H2)
    as [m' [rnd' [out [E [_ [Hl _]]]]]].
  exists m', rnd', out. split; assumption.
Defined.

(** ** Translations of the torus *)

Lemma shift_cell (dx dy : Z) (g : grid) (x y : Z) :
  0 <= x < WIDTH -> 0 <= y < HEIGHT ->
  cellv (shift dx dy g) x y = cellv g ((x + dx) mod WIDTH) ((y + dy) mod HEIGHT).
Proof. intros Hx Hy. unfold shift. now rewrite tabulate_cell. Qed.

Lemma mod_shift_comm (n x d e : Z) :
  ((x + d) mod n + e) mod n = ((x + e) mod n + d) mod n.
Proof. rewrite !Zplus_mod_idemp_l. f_equal. lia. Qed.

Lemma torus_count_shift (dx dy : Z) (g : grid) (x y : Z) :
  torus_count (shift dx dy g) x y =
  torus_count g ((x + dx) mod WIDTH) ((y + dy) mod HEIGHT).
Proof.
  assert (HW : 0 < WIDTH) by (rewrite WIDTH_eq; lia).
  assert (HH : 0 < HEIGHT) by (rewrite HEIGHT_eq; lia).
  unfold torus_count, torus_ring. cbn [map fst snd].
  rewrite !shift_cell by (apply Z.mod_pos_bound; assumption).
  rewrite !(mod_shift_comm WIDTH x _ dx), !(mod_shift_comm HEIGHT y _ dy).
  reflexivity.
Qed.

Lemma shift_next (dx dy : Z) (g : grid) :
  next_grid (shift dx dy g) = shift dx dy (next_grid g).
Proof.
  assert (HW : 0 < WIDTH) by (rewrite WIDTH_eq; lia).
  assert (HH : 0 < HEIGHT) by (rewrite HEIGHT_eq; lia).
  apply grid_ext; [apply next_grid_dims | apply tabulate_dims |].
  intros x y Hx Hy.
  rewrite next_grid_cell, shift_cell by assumption.
  rewrite next_grid_cell by (apply Z.mod_pos_bound; assumption).
  unfold next_cell. now rewrite shift_cell, torus_count_shift by assumption.
Qed.

Lemma sum_upto_head (F : Z -> Z) (k : nat) :
  sum_upto F (Datatypes.S k) = F 0 + sum_upto (fun x => F (x + 1)) k.
Proof.
  induction k as [|k IH].
  - cbn [sum_upto]. change (Z.of_nat 0) with 0. lia.
  - change (sum_upto F (Datatypes.S (Datatypes.S k)))
      with (sum_upto F (Datatypes.S k) + F (Z.of_nat (Datatypes.S k))).
    rewrite IH. cbn [sum_upto].
    replace (Z.of_nat (Datatypes.S k)) with (Z.of_nat k + 1) by lia. lia.
Qed.

Lemma sum_upto_rotate1 (F : Z -> Z) (n : nat) :
  sum_upto (fun x => F ((x + 1) mod Z.of_nat n)) n = sum_upto F n.
Proof.
  destruct n as [|k]; [reflexivity|].
  rewrite (sum_upto_head F). cbn [sum_upto].
  replace ((Z.of_nat k + 1) mod Z.of_nat (Datatypes.S k)) with 0.
  2:{ replace (Z.of_nat k + 1) with (Z.of_nat (Datatypes.S k)) by lia.
      symmetry. apply Z_mod_same_full. }
  rewrite (sum_upto_ext _ (fun x => F (x + 1))); [lia|].
  intros i Hi. f_equal. apply Z.mod_small. lia.
Qed.

Lemma sum_upto_rotate (F : Z -> Z) (n : nat) (d : Z) :
  sum_upto (fun x => F ((x + d) mod Z.of_nat n)) n = sum_upto F n.
Proof.
  destruct n as [|k]; [reflexivity|]. set (n := Datatypes.S k).
  assert (Hn : 0 < Z.of_nat n) by (unfold n; lia).
  assert (H : forall e : nat,
            sum_upto (fun x => F ((x + Z.of_nat e) mod Z.of_nat n)) n = sum_upto F n).
  { induction e as [|e IH].
    - apply sum_upto_ext. intros i Hi. f_equal. rewrite Z.add_0_r.
      apply Z.mod_small. lia.
    - rewrite <- IH.
      rewrite <- (sum_upto_rotate1
                    (fun z => F ((z + Z.of_nat e) mod Z.of_nat n)) n).
      apply sum_upto_ext. intros i Hi. f_equal.
      rewrite Zplus_mod_idemp_l. f_equal. lia. }
  rewrite <- (H (Z.to_nat (d mod Z.of_nat n))).
  apply sum_upto_ext. intros i Hi. f_equal.
  rewrite Z2Nat.id by (apply Z.mod_pos_bound; exact Hn).
  now rewrite Zplus_mod_idemp_r.
Qed.

Lemma shift_activity (dx dy : Z) (g : grid) :
  dims g -> activity (shift dx dy g) = activity g.
Proof.
  intros Hd. unfold shift at 1.
  rewrite (activity_sum _ (tabulate_dims _)), (activity_sum g Hd).
  fold (shift dx dy g).
  rewrite (sum_upto_ext _
    (fun x => sum_upto (fun y => alive_of (cellv g ((x + dx) mod WIDTH)
                                                   ((y + dy) mod HEIGHT)))
                       (Z.to_nat HEIGHT))).
  2:{ intros x Hx. apply sum_upto_ext. intros y Hy. now rewrite shift_cell by lia. }
  rewrite (sum_upto_ext _
    (fun x => sum_upto (fun y => alive_of (cellv g ((x + dx) mod WIDTH) y))
                       (Z.to_nat HEIGHT))).
  2:{ intros x Hx.
      pose proof (sum_upto_rotate
                    (fun y => alive_of (cellv g ((x + dx) mod WIDTH) y))
                    (Z.to_nat HEIGHT) dy) as H.
      rewrite Z2Nat.id in H by (rewrite HEIGHT_eq; lia). exact H. }
  pose proof (sum_upto_rotate
                (fun x => sum_upto (fun y => alive_of (cellv g x y)) (Z.to_nat HEIGHT))
                (Z.to_nat WIDTH) dx) as H.
  rewrite Z2Nat.id in H by (rewrite WIDTH_eq; lia). exact H.
Qed.

Lemma shift_iter (dx dy : Z) (g : grid) (k : nat) :
  Nat.iter k next_grid (shift dx dy g) = shift dx dy (Nat.iter k next_grid g).
Proof.
  induction k as [|k IH]; [reflexivity|].
  rewrite !Nat.iter_succ, IH. apply shift_next.
Qed.

Lemma shift_full_turn (g : grid) : dims g -> shift WIDTH HEIGHT g = g.
Proof.
  intros Hd. apply grid_ext; [apply tabulate_dims | exact Hd |].
  intros x y Hx Hy. rewrite shift_cell by assumption.
  rewrite <- (Z.mul_1_l WIDTH) at 1. rewrite <- (Z.mul_1_l HEIGHT) at 1.
  rewrite !Z.mod_add by (rewrite ?WIDTH_eq, ?HEIGHT_eq; lia).
  now rewrite !Z.mod_small by lia.
Qed.

(** X5. The transition treats no cell differently from another: it commutes
    with every translation of the torus.  If one state's current grid is
    another's moved by [(dx, dy)] with wrap-around, then after one pass, and
    after any number of steps without the seeder, its grid is again the
    other's moved by [(dx, dy)], and the activity counts of the two passes
    are equal.  Moving by [(WIDTH, HEIGHT)] changes nothing. *)
Theorem transition_commutes_with_shift (dx dy : Z) (m1 m2 : sim) :
  sim_ok m1 -> sim_ok m2 -> cur m2 = shift dx dy (cur m1) ->
  (exists m1' m2' lc out1 out2,
     transition m1 = Some (m1', lc, out1) /\
     transition m2 = Some (m2', lc, out2) /\
     nxt m2' = shift dx dy (nxt m1')) /\
  (forall k, exists m1' m2' h1 h2,
     evolve k m1 = Some (m1', h1) /\ evolve k m2 = Some (m2', h2) /\
     cur m2' = shift dx dy (cur m1')) /\
  shift WIDTH HEIGHT (cur m1) = cur m1.
Proof.
  intros H1 H2 Hs.
  destruct (sim_ok_bufs m1 H1) as [_ [_ [[Hd1 _] _]]].
  split; [|split].
  - destruct (transition_ok m1 H1) as [m1' [o1 [E1 [_ [_ [Hn1 _]]]]]].
    destruct (transition_ok m2 H2) as [m2' [o2 [E2 [_ [_ [Hn2 _]]]]]].
    exists m1', m2', (lc_of (cur m1)), o1, o2. split; [exact E1|]. split.
    + rewrite E2. f_equal. f_equal. f_equal.
      rewrite !lc_of_activity, Hs, shift_next. apply shift_activity.
      apply next_grid_dims.
    + rewrite Hn1, Hn2, Hs. apply shift_next.
  - intros k.
    destruct (evolve_spec k m1 H1) as [m1' [E1 [_ Hk1]]].
    destruct (evolve_spec k m2 H2) as [m2' [E2 [_ Hk2]]].
    eexists m1', m2', _, _. split; [exact E1|]. split; [exact E2|].
    rewrite Hk1, Hk2, Hs. apply shift_iter.
  - now apply shift_full_turn.
Qed.

Lemma transition_commutes_with_shift_witness :
  sim_ok corner_block_state /\ sim_ok shifted_block_state /\
  cur shifted_block_state = shift 3 5 (cur corner_block_state) /\
  exists m1' m2' lc out1 out2,
    transition corner_block_state = Some (m1', lc, out1) /\
    transition shifted_block_state = Some (m2', lc, out2) /\
    nxt m2' = shift 3 5 (nxt m1').
Proof.
  assert (H1 : sim_ok corner_block_state)
    by (apply sim_okb_sound; vm_compute; reflexivity).
  assert (H2 : sim_ok shifted_block_state)
    by (apply sim_okb_sound; vm_compute; reflexivity).
  assert (H3 : cur shifted_block_state = shift 3 5 (cur corner_block_state))
    by reflexivity.
  split; [exact H1|]. split; [exact H2|]. split; [exact H3|].
  exact (proj1 (transition_commutes_with_shift 3 5 _ _ H1 H2 H3)).
Defined.

(** ** The life cycle of a cell *)

Lemma rules_life_cycle (s n : Z) :
  valid_state s -> 0 <= n <= 8 ->
  (next_of s n = 1 <-> alive_of s = 0 /\ (n = 3 \/ n = 6)) /\
  (next_of s n = 2 <-> alive_of s = 1 /\ (n = 2 \/ n = 3)) /\
  (next_of s n = 3 <-> alive_of s = 1 /\ n <> 2 /\ n <> 3) /\
  (next_of s n = 4 <-> (s = 3 /\ n <> 3 /\ n <> 6) \/ (s = 4 /\ n <= 1)) /\
  (next_of s n = 0 <->
     (s = 0 /\ n <> 3 /\ n <> 6) \/ (s = 4 /\ 2 <= n /\ n <> 3 /\ n <> 6)).
Proof.
  intros Hs Hn. apply valid_state_cases in Hs.
  assert (Hn' : n = 0 \/ n = 1 \/ n = 2 \/ n = 3 \/ n = 4 \/ n = 5 \/
                n = 6 \/ n = 7 \/ n = 8) by lia.
  destruct Hs as [->|[->|[->|[->| ->]]]];
    destruct Hn' as [->|[->|[->|[->|[->|[->|[->|[->| ->]]]]]]]];
    cbv; intuition congruence.
Qed.

(** X6. What the five states mean after a pass, for every cell: it is Born
    (1) exactly if it was not alive and had 3 or 6 live neighbours; Survived
    (2) exactly if it was alive (Born or Survived) and had 2 or 3; Dying (3)
    exactly if it was alive and had neither; Trail (4) exactly if it was
    Dying and is not born, or was Trail with at most one live neighbour;
    Dead (0) exactly if it was Dead and is not born, or was Trail with two or
    more live neighbours and is not born. *)
Theorem cell_life_cycle (m : sim) (x y : Z) :
  sim_ok m -> 0 <= x < WIDTH -> 0 <= y < HEIGHT ->
  exists m' lc out,
    transition m = Some (m', lc, out) /\
    (cellv (nxt m') x y = 1 <->
       alive_of (cellv (cur m) x y) = 0 /\
       (torus_count (cur m) x y = 3 \/ torus_count (cur m) x y = 6)) /\
    (cellv (nxt m') x y = 2 <->
       alive_of (cellv (cur m) x y) = 1 /\
       (torus_count (cur m) x y = 2 \/ torus_count (cur m) x y = 3)) /\
    (cellv (nxt m') x y = 3 <->
       alive_of (cellv (cur m) x y) = 1 /\
       torus_count (cur m) x y <> 2 /\ torus_count (cur m) x y <> 3) /\
    (cellv (nxt m') x y = 4 <->
       (cellv (cur m) x y = 3 /\
        torus_count (cur m) x y <> 3 /\ torus_count (cur m) x y <> 6) \/
       (cellv (cur m) x y = 4 /\ torus_count (cur m) x y <= 1)) /\
    (cellv (nxt m') x y = 0 <->
       (cellv (cur m) x y = 0 /\
        torus_count (cur m) x y <> 3 /\ torus_count (cur m) x y <> 6) \/
       (cellv (cur m) x y = 4 /\ 2 <= torus_count (cur m) x y /\
        torus_count (cur m) x y <> 3 /\ torus_count (cur m) x y <> 6)).
Proof.
  intros Hok Hx Hy.
  destruct (transition_ok m Hok) as [m' [out [E [_ [_ [Hn _]]]]]].
  destruct (sim_ok_bufs m Hok) as [_ [_ [[_ Hv] _]]].
  eexists _, _, _. split; [exact E|].
  rewrite Hn, next_grid_cell by assumption. unfold next_cell.
  apply rules_life_cycle; [now apply Hv | apply torus_count_bounds].
Qed.

Lemma cell_life_cycle_witness :
  sim_ok corner_block_state /\ 0 <= 0 < WIDTH /\ 0 <= 63 < HEIGHT /\
  exists m' lc out,
    transition corner_block_state = Some (m', lc, out) /\
    (cellv (nxt m') 0 63 = 2 <->
       alive_of (cellv (cur corner_block_state) 0 63) = 1 /\
       (torus_count (cur corner_block_state) 0 63 = 2 \/
        torus_count (cur corner_block_state) 0 63 = 3)).
Proof.
  assert (H1 : sim_ok corner_block_state)
    by (apply sim_okb_sound; vm_compute; reflexivity).
  assert (H2 : 0 <= 0 < WIDTH) by (unfold WIDTH; lia).
  assert (H3 : 0 <= 63 < HEIGHT) by (unfold HEIGHT; lia).
  split; [exact H1|]. split; [exact H2|]. split; [exact H3|].
  destruct (cell_life_cycle corner_block_state 0 63 H1 H2 H3)
    as [m' [lc [out [E [_ [Hs _]]]]]].
  exists m', lc, out. split; assumption.
Defined.

(** ** Many generations of Highlife *)

Lemma project_iter (g : grid) (k : nat) :
  grid_ok g ->
  grid_ok (Nat.iter k next_grid g) /\
  project (Nat.iter k next_grid g) = Nat.iter k highlife_step (project g).
Proof.
  intros Hg. induction k as [|k [IH1 IH2]]; [split; [exact Hg | reflexivity]|].
  rewrite !Nat.iter_succ. split; [now apply next_grid_ok|].
  now rewrite project_next, IH2.
Qed.

(** X7. The refinement of two-state B36/S23 holds over any number of
    generations: after [k] steps without the seeder the alive-flag
    projection of the current grid is the [k]-th iterate of the two-state
    step on the projection of the starting grid. *)
Theorem evolve_refines_highlife (m : sim) (k : nat) :
  sim_ok m ->
  exists mk h,
    evolve k m = Some (mk, h) /\ length h = k /\
    project (cur mk) = Nat.iter k highlife_step (project (cur m)).
Proof.
  intros Hok.
  destruct (evolve_spec k m Hok) as [mk [E [_ Hk]]].
  destruct (sim_ok_bufs m Hok) as [_ [_ [Hgc _]]].
  exists mk, (history k (cur m)). split; [exact E|]. split.
  - clear. generalize (cur m). induction k as [|k IH]; intros g; [reflexivity|].
    cbn [history length]. now rewrite IH.
  - rewrite Hk. now apply project_iter.
Qed.

Lemma evolve_refines_highlife_witness :
  sim_ok shifted_block_state /\
  exists mk h,
    evolve 3 shifted_block_state = Some (mk, h) /\ length h = 3%nat /\
    project (cur mk) = Nat.iter 3 highlife_step (project (cur shifted_block_state)).
Proof.
  assert (H1 : sim_ok shifted_block_state)
    by (apply sim_okb_sound; vm_compute; reflexivity).
  split; [exact H1|]. exact (evolve_refines_highlife shifted_block_state 3 H1).
Defined.

(** ** Bounds and extinction *)

Lemma sum_upto_bounds (f : Z -> Z) (lo hi : Z) (n : nat) :
  (forall i, 0 <= i < Z.of_nat n -> lo <= f i <= hi) ->
  Z.of_nat n * lo <= sum_upto f n <= Z.of_nat n * hi.
Proof.
  induction n as [|k IH]; intros H; [cbn; lia|].
  cbn [sum_upto]. specialize (H (Z.of_nat k)) as Hk.
  assert (Hrec : Z.of_nat k * lo <= sum_upto f k <= Z.of_nat k * hi)
    by (apply IH; intros i Hi; apply H; lia).
  lia.
Qed.

Lemma sum_upto_le (f g : Z -> Z) (n : nat) :
  (forall i, 0 <= i < Z.of_nat n -> f i <= g i) -> sum_upto f n <= sum_upto g n.
Proof.
  induction n as [|k IH]; intros H; [reflexivity|].
  cbn [sum_upto]. specialize (H (Z.of_nat k)) as Hk.
  assert (Hrec : sum_upto f k <= sum_upto g k)
    by (apply IH; intros i Hi; apply H; lia).
  lia.
Qed.

Lemma sum_upto_zero_inv (f : Z -> Z) (n : nat) :
  (forall i, 0 <= i < Z.of_nat n -> 0 <= f i) -> sum_upto f n = 0 ->
  forall i, 0 <= i < Z.of_nat n -> f i = 0.
Proof.
  induction n as [|k IH]; intros Hpos Hsum i Hi; [lia|].
  cbn [sum_upto] in Hsum.
  assert (H0 : 0 <= sum_upto f k).
  { rewrite <- (sum_upto_zero k). apply sum_upto_le.
    intros j Hj. apply Hpos. lia. }
  pose proof (Hpos (Z.of_nat k)) as Hk.
  destruct (Z.eq_dec i (Z.of_nat k)) as [->|Hne]; [lia|].
  apply IH; try lia. intros j Hj. apply Hpos. lia.
Qed.

Lemma activity_bounds (g : grid) : dims g -> 0 <= activity g <= WIDTH * HEIGHT.
Proof.
  intros Hd. rewrite (activity_sum g Hd).
  pose proof (sum_upto_bounds
    (fun x => sum_upto (fun y => alive_of (cellv g x y)) (Z.to_nat HEIGHT))
    0 HEIGHT (Z.to_nat WIDTH)) as H.
  rewrite Z2Nat.id in H by (rewrite WIDTH_eq; lia).
  rewrite Z.mul_0_r in H. apply H. intros x Hx.
  pose proof (sum_upto_bounds (fun y => alive_of (cellv g x y)) 0 1
                              (Z.to_nat HEIGHT)) as Hy.
  rewrite Z2Nat.id in Hy by (rewrite HEIGHT_eq; lia).
  rewrite Z.mul_0_r, Z.mul_1_r in Hy. apply Hy. intros y _.
  destruct (alive_of_bit (cellv g x y)) as [E|E]; rewrite E; lia.
Qed.

Lemma activity_zero_cells (g : grid) :
  dims g -> activity g = 0 ->
  forall x y, 0 <= x < WIDTH -> 0 <= y < HEIGHT -> alive_of (cellv g x y) = 0.
Proof.
  intros Hd Ha x y Hx Hy. rewrite (activity_sum g Hd) in Ha.
  assert (Hnn : forall u v, 0 <= alive_of (cellv g u v)).
  { intros u v. destruct (alive_of_bit (cellv g u v)) as [E|E]; rewrite E; lia. }
  assert (Hrow : sum_upto (fun v => alive_of (cellv g x v)) (Z.to_nat HEIGHT) = 0).
  { pose proof (sum_upto_zero_inv
                  (fun u => sum_upto (fun v => alive_of (cellv g u v)) (Z.to_nat HEIGHT))
                  (Z.to_nat WIDTH)) as Hz.
    cbn beta in Hz. apply Hz; [|exact Ha | lia].
    intros u _.
    pose proof (sum_upto_bounds (fun v => alive_of (cellv g u v)) 0 1
                                (Z.to_nat HEIGHT)) as Hb.
    rewrite Z.mul_0_r in Hb. apply Hb. intros v _.
    destruct (alive_of_bit (cellv g u v)) as [E|E]; rewrite E; lia. }
  pose proof (sum_upto_zero_inv (fun v => alive_of (cellv g x v)) (Z.to_nat HEIGHT)
                (fun v _ => Hnn x v) Hrow) as Hz.
  cbn beta in Hz. apply Hz. lia.
Qed.

Lemma activity_le (g g' : grid) :
  dims g -> dims g' ->
  (forall x y, 0 <= x < WIDTH -> 0 <= y < HEIGHT ->
     alive_of (cellv g x y) <= alive_of (cellv g' x y)) ->
  activity g <= activity g'.
Proof.
  intros Hd Hd' H. rewrite (activity_sum g Hd), (activity_sum g' Hd').
  apply sum_upto_le. intros x Hx. apply sum_upto_le. intros y Hy.
  apply H; lia.
Qed.

(** X8. The activity accumulator of a pass is the number of live cells of the
    grid it computes and lies between 0 and WIDTH*HEIGHT = 8192, below 2^15:
    it cannot overflow an [int], whatever the grid. *)
Theorem activity_count_in_range (m : sim) :
  sim_ok m ->
  exists m' lc out,
    transition m = Some (m', lc, out) /\
    lc = activity (nxt m') /\ 0 <= lc <= WIDTH * HEIGHT /\
    WIDTH * HEIGHT < 2 ^ 15.
Proof.
  intros Hok.
  destruct (transition_ok m Hok) as [m' [out [E [_ [_ [Hn _]]]]]].
  eexists _, _, _. split; [exact E|].
  rewrite lc_of_activity, Hn. split; [reflexivity|]. split.
  - apply activity_bounds, next_grid_dims.
  - reflexivity.
Qed.

Lemma activity_count_in_range_witness :
  sim_ok shifted_block_state /\
  exists m' lc out,
    transition shifted_block_state = Some (m', lc, out) /\
    lc = activity (nxt m') /\ 0 <= lc <= WIDTH * HEIGHT /\ WIDTH * HEIGHT < 2 ^ 15.
Proof.
  assert (H1 : sim_ok shifted_block_state)
    by (apply sim_okb_sound; vm_compute; reflexivity).
  split; [exact H1|]. exact (activity_count_in_range shifted_block_state H1).
Defined.

Lemma torus_count_extinct (g : grid) (x y : Z) :
  dims g -> activity g = 0 -> torus_count g x y = 0.
Proof.
  intros Hd Ha.
  assert (HW : 0 < WIDTH) by (rewrite WIDTH_eq; lia).
  assert (HH : 0 < HEIGHT) by (rewrite HEIGHT_eq; lia).
  unfold torus_count, torus_ring, sum_list_Z. cbn [map foldr fst snd].
  rewrite !(activity_zero_cells g Hd Ha)
    by (apply Z.mod_pos_bound; assumption).
  reflexivity.
Qed.

(** X9. Nothing is born from nothing: if no cell of the current grid is
    alive, the pass computes a grid without a live cell and an activity
    count of 0; Dead cells stay Dead, Dying and Trail cells are Trail (a
    trail does not fade while nothing lives around it); and the cycle
    reseeds. *)
Theorem extinct_grid_stays_extinct (ms : Z) (m : sim) (rnd : list Z) :
  sim_ok m -> activity (cur m) = 0 ->
  exists m1 out,
    transition m = Some (m1, 0, out) /\
    activity (nxt m1) = 0 /\
    (forall x y, 0 <= x < WIDTH -> 0 <= y < HEIGHT ->
       cellv (nxt m1) x y = if cellv (cur m) x y =? 0 then 0 else 4) /\
    loop ms m rnd =
      ('(m3, rnd', _) <- seed 1 (swap m1) rnd ;;
       Some (m3, rnd', ShowFrame :: (if ms <? 10000 then banner out else out))).
Proof.
  intros Hok Ha.
  destruct (sim_ok_bufs m Hok) as [_ [_ [[Hd Hv] _]]].
  destruct (loop_spec seeds ms m rnd Hok) as [m1 [out [E [Hok1 [Hn Hloop]]]]].
  assert (Hcells : forall x y, 0 <= x < WIDTH -> 0 <= y < HEIGHT ->
            cellv (nxt m1) x y = if cellv (cur m) x y =? 0 then 0 else 4).
  { intros x y Hx Hy. rewrite Hn, next_grid_cell by assumption.
    unfold next_cell. rewrite (torus_count_extinct _ x y Hd Ha).
    pose proof (activity_zero_cells _ Hd Ha x y Hx Hy) as H0.
    pose proof (Hv x y Hx Hy) as Hs. apply valid_state_cases in Hs.
    destruct Hs as [Es|[Es|[Es|[Es|Es]]]]; rewrite Es in *;
      try reflexivity; discriminate. }
  assert (Hact : activity (nxt m1) = 0).
  { destruct (sim_ok_bufs m1 Hok1) as [_ [_ [_ [[Hdn _] _]]]].
    rewrite (activity_sum _ Hdn).
    rewrite (sum_upto_ext _ (fun _ => 0)); [apply sum_upto_zero|].
    intros x Hx. rewrite (sum_upto_ext _ (fun _ => 0)); [apply sum_upto_zero|].
    intros y Hy. rewrite Hcells by lia.
    now destruct (cellv (cur m) x y =? 0). }
  rewrite Hact in E, Hloop. exists m1, out.
  split; [exact E|]. split; [exact Hact|]. split; [exact Hcells|]. exact Hloop.
Qed.

Lemma extinct_grid_stays_extinct_witness :
  sim_ok init /\ activity (cur init) = 0 /\
  exists m1 out, transition init = Some (m1, 0, out) /\ activity (nxt m1) = 0.
Proof.
  assert (H1 : sim_ok init) by (apply sim_okb_sound; vm_compute; reflexivity).
  assert (H2 : activity (cur init) = 0) by (vm_compute; reflexivity).
  split; [exact H1|]. split; [exact H2|].
  destruct (extinct_grid_stays_extinct 0 init [] H1 H2) as [m1 [out [E [Ha _]]]].
  exists m1, out. split; assumption.
Defined.

(** ** Seeding adds life *)

Lemma row_marks_elem (sd : shape) (px py y : Z) (n : nat) (a b : Z) :
  (a, b) ∈ row_marks sd px py y n -> 0 <= a - px < Z.of_nat n /\ b = py + y.
Proof.
  induction n as [|k IH]; cbn [row_marks]; [now rewrite elem_of_nil|].
  rewrite elem_of_app. intros [H|H].
  - destruct (mask_at sd (Z.of_nat k) y); [|now apply elem_of_nil in H].
    apply list_elem_of_singleton in H. injection H as -> ->. lia.
  - apply IH in H. lia.
Qed.

Lemma row_marks_NoDup (sd : shape) (px py y : Z) (n : nat) :
  NoDup (row_marks sd px py y n).
Proof.
  induction n as [|k IH]; cbn [row_marks]; [apply NoDup_nil_2|].
  destruct (mask_at sd (Z.of_nat k) y); [|exact IH].
  cbn [app]. apply NoDup_cons. split; [|exact IH].
  intros H. apply row_marks_elem in H. lia.
Qed.

Lemma shape_marks_elem (sd : shape) (px py : Z) (rows : nat) (a b : Z) :
  (a, b) ∈ shape_marks sd px py rows -> 0 <= b - py < Z.of_nat rows.
Proof.
  induction rows as [|k IH]; cbn [shape_marks]; [now rewrite elem_of_nil|].
  rewrite elem_of_app. intros [H|H].
  - apply row_marks_elem in H. lia.
  - apply IH in H. lia.
Qed.

Lemma shape_marks_NoDup (sd : shape) (px py : Z) (rows : nat) :
  NoDup (shape_marks sd px py rows).
Proof.
  induction rows as [|k IH]; cbn [shape_marks]; [apply NoDup_nil_2|].
  apply NoDup_app. split; [apply row_marks_NoDup|]. split; [|exact IH].
  intros [a b] H1 H2. apply row_marks_elem in H1. apply shape_marks_elem in H2. lia.
Qed.

Lemma shape_marks_length (sd : shape) (px py : Z) (rows : nat) :
  length (shape_marks sd px py rows) = length (shape_marks sd 0 0 rows).
Proof.
  induction rows as [|k IH]; [reflexivity|].
  cbn [shape_marks]. rewrite !length_app, IH. f_equal.
  generalize (Z.to_nat (width sd)). intros n.
  induction n as [|j IHn]; [reflexivity|].
  cbn [row_marks]. rewrite !length_app, IHn.
  now destruct (mask_at sd (Z.of_nat j) (Z.of_nat k)).
Qed.

(** Every shape of the selection list has at least five cells set. *)
Lemma seeds_cell_counts :
  Forall (fun sd => (5 <= length (shape_marks sd 0 0 (Z.to_nat (height sd))))%nat)
         seeds.
Proof.
  unfold seeds.
  repeat (apply Forall_cons_2; [vm_compute; lia|]). apply Forall_nil_2.
Qed.

Lemma covers_count (sd : shape) (px py : Z) (g : grid) :
  shape_wf sd -> fits sd px py -> dims g ->
  (forall x y, 0 <= x < WIDTH -> 0 <= y < HEIGHT ->
     covers sd px py x y = true -> alive_of (cellv g x y) = 1) ->
  Z.of_nat (length (shape_marks sd 0 0 (Z.to_nat (height sd)))) <= activity g.
Proof.
  intros [Hw [Hh _]] [Hf1 [Hf2 [Hf3 Hf4]]] Hd Hcov.
  set (gs := tabulate (fun x y => if covers sd px py x y then 2 else 0)).
  assert (Hgs : activity gs =
                Z.of_nat (length (shape_marks sd px py (Z.to_nat (height sd))))).
  { apply activity_points.
    - apply tabulate_dims.
    - apply shape_marks_NoDup.
    - apply Forall_forall. intros [a b] Hin. cbn [fst snd].
      apply (marks_covers sd px py a b Hw Hh) in Hin. unfold covers in Hin.
      rewrite !andb_true_iff, !Z.leb_le, !Z.ltb_lt in Hin. lia.
    - intros x y Hx Hy. unfold gs. rewrite tabulate_cell by assumption.
      pose proof (marks_covers sd px py x y Hw Hh) as Hiff.
      destruct (covers sd px py x y).
      + rewrite bool_decide_eq_true_2; [reflexivity | now apply Hiff].
      + rewrite bool_decide_eq_false_2; [reflexivity|].
        intros H. apply Hiff in H. discriminate. }
  rewrite <- (shape_marks_length sd px py), <- Hgs.
  apply activity_le; [apply tabulate_dims | exact Hd |].
  intros x y Hx Hy. unfold gs. rewrite tabulate_cell by assumption.
  destruct (covers sd px py x y) eqn:Ec.
  - rewrite (Hcov x y Hx Hy Ec). reflexivity.
  - change (alive_of 0) with 0.
    destruct (alive_of_bit (cellv g x y)) as [E|E]; rewrite E; lia.
Qed.

Lemma seed_adds_life (n : Z) (m m' : sim) (rnd rnd' : list Z) (ws : list (Z * Z)) :
  sim_ok m -> draws_ok seeds (Z.to_nat n) rnd ->
  seed n m rnd = Some (m', rnd', ws) ->
  (forall x y, 0 <= x < WIDTH -> 0 <= y < HEIGHT ->
     alive_of (cellv (cur m) x y) <= alive_of (cellv (cur m') x y)) /\
  activity (cur m) <= activity (cur m') /\
  (1 <= n -> 5 <= activity (cur m')).
Proof.
  intros Hok Hdr E.
  destruct (seed_spec n m rnd Hok Hdr) as [m1 [E1 [Hok1 [_ [_ [_ Hcells]]]]]].
  rewrite E1 in E. injection E as -> _ _.
  destruct (sim_ok_bufs m Hok) as [_ [_ [[Hd _] _]]].
  destruct (sim_ok_bufs m' Hok1) as [_ [_ [[Hd' _] _]]].
  assert (Hmono : forall x y, 0 <= x < WIDTH -> 0 <= y < HEIGHT ->
            alive_of (cellv (cur m) x y) <= alive_of (cellv (cur m') x y)).
  { intros x y Hx Hy. rewrite Hcells.
    destruct (seeded seeds (Z.to_nat n) rnd x y); [|reflexivity].
    change (alive_of 2) with 1.
    destruct (alive_of_bit (cellv (cur m) x y)) as [Ea|Ea]; rewrite Ea; lia. }
  split; [exact Hmono|]. split; [now apply activity_le|].
  intros Hn. destruct (Z.to_nat n) as [|k] eqn:Ek; [lia|].
  destruct rnd as [|px [|py [|s rest]]]; try contradiction.
  destruct Hdr as [Hpx [Hpy [Hs _]]].
  destruct (lib_fits_lookup seeds s px py seeds_fit Hs Hpx Hpy)
    as [sd [Esd [Hwf Hfit]]].
  pose proof seeds_cell_counts as Hcnt. rewrite Forall_lookup in Hcnt.
  pose proof (Hcnt _ _ (proj2 (proj1 (idx_Some _ _ _) Esd))) as H5. cbn beta in H5.
  pose proof (covers_count sd px py (cur m') Hwf Hfit Hd') as Hc.
  assert (Hlow : Z.of_nat (length (shape_marks sd 0 0 (Z.to_nat (height sd))))
                 <= activity (cur m')); [|lia].
  apply Hc. intros x y Hx Hy Hcov. rewrite Hcells. cbn [seeded].
  rewrite Esd, Hcov. reflexivity.
Qed.

(** X10. The seeder only adds life: a well-formed call of [seed(n)] turns no
    live cell into a dead one, so the number of live cells of the current
    grid does not decrease, and for [n >= 1] the grid then has at least five
    live cells, the size of the smallest shapes of the list. *)
Theorem seed_only_adds_life (n : Z) (m : sim) (rnd : list Z) :
  sim_ok m -> draws_ok seeds (Z.to_nat n) rnd ->
  exists m' rnd' ws,
    seed n m rnd = Some (m', rnd', ws) /\
    (forall x y, 0 <= x < WIDTH -> 0 <= y < HEIGHT ->
       alive_of (cellv (cur m) x y) = 1 -> alive_of (cellv (cur m') x y) = 1) /\
    activity (cur m) <= activity (cur m') /\
    (1 <= n -> 5 <= activity (cur m')).
Proof.
  intros Hok Hdr.
  destruct (seed_spec n m rnd Hok Hdr) as [m' [E _]].
  destruct (seed_adds_life n m m' rnd _ _ Hok Hdr E) as [Hmono [Hle H5]].
  eexists _, _, _. split; [exact E|]. split; [|split; assumption].
  intros x y Hx Hy Ha. specialize (Hmono x y Hx Hy).
  destruct (alive_of_bit (cellv (cur m') x y)) as [E'|E']; lia.
Qed.

Lemma seed_only_adds_life_witness :
  sim_ok corner_block_state /\ draws_ok seeds (Z.to_nat 2) [117; 53; 6; 10; 10; 9] /\
  exists m' rnd' ws,
    seed 2 corner_block_state [117; 53; 6; 10; 10; 9] = Some (m', rnd', ws) /\
    activity (cur corner_block_state) <= activity (cur m').
Proof.
  assert (H1 : sim_ok corner_block_state)
    by (apply sim_okb_sound; vm_compute; reflexivity).
  assert (H2 : draws_ok seeds (Z.to_nat 2) [117; 53; 6; 10; 10; 9])
    by (vm_compute; intuition congruence).
  split; [exact H1|]. split; [exact H2|].
  destruct (seed_only_adds_life 2 corner_block_state _ H1 H2)
    as [m' [rnd' [ws [E [_ [Hle _]]]]]].
  exists m', rnd', ws. split; assumption.
Defined.

(** X11. After every cycle the current grid has at least five live cells:
    either the pass left 327 or more, or the cycle reseeded.  The grid the
    next cycle starts from is never empty. *)
Theorem cycle_leaves_life (ms : Z) (m : sim) (rnd : list Z) :
  sim_ok m -> draws_ok seeds 1 rnd ->
  exists m' rnd' out,
    loop ms m rnd = Some (m', rnd', out) /\ 5 <= activity (cur m').
Proof.
  intros Hok Hdr.
  destruct (loop_returns ms m rnd Hok Hdr) as [m' [rnd' [E [Hok' Hcase]]]].
  eexists _, _, _. split; [exact E|].
  destruct Hcase as [[_ [_ [ws Es]]]|[Hge [_ Hc]]].
  - apply (seed_adds_life 1 _ m' rnd _ _ (proj1 (swap_after m Hok)) Hdr Es). lia.
  - rewrite Hc. lia.
Qed.

Lemma cycle_leaves_life_witness :
  sim_ok init /\ draws_ok seeds 1 [20; 20; 7] /\
  exists m' rnd' out,
    loop 0 init [20; 20; 7] = Some (m', rnd', out) /\ 5 <= activity (cur m').
Proof.
  assert (H1 : sim_ok init) by (apply sim_okb_sound; vm_compute; reflexivity).
  assert (H2 : draws_ok seeds 1 [20; 20; 7]) by (vm_compute; intuition congruence).
  split; [exact H1|]. split; [exact H2|].
  exact (cycle_leaves_life 0 init [20; 20; 7] H1 H2).
Defined.

(** ** Seeding in two calls *)

Lemma for_split {S : Type} (body : Z -> S -> option S) (a b : nat) :
  forall (lo : Z) (s : S),
    for_ lo (a + b) body s =
    (s' <- for_ lo a body s ;; for_ (lo + Z.of_nat a) b body s').
Proof.
  induction a as [|a IH]; intros lo s.
  - cbn [for_ bind Nat.add]. now rewrite Z.add_0_r.
  - cbn [for_ Nat.add]. destruct (body lo s) as [s1|]; cbn [bind]; [|reflexivity].
    rewrite IH. now replace (lo + 1 + Z.of_nat a) with (lo + Z.of_nat (Datatypes.S a)) by lia.
Qed.

Lemma for_start {S : Type} (f : S -> option S) (cnt : nat) :
  forall (lo lo' : Z) (s : S),
    for_ lo cnt (fun _ => f) s = for_ lo' cnt (fun _ => f) s.
Proof.
  induction cnt as [|k IH]; intros lo lo' s; [reflexivity|].
  cbn [for_]. destruct (f s) as [s1|]; cbn [bind]; [apply IH | reflexivity].
Qed.

(** A loop commutes with a change of the state its body commutes with. *)
Lemma for_map {S : Type} (phi : S -> S) (body : Z -> S -> option S) :
  (forall i s, body i (phi s) = phi <$> body i s) ->
  forall (cnt : nat) (lo : Z) (s : S),
    for_ lo cnt body (phi s) = phi <$> for_ lo cnt body s.
Proof.
  intros H. induction cnt as [|k IH]; intros lo s; [reflexivity|].
  cbn [for_]. rewrite H. destruct (body lo s) as [s1|]; cbn; [apply IH | reflexivity].
Qed.

Lemma for_upto_map {S : Type} (phi : S -> S) (body : Z -> S -> option S) :
  (forall i s, body i (phi s) = phi <$> body i s) ->
  forall (hi : Z) (s : S),
    for_upto hi body (phi s) = phi <$> for_upto hi body s.
Proof. intros H hi s. unfold for_upto. now apply for_map. Qed.

Lemma stamp_log (sd : shape) (px py : Z) (m : sim) (ws w0 : list (Z * Z)) :
  stamp sd px py m (ws ++ w0) =
  (fun r : sim * list (Z * Z) => (fst r, snd r ++ w0)) <$> stamp sd px py m ws.
Proof.
  set (phi := fun a : sim * Z * list (Z * Z) =>
                (fst (fst a), snd (fst a), snd a ++ w0)).
  assert (Hcell : forall x y a,
            stamp_cell sd px py x y (phi a) = phi <$> stamp_cell sd px py x y a).
  { intros x y [[m1 i] w]. unfold phi, stamp_cell. cbn [fst snd].
    destruct (char_at (shape_ sd) i) as [c|]; cbn [bind]; [|reflexivity].
    destruct (Ascii.eqb c "1"%char); [|reflexivity].
    destruct (set (state m1) (now m1) (px + x) (py + y) 2); reflexivity. }
  assert (Hrow : forall y a,
            for_upto (width sd) (fun x => stamp_cell sd px py x y) (phi a) =
            phi <$> for_upto (width sd) (fun x => stamp_cell sd px py x y) a).
  { intros y a. apply for_upto_map. intros x s. apply Hcell. }
  unfold stamp.
  change (m, 0, ws ++ w0) with (phi (m, 0, ws)).
  rewrite (for_upto_map phi _ Hrow).
  match goal with
  | |- context [for_upto ?h ?b ?s] =>
      destruct (for_upto h b s) as [[[m1 i] w]|]; reflexivity
  end.
Qed.

Lemma seed_once_log (lib : list shape) (m : sim) (rnd : list Z)
    (ws w0 : list (Z * Z)) :
  seed_once lib (m, rnd, ws ++ w0) =
  (fun a : sim * list Z * list (Z * Z) => (fst (fst a), snd (fst a), snd a ++ w0))
    <$> seed_once lib (m, rnd, ws).
Proof.
  unfold seed_once.
  destruct rnd as [|px [|py [|s rest]]]; try reflexivity. cbn [random bind].
  destruct (idx lib s) as [sd|]; cbn [bind]; [|reflexivity].
  rewrite stamp_log.
  destruct (stamp sd px py m ws) as [[m1 w]|]; reflexivity.
Qed.

(** X12. Seeding composes: [seed(n1 + n2)] is [seed(n1)] followed by
    [seed(n2)] on the state and the random source the first call leaves, and
    it fails exactly when one of the two does; the cells written are those
    of the two calls. *)
Theorem seed_composes (n1 n2 : Z) (m : sim) (rnd : list Z) :
  0 <= n1 -> 0 <= n2 ->
  seed (n1 + n2) m rnd =
  ('(m1, r1, w1) <- seed n1 m rnd ;;
   '(m2, r2, w2) <- seed n2 m1 r1 ;;
   Some (m2, r2, w2 ++ w1)).
Proof.
  intros H1 H2. unfold seed, seed_with, for_upto.
  rewrite Z2Nat.inj_add, for_split by assumption.
  destruct (for_ 0 (Z.to_nat n1) (fun _ => seed_once seeds) (m, rnd, []))
    as [[[m1 r1] w1]|]; cbn [bind]; [|reflexivity].
  rewrite (for_start _ _ _ 0).
  set (phi := fun a : sim * list Z * list (Z * Z) =>
                (fst (fst a), snd (fst a), snd a ++ w1)).
  change (m1, r1, w1) with (phi (m1, r1, [])).
  rewrite (for_map phi (fun _ => seed_once seeds)).
  - destruct (for_ 0 (Z.to_nat n2) (fun _ => seed_once seeds) (m1, r1, []))
      as [[[m2 r2] w2]|]; reflexivity.
  - intros _ [[m0 r0] w0]. unfold phi. cbn [fst snd]. apply seed_once_log.
Qed.

Lemma seed_composes_witness :
  0 <= 1 /\ 0 <= 2 /\
  seed (1 + 2) init [20; 20; 0; 60; 30; 5; 100; 40; 12] =
  ('(m1, r1, w1) <- seed 1 init [20; 20; 0; 60; 30; 5; 100; 40; 12] ;;
   '(m2, r2, w2) <- seed 2 m1 r1 ;;
   Some (m2, r2, w2 ++ w1)).
Proof.
  assert (H1 : 0 <= 1) by lia. assert (H2 : 0 <= 2) by lia.
  split; [exact H1|]. split; [exact H2|].
  exact (seed_composes 1 2 init _ H1 H2).
Defined.

(** ** Gliders *)

Lemma shift_shift (a b c d : Z) (g : grid) :
  shift a b (shift c d g) = shift (a + c) (b + d) g.
Proof.
  assert (HW : 0 < WIDTH) by (rewrite WIDTH_eq; lia).
  assert (HH : 0 < HEIGHT) by (rewrite HEIGHT_eq; lia).
  apply grid_ext; [apply tabulate_dims | apply tabulate_dims |].
  intros x y Hx Hy. rewrite (shift_cell a b) by assumption.
  rewrite !shift_cell by (try assumption; apply Z.mod_pos_bound; assumption).
  rewrite !Zplus_mod_idemp_l. f_equal; f_equal; lia.
Qed.

Lemma shift_ok (dx dy : Z) (g : grid) : grid_ok g -> grid_ok (shift dx dy g).
Proof.
  assert (HW : 0 < WIDTH) by (rewrite WIDTH_eq; lia).
  assert (HH : 0 < HEIGHT) by (rewrite HEIGHT_eq; lia).
  intros [_ Hv]. split; [apply tabulate_dims|].
  intros x y Hx Hy. rewrite shift_cell by assumption.
  apply Hv; apply Z.mod_pos_bound; assumption.
Qed.

Lemma project_shift (dx dy : Z) (g : grid) :
  dims g -> project (shift dx dy g) = shift dx dy (project g).
Proof.
  assert (HW : 0 < WIDTH) by (rewrite WIDTH_eq; lia).
  assert (HH : 0 < HEIGHT) by (rewrite HEIGHT_eq; lia).
  intros Hd. apply grid_ext; [apply project_dims, tabulate_dims | apply tabulate_dims |].
  intros x y Hx Hy.
  rewrite project_cell by (try assumption; apply tabulate_dims).
  rewrite !shift_cell by assumption.
  rewrite project_cell by (try assumption; apply Z.mod_pos_bound; assumption).
  reflexivity.
Qed.

Lemma stamped_ok (s px py : Z) : grid_ok (stamped s px py).
Proof.
  split; [apply tabulate_dims|]. intros x y Hx Hy.
  unfold stamped. rewrite tabulate_cell by assumption.
  unfold valid_state. change (Z.of_nat (length rules)) with 5.
  destruct (seeded _ _ _ _ _); lia.
Qed.

(** One seeder call on the empty grid leaves the stamped grid. *)
Lemma seed_empty (s px py : Z) (rest : list Z) :
  10 <= px < WIDTH - 10 -> 10 <= py < HEIGHT - 10 -> 0 <= s < seedsC ->
  exists m0,
    seed 1 init (px :: py :: s :: rest) =
      Some (m0, rest, seed_marks seeds 1 [px; py; s]) /\
    sim_ok m0 /\ cur m0 = stamped s px py.
Proof.
  intros Hpx Hpy Hs.
  assert (Hdr : draws_ok seeds (Z.to_nat 1) (px :: py :: s :: rest)).
  { change (Z.to_nat 1) with 1%nat. cbn [draws_ok]. unfold seedsC in Hs. tauto. }
  destruct (seed_spec 1 init _ sim_ok_init Hdr)
    as [m0 [E [Hok [_ [_ [_ Hcells]]]]]].
  exists m0. split; [|split; [exact Hok|]].
  - rewrite E. change (Z.to_nat 1) with 1%nat. cbn [seed_marks]. reflexivity.
  - destruct (sim_ok_bufs m0 Hok) as [_ [_ [[Hd _] _]]].
    apply grid_ext; [exact Hd | apply tabulate_dims |].
    intros a b Ha Hb. unfold stamped. rewrite tabulate_cell by assumption.
    rewrite Hcells, cur_init, cellv_dead.
    change (Z.to_nat 1) with 1%nat. reflexivity.
Qed.

(** Placing a shape elsewhere inside the inset moves the stamped grid. *)
Lemma covers_moved (sd : shape) (px py a b : Z) :
  width sd <= 10 -> height sd <= 10 ->
  10 <= px < WIDTH - 10 -> 10 <= py < HEIGHT - 10 ->
  0 <= a < WIDTH -> 0 <= b < HEIGHT ->
  covers sd 10 10 ((a + (10 - px)) mod WIDTH) ((b + (10 - py)) mod HEIGHT) =
  covers sd px py a b.
Proof.
  rewrite WIDTH_eq, HEIGHT_eq. intros Hw Hh Hpx Hpy Ha Hb.
  set (a' := (a + (10 - px)) mod 128). set (b' := (b + (10 - py)) mod 64).
  assert (Ha' : a' - 10 = a - px \/ (21 <= a' /\ a - px < 0))
    by (subst a'; Z.div_mod_to_equations; lia).
  assert (Hb' : b' - 10 = b - py \/ (21 <= b' /\ b - py < 0))
    by (subst b'; Z.div_mod_to_equations; lia).
  clearbody a' b'. unfold covers.
  destruct Ha' as [-> | [Ha1 Ha2]].
  - destruct Hb' as [-> | [Hb1 Hb2]]; [reflexivity|].
    destruct (Z.ltb_spec (b' - 10) (height sd)); [lia|].
    destruct (Z.leb_spec 0 (b - py)); [lia|].
    now rewrite !andb_false_r.
  - destruct (Z.ltb_spec (a' - 10) (width sd)); [lia|].
    destruct (Z.leb_spec 0 (a - px)); [lia|].
    now rewrite !andb_false_r.
Qed.

Lemma stamped_moved (s px py : Z) :
  10 <= px < WIDTH - 10 -> 10 <= py < HEIGHT - 10 ->
  stamped s px py = shift (10 - px) (10 - py) (stamped s 10 10).
Proof.
  assert (HW : 0 < WIDTH) by (rewrite WIDTH_eq; lia).
  assert (HH : 0 < HEIGHT) by (rewrite HEIGHT_eq; lia).
  intros Hpx Hpy. apply grid_ext; [apply tabulate_dims | apply tabulate_dims |].
  intros a b Ha Hb. rewrite shift_cell by assumption.
  unfold stamped. rewrite !tabulate_cell
    by (try assumption; apply Z.mod_pos_bound; assumption).
  cbn [seeded]. destruct (idx seeds s) as [sd|] eqn:Esd; [|reflexivity].
  pose proof seeds_fit as Hfit. unfold lib_fits in Hfit.
  rewrite Forall_forall in Hfit.
  assert (Hin : sd ∈ seeds).
  { unfold idx in Esd. destruct (0 <=? s); [|discriminate].
    eapply list_elem_of_lookup_2; exact Esd. }
  destruct (Hfit sd Hin) as [_ [Hw Hh]].
  now rewrite covers_moved.
Qed.

(** Four generations of each glider placed at (10, 10), by evaluation. *)
Lemma glider_period (s : Z) :
  0 <= s < 4 ->
  project (Nat.iter 4 next_grid (stamped s 10 10)) =
  project (shift (- fst (heading s)) (- snd (heading s)) (stamped s 10 10)).
Proof.
  intros Hs. assert (H : s = 0 \/ s = 1 \/ s = 2 \/ s = 3) by lia.
  destruct H as [->|[->|[->| ->]]]; vm_compute; reflexivity.
Qed.

Lemma glider_flight (s : Z) (n : nat) (dx dy : Z) :
  0 <= s < 4 ->
  project (Nat.iter (4 * n) next_grid (shift dx dy (stamped s 10 10))) =
  project (shift (dx - Z.of_nat n * fst (heading s))
                 (dy - Z.of_nat n * snd (heading s)) (stamped s 10 10)).
Proof.
  intros Hs. induction n as [|n IH].
  - cbn [Nat.mul Nat.iter nat_rect]. change (Z.of_nat 0) with 0.
    now rewrite !Z.mul_0_l, !Z.sub_0_r.
  - replace (4 * Datatypes.S n)%nat with (4 + 4 * n)%nat by lia.
    rewrite Nat.iter_add.
    set (G := stamped s 10 10) in *.
    assert (HG : grid_ok G) by apply stamped_ok.
    destruct (project_iter (shift dx dy G) (4 * n) (shift_ok dx dy G HG))
      as [Hok _].
    rewrite (proj2 (project_iter _ 4 Hok)), IH.
    rewrite <- (proj2 (project_iter _ 4 (shift_ok _ _ G HG))).
    rewrite shift_iter.
    rewrite project_shift by (apply (project_iter G 4 HG)).
    subst G. rewrite (glider_period s Hs).
    rewrite <- project_shift by apply tabulate_dims.
    rewrite shift_shift. f_equal. f_equal; lia.
Qed.

(** X13. A glider flies.  One seeder call on the empty grid that draws one of
    the four gliders of the selection list (indices 0 to 3) at any origin
    inside the inset returns, and after [4 * n] steps without the seeder the
    cells with alive flag 1 are exactly the seeded ones moved by [n] cells
    along the glider's diagonal, wrapping around the torus: down-right for
    GLIDER, down-left for GLIDER2, up-left for GLIDER3 and up-right for
    GLIDER4. *)
Theorem glider_flies (s px py : Z) (rest : list Z) (n : nat) :
  0 <= s < 4 -> 10 <= px < WIDTH - 10 -> 10 <= py < HEIGHT - 10 ->
  exists m0 ws mk h,
    seed 1 init (px :: py :: s :: rest) = Some (m0, rest, ws) /\
    evolve (4 * n) m0 = Some (mk, h) /\
    forall a b, 0 <= a < WIDTH -> 0 <= b < HEIGHT ->
      alive_flag (cellv (cur mk) a b) =
      alive_flag (cellv (cur m0) ((a - Z.of_nat n * fst (heading s)) mod WIDTH)
                                 ((b - Z.of_nat n * snd (heading s)) mod HEIGHT)).
Proof.
  intros Hs Hpx Hpy.
  assert (HW : 0 < WIDTH) by (rewrite WIDTH_eq; lia).
  assert (HH : 0 < HEIGHT) by (rewrite HEIGHT_eq; lia).
  assert (Hs' : 0 <= s < seedsC) by (change seedsC with 13; lia).
  destruct (seed_empty s px py rest Hpx Hpy Hs') as [m0 [E [Hok Hcur]]].
  destruct (evolve_spec (4 * n) m0 Hok) as [mk [Ek [Hokk Hk]]].
  exists m0, (seed_marks seeds 1 [px; py; s]), mk, (history (4 * n) (cur m0)).
  split; [exact E|]. split; [exact Ek|].
  intros a b Ha Hb.
  destruct (sim_ok_bufs mk Hokk) as [_ [_ [[Hdk _] _]]].
  destruct (sim_ok_bufs m0 Hok) as [_ [_ [[Hd0 _] _]]].
  rewrite <- (project_cell (cur mk)) by assumption.
  rewrite <- (project_cell (cur m0))
    by (try assumption; apply Z.mod_pos_bound; assumption).
  rewrite Hk, Hcur, (stamped_moved s px py Hpx Hpy), (glider_flight s n _ _ Hs).
  rewrite !project_shift by apply tabulate_dims.
  rewrite !shift_cell by (try assumption; apply Z.mod_pos_bound; assumption).
  rewrite !Zplus_mod_idemp_l. f_equal; f_equal; lia.
Qed.

Lemma glider_flies_witness :
  0 <= 1 < 4 /\ 10 <= 12 < WIDTH - 10 /\ 10 <= 50 < HEIGHT - 10 /\
  exists m0 ws mk h,
    seed 1 init [12; 50; 1] = Some (m0, [], ws) /\
    evolve (4 * 20) m0 = Some (mk, h) /\
    forall a b, 0 <= a < WIDTH -> 0 <= b < HEIGHT ->
      alive_flag (cellv (cur mk) a b) =
      alive_flag (cellv (cur m0) ((a - Z.of_nat 20 * fst (heading 1)) mod WIDTH)
                                 ((b - Z.of_nat 20 * snd (heading 1)) mod HEIGHT)).
Proof.
  assert (H1 : 0 <= 1 < 4) by lia.
  assert (H2 : 10 <= 12 < WIDTH - 10) by (rewrite WIDTH_eq; lia).
  assert (H3 : 10 <= 50 < HEIGHT - 10) by (rewrite HEIGHT_eq; lia).
  split; [exact H1|]. split; [exact H2|]. split; [exact H3|].
  exact (glider_flies 1 12 50 [] 20 H1 H2 H3).
Defined.
